(** * M7: a Mode 7 perspective-plane renderer (src/src/m7.h)

    A shallow embedding of the camera math, the element buffer and the
    frame life cycle of [m7.h], and the properties of its specification.

    Numbers.  The C code computes in [float].  Here a [float] is a real
    number: the development states what the formulas of the code compute
    over the reals, rounding apart.  A float division whose divisor is zero
    yields an infinity or a NaN in C; no real number stands for those, so a
    division is a partial operation ([fdiv]) and a computation that divides
    by zero ends in the fault [NonFinite].  The C functions do not stop
    there: they go on with the infinity or the NaN, make their calls and
    return.  The model follows a run up to its first division by zero and
    has no value for what comes after it; a result [Ok] says that the run
    divides by zero nowhere, and the properties of an operation are stated
    of such runs.

    Memory.  The two arrays of the element buffer are lists of cells of the
    allocated length; a cell that was never written holds no value.  A
    pointer to an element is the index of its slot in the backing array.
    Reading an unwritten cell, or reading or writing outside an array, ends
    in the fault [OutOfBounds].

    Effects.  The calls into raylib and OpenGL that an operation makes are
    collected, in order, as a list of [Call]s: the observable behaviour of an
    operation is the camera it leaves and the calls it made.  Values that the
    outside world returns (the shader handle and its uniform locations, the
    render target, the frame time, the keys) are arguments of the model. *)

From Stdlib Require Import Reals Lra Lia ZArith Bool.
From Stdlib Require Import Sorting.Sorted.
From stdpp Require Import base list.

Open Scope R_scope.

(** ** Faults and the error monad *)

Inductive Fault : Type :=
  | NonFinite      (* a float division by zero *)
  | OutOfBounds.   (* an access outside an array or to an unwritten cell *)

Inductive Res (A : Type) : Type :=
  | Ok (a : A)
  | Err (f : Fault).

Arguments Ok {A} a.
Arguments Err {A} f.

Definition bind {A B : Type} (m : Res A) (k : A -> Res B) : Res B :=
  match m with
  | Ok a => k a
  | Err f => Err f
  end.

Notation "x <- m ;; k" := (bind m (fun x => k))
  (at level 100, m at next level, right associativity).

(** ** C scalars *)

Abbreviation float := R.

(** [a / b] on floats. *)
Definition fdiv (a b : float) : Res float :=
  if Req_dec_T b 0 then Err NonFinite else Ok (a / b).

(** The relational operators of C on floats. *)
Definition fgt (a b : float) : bool := if Rlt_dec b a then true else false.
Definition flt (a b : float) : bool := if Rlt_dec a b then true else false.

(** A float used as a condition: true when it is not zero. *)
Definition ftruth (a : float) : bool := if Req_dec_T a 0 then false else true.

(** A C truth value as an [int]. *)
Definition int_of_bool (b : bool) : Z := if b then 1%Z else 0%Z.

(** [uint32_t] arithmetic wraps around. *)
Definition uint32_wrap (n : Z) : Z := (n mod 2 ^ 32)%Z.

(** ** raylib value types (external/raylib.h) *)

Module Vector2.
Record t : Type := mk { x : float; y : float }.
End Vector2.

Module Vector3.
Record t : Type := mk { x : float; y : float; z : float }.
End Vector3.

Module Rectangle.
Record t : Type := mk { x : float; y : float; width : float; height : float }.
End Rectangle.

Module Color.
Record t : Type := mk { r : Z; g : Z; b : Z; a : Z }.
End Color.

Module Texture2D.
Record t : Type := mk { id : Z; width : Z; height : Z; mipmaps : Z; format : Z }.
End Texture2D.

Module RenderTexture.
Record t : Type := mk { id : Z; texture : Texture2D.t; depth : Texture2D.t }.
End RenderTexture.

Module Shader.
Record t : Type := mk { id : Z }.
End Shader.

Definition WHITE : Color.t := Color.mk 255 255 255 255.

(** ** The structures of m7.h *)

Record Matrix2x2 : Type := {
  m0 : float; m1 : float;
  m2 : float; m3 : float
}.

Module SpaceData.
Record t : Type := mk {
  rectangle : Rectangle.t;
  position : Vector2.t;
  scale : Vector2.t
}.
End SpaceData.

Inductive M7_ZBuffer_Element_Type : Type :=
  | M7_ZBT_TEXTURE
  | M7_ZBT_RECTANGLE
  | M7_ZBT_CIRCLE.

Record M7_ZBuffer_Element : Type := {
  onWorld : SpaceData.t;
  onScreen : SpaceData.t;
  texture : Texture2D.t;
  distance : float;
  tint : Color.t;
  type : M7_ZBuffer_Element_Type
}.

Definition M7_Element : Type := M7_ZBuffer_Element.

(** A pointer into the backing array [elems]: the index of the slot. *)
Definition ptr : Type := nat.

Record M7_ZBuffer : Type := {
  ptrElems : list (option ptr);
  elems : list (option M7_ZBuffer_Element);
  maxCount : Z;
  count : Z
}.

Record PlaneProgram : Type := {
  shader : Shader.t;
  locMapTex : Z;
  locMapSize : Z;
  locCamPos : Z;
  locCamRot : Z;
  locZoom : Z;
  locFOV : Z;
  locOffset : Z;
  locWrap : Z
}.

Record M7_Camera : Type := {
  planeProgram : PlaneProgram;
  target : RenderTexture.t;
  buffer : M7_ZBuffer;
  rotMat : Matrix2x2;
  position : Vector2.t;
  rotation : float;
  zoom : float;
  fov : float;
  offset : float;
  aspect : float
}.

(** Assignments to one field of a camera. *)
Definition set_target (t : RenderTexture.t) (c : M7_Camera) : M7_Camera :=
  {| planeProgram := planeProgram c; target := t; buffer := buffer c;
     rotMat := rotMat c; position := position c; rotation := rotation c;
     zoom := zoom c; fov := fov c; offset := offset c; aspect := aspect c |}.

Definition set_planeProgram (p : PlaneProgram) (c : M7_Camera) : M7_Camera :=
  {| planeProgram := p; target := target c; buffer := buffer c;
     rotMat := rotMat c; position := position c; rotation := rotation c;
     zoom := zoom c; fov := fov c; offset := offset c; aspect := aspect c |}.

Definition set_buffer (b : M7_ZBuffer) (c : M7_Camera) : M7_Camera :=
  {| planeProgram := planeProgram c; target := target c; buffer := b;
     rotMat := rotMat c; position := position c; rotation := rotation c;
     zoom := zoom c; fov := fov c; offset := offset c; aspect := aspect c |}.

Definition set_rotMat (m : Matrix2x2) (c : M7_Camera) : M7_Camera :=
  {| planeProgram := planeProgram c; target := target c; buffer := buffer c;
     rotMat := m; position := position c; rotation := rotation c;
     zoom := zoom c; fov := fov c; offset := offset c; aspect := aspect c |}.

Definition set_position (p : Vector2.t) (c : M7_Camera) : M7_Camera :=
  {| planeProgram := planeProgram c; target := target c; buffer := buffer c;
     rotMat := rotMat c; position := p; rotation := rotation c;
     zoom := zoom c; fov := fov c; offset := offset c; aspect := aspect c |}.

Definition set_rotation (r : float) (c : M7_Camera) : M7_Camera :=
  {| planeProgram := planeProgram c; target := target c; buffer := buffer c;
     rotMat := rotMat c; position := position c; rotation := r;
     zoom := zoom c; fov := fov c; offset := offset c; aspect := aspect c |}.

Definition set_zoom (z : float) (c : M7_Camera) : M7_Camera :=
  {| planeProgram := planeProgram c; target := target c; buffer := buffer c;
     rotMat := rotMat c; position := position c; rotation := rotation c;
     zoom := z; fov := fov c; offset := offset c; aspect := aspect c |}.

Definition set_fov (f : float) (c : M7_Camera) : M7_Camera :=
  {| planeProgram := planeProgram c; target := target c; buffer := buffer c;
     rotMat := rotMat c; position := position c; rotation := rotation c;
     zoom := zoom c; fov := f; offset := offset c; aspect := aspect c |}.

Definition set_offset (o : float) (c : M7_Camera) : M7_Camera :=
  {| planeProgram := planeProgram c; target := target c; buffer := buffer c;
     rotMat := rotMat c; position := position c; rotation := rotation c;
     zoom := zoom c; fov := fov c; offset := o; aspect := aspect c |}.

Definition set_aspect (a : float) (c : M7_Camera) : M7_Camera :=
  {| planeProgram := planeProgram c; target := target c; buffer := buffer c;
     rotMat := rotMat c; position := position c; rotation := rotation c;
     zoom := zoom c; fov := fov c; offset := offset c; aspect := a |}.

(** ** The projective transform *)

(** [M7_ToScreen], m7.h lines 536-557.  The width and the height of the
    target are [int]s: [width / 2] is an integer division. *)
Definition M7_ToScreen (camera : M7_Camera) (point : Vector2.t) : Res Vector3.t :=
  let width := Texture2D.width (RenderTexture.texture (target camera)) in
  let height := Texture2D.height (RenderTexture.texture (target camera)) in
  objX <- fdiv (- (Vector2.x (position camera) - Vector2.x point)) (zoom camera) ;;
  objY <- fdiv (Vector2.y (position camera) - Vector2.y point) (zoom camera) ;;
  let spaceX := - objX * m0 (rotMat camera) - objY * m1 (rotMat camera) in
  let spaceY := (objX * m2 (rotMat camera) + objY * m3 (rotMat camera)) * fov camera in
  let distance := 1 - spaceY in
  qX <- fdiv spaceX distance ;;
  let screenPosX := qX * offset camera * IZR width + IZR (width ÷ 2) in
  qY <- fdiv (spaceY + offset camera - 1) distance ;;
  let screenPosY := qY * IZR height + IZR height in
  size <- fdiv (offset camera * IZR width) (zoom camera * distance) ;;
  Ok (Vector3.mk screenPosX screenPosY size).

(** [M7_ToWorld], m7.h lines 567-579. *)
Definition M7_ToWorld (camera : M7_Camera) (point : Vector2.t) : Res Vector2.t :=
  let width := Texture2D.width (RenderTexture.texture (target camera)) in
  let height := Texture2D.height (RenderTexture.texture (target camera)) in
  kx <- fdiv (zoom camera) (aspect camera) ;;
  let sx := (IZR (width ÷ 2) - Vector2.x point) * kx in
  ky <- fdiv (zoom camera) (fov camera) ;;
  let sy := (offset camera * IZR height - Vector2.y point) * ky in
  let rotX := sx * m0 (rotMat camera) + sy * m1 (rotMat camera) in
  let rotY := sx * m2 (rotMat camera) + sy * m3 (rotMat camera) in
  wx <- fdiv rotX (Vector2.y point) ;;
  wy <- fdiv rotY (Vector2.y point) ;;
  Ok (Vector2.mk (wx + Vector2.x (position camera)) (wy + Vector2.y (position camera))).

(** ** The calls into raylib and OpenGL *)

Inductive Call : Type :=
  | UnloadShader (s : Shader.t)
  | UnloadRenderTexture (t : RenderTexture.t)
  | BeginTextureMode (t : RenderTexture.t)
  | ClearBackground (c : Color.t)
  | EndTextureMode
  | SetShaderValue_VEC2 (s : Shader.t) (loc : Z) (v0 v1 : float)
  | SetShaderValue_INT (s : Shader.t) (loc : Z) (v : Z)
  | SetShaderValue_FLOAT (s : Shader.t) (loc : Z) (v : float)
  | BeginShaderMode (s : Shader.t)
  | SetShaderValueTexture (s : Shader.t) (loc : Z) (t : Texture2D.t)
  | DrawTexture (t : Texture2D.t) (posX posY : Z) (c : Color.t)
  | EndShaderMode
  | DrawTexturePro (t : Texture2D.t) (source dest : Rectangle.t)
      (origin : Vector2.t) (rot : float) (c : Color.t)
  | DrawRectangleRec (rec : Rectangle.t) (c : Color.t)
  | DrawCircleV (center : Vector2.t) (radius : float) (c : Color.t)
  | glUseProgram (program : Z)
  | glUniformMatrix2fv (loc : Z) (n : Z) (transpose : bool) (m : Matrix2x2).

(** ** Commands: a camera passed by pointer, the calls made, and faults *)

Definition Cmd (A : Type) : Type := M7_Camera -> Res (A * (M7_Camera * list Call)).

Definition ret {A : Type} (a : A) : Cmd A := fun c => Ok (a, (c, [])).

Definition andThen {A B : Type} (m : Cmd A) (k : A -> Cmd B) : Cmd B :=
  fun c =>
    match m c with
    | Ok (a, (c1, t1)) =>
        match k a c1 with
        | Ok (b, (c2, t2)) => Ok (b, (c2, t1 ++ t2))
        | Err f => Err f
        end
    | Err f => Err f
    end.

Definition get : Cmd M7_Camera := fun c => Ok (c, (c, [])).

Definition modify (f : M7_Camera -> M7_Camera) : Cmd unit := fun c => Ok (tt, (f c, [])).

Definition call (e : Call) : Cmd unit := fun c => Ok (tt, (c, [e])).

Definition calls (t : list Call) : Cmd unit := fun c => Ok (tt, (c, t)).

Definition lift {A : Type} (r : Res A) : Cmd A :=
  fun c => match r with Ok a => Ok (a, (c, [])) | Err f => Err f end.

(** A function that works on the camera through the pointer. *)
Definition update (f : M7_Camera -> Res M7_Camera) : Cmd unit :=
  fun c => match f c with Ok c1 => Ok (tt, (c1, [])) | Err e => Err e end.

Notation "x <~ m ;; k" := (andThen m (fun x => k))
  (at level 100, m at next level, right associativity).
Notation "m ;;; k" := (andThen m (fun _ => k))
  (at level 100, right associativity).

(** ** Arrays *)

Definition load {A : Type} (arr : list (option A)) (i : nat) : Res A :=
  match arr !! i with
  | Some (Some v) => Ok v
  | _ => Err OutOfBounds
  end.

Definition store {A : Type} (arr : list (option A)) (i : nat) (v : A) : Res (list (option A)) :=
  if (i <? length arr)%nat then Ok (<[i := Some v]> arr) else Err OutOfBounds.

(** ** libc

    [qsort] belongs to the C library.  The model takes any function that
    meets its contract in the C standard: the result holds the same cells,
    and is in ascending order for a comparison function that is consistent
    (a total preorder).  The order of cells that compare equal is left
    open. *)

Definition consistent {A : Type} (compar : A -> A -> Z) : Prop :=
  (forall a b, (compar a b <= 0)%Z \/ (compar b a <= 0)%Z) /\
  (forall a b c, (compar a b <= 0)%Z -> (compar b c <= 0)%Z -> (compar a c <= 0)%Z).

Class LibC : Type := {
  qsort : forall {A : Type}, (A -> A -> Z) -> list A -> list A;
  qsort_Permutation :
    forall (A : Type) (compar : A -> A -> Z) (l : list A),
      Permutation (qsort compar l) l;
  qsort_ascending :
    forall (A : Type) (compar : A -> A -> Z) (l : list A),
      consistent compar ->
      StronglySorted (fun a b => (compar a b <= 0)%Z) (qsort compar l)
}.

(** Insertion sort, one function that meets the contract. *)
Fixpoint insert_sorted {A : Type} (compar : A -> A -> Z) (a : A) (l : list A) : list A :=
  match l with
  | [] => [a]
  | b :: l' => if (compar a b <=? 0)%Z then a :: l else b :: insert_sorted compar a l'
  end.

Definition insertion_sort {A : Type} (compar : A -> A -> Z) (l : list A) : list A :=
  foldr (insert_sorted compar) [] l.

(** ** The element buffer *)

(** [M7_ZBuffer_Load], m7.h lines 686-705.  [malloc] is taken to succeed;
    the allocated cells are unwritten. *)
Definition M7_ZBuffer_Load (maxElements : Z) : M7_ZBuffer :=
  if (maxElements >? 0)%Z
  then {| ptrElems := replicate (Z.to_nat maxElements) None;
          elems := replicate (Z.to_nat maxElements) None;
          maxCount := maxElements;
          count := 0 |}
  else {| ptrElems := [];
          elems := [];
          maxCount := maxElements;
          count := 0 |}.

(** [M7_ZBuffer_Unload], m7.h lines 712-728: both arrays are freed. *)
Definition M7_ZBuffer_Unload (buffer : M7_ZBuffer) : M7_ZBuffer :=
  {| ptrElems := []; elems := []; maxCount := 0; count := 0 |}.

(** [M7_ZBuffer_Element_Add], m7.h lines 738-746.  The result is the
    pointer returned, [None] for [NULL], and the buffer left. *)
Definition M7_ZBuffer_Element_Add (buffer : M7_ZBuffer) (elem : M7_ZBuffer_Element)
  : Res (option ptr * M7_ZBuffer) :=
  if (count buffer =? maxCount buffer)%Z then Ok (None, buffer)
  else
    let p : ptr := Z.to_nat (count buffer) in
    elems1 <- store (elems buffer) p elem ;;
    ptrElems1 <- store (ptrElems buffer) (Z.to_nat (count buffer)) p ;;
    Ok (Some p,
        {| ptrElems := ptrElems1;
           elems := elems1;
           maxCount := maxCount buffer;
           count := uint32_wrap (count buffer + 1) |}).

(** [M7_ZBuffer_Element_Update], m7.h lines 754-773, on the element that
    the pointer designates. *)
Definition M7_ZBuffer_Element_Update (elem : M7_ZBuffer_Element) (camera : M7_Camera)
  : Res M7_ZBuffer_Element :=
  posAndSize <- M7_ToScreen camera (SpaceData.position (onWorld elem)) ;;
  let w := Rectangle.width (SpaceData.rectangle (onWorld elem)) in
  let h := Rectangle.height (SpaceData.rectangle (onWorld elem)) in
  scaleX <- fdiv (Vector3.z posAndSize * Vector2.x (SpaceData.scale (onWorld elem))) w ;;
  scaleY <- fdiv (Vector3.z posAndSize * Vector2.y (SpaceData.scale (onWorld elem))) h ;;
  let rectangle :=
    Rectangle.mk
      (Vector3.x posAndSize - (w * scaleX) * 0.5)
      (Vector3.y posAndSize - h * scaleY)
      (w * scaleX)
      (w * scaleY) in
  Ok {| onWorld := onWorld elem;
        onScreen :=
          SpaceData.mk rectangle
            (Vector2.mk (Vector3.x posAndSize) (Vector3.y posAndSize))
            (Vector2.mk scaleX scaleY);
        texture := texture elem;
        distance := Vector3.z posAndSize;
        tint := tint elem;
        type := type elem |}.

(** [M7_ZBuffer_Element_Draw], m7.h lines 780-811: the calls made for one
    element. *)
Definition M7_ZBuffer_Element_Draw (elem : M7_ZBuffer_Element) : list Call :=
  match type elem with
  | M7_ZBT_TEXTURE =>
      if eqb (fgt (Vector2.x (SpaceData.scale (onScreen elem))) 0)
             (fgt (Vector2.x (SpaceData.scale (onWorld elem))) 0)
         && eqb (fgt (Vector2.y (SpaceData.scale (onScreen elem))) 0)
                (fgt (Vector2.y (SpaceData.scale (onWorld elem))) 0)
      then [DrawTexturePro (texture elem)
              (SpaceData.rectangle (onWorld elem))
              (SpaceData.rectangle (onScreen elem))
              (Vector2.mk 0 0) 0 (tint elem)]
      else []
  | M7_ZBT_RECTANGLE =>
      [DrawRectangleRec (SpaceData.rectangle (onScreen elem)) (tint elem)]
  | M7_ZBT_CIRCLE =>
      let pos := SpaceData.position (onScreen elem) in
      let pos := Vector2.mk (Vector2.x pos)
                   (Vector2.y pos - Rectangle.width (SpaceData.rectangle (onScreen elem))) in
      [DrawCircleV pos (Rectangle.width (SpaceData.rectangle (onScreen elem))) (tint elem)]
  end.

(** [M7_ZBuffer_Compare], m7.h lines 821-826, on the two elements that the
    compared cells point to. *)
Definition M7_ZBuffer_Compare (e1 e2 : M7_ZBuffer_Element) : Z :=
  (int_of_bool (fgt (distance e1) (distance e2))
   - int_of_bool (flt (distance e1) (distance e2)))%Z.

(** The first [n] cells of the pointer array, each with the element it
    points to. *)
Fixpoint cells (buffer : M7_ZBuffer) (i : nat) (n : nat)
  : Res (list (ptr * M7_ZBuffer_Element)) :=
  match n with
  | O => Ok []
  | S n' =>
      p <- load (ptrElems buffer) i ;;
      e <- load (elems buffer) p ;;
      rest <- cells buffer (S i) n' ;;
      Ok ((p, e) :: rest)
  end.

Section WithLibC.
Context `{LibC}.

(** [M7_ZBuffer_Sort], m7.h lines 833-836: [qsort] permutes the first
    [count] cells of the pointer array; the comparison function follows
    the two pointers it is given. *)
Definition M7_ZBuffer_Sort (buffer : M7_ZBuffer) : Res M7_ZBuffer :=
  let n := Z.to_nat (count buffer) in
  cs <- cells buffer 0 n ;;
  let sorted := qsort (fun a b => M7_ZBuffer_Compare (snd a) (snd b)) cs in
  Ok {| ptrElems := map (fun c => Some (fst c)) sorted ++ drop n (ptrElems buffer);
        elems := elems buffer;
        maxCount := maxCount buffer;
        count := count buffer |}.
End WithLibC.

Definition set_elems (es : list (option M7_ZBuffer_Element)) (b : M7_ZBuffer) : M7_ZBuffer :=
  {| ptrElems := ptrElems b; elems := es; maxCount := maxCount b; count := count b |}.

(** The loop of [M7_ZBuffer_Update], m7.h lines 846-849, from index [i] for
    [n] rounds: the element behind the [i]-th pointer is updated in place. *)
Fixpoint M7_ZBuffer_Update_loop (i n : nat) (camera : M7_Camera) : Res M7_Camera :=
  match n with
  | O => Ok camera
  | S n' =>
      p <- load (ptrElems (buffer camera)) i ;;
      elem <- load (elems (buffer camera)) p ;;
      elem1 <- M7_ZBuffer_Element_Update elem camera ;;
      elems1 <- store (elems (buffer camera)) p elem1 ;;
      M7_ZBuffer_Update_loop (S i) n' (set_buffer (set_elems elems1 (buffer camera)) camera)
  end.

(** [M7_ZBuffer_Update], m7.h lines 843-850. *)
Definition M7_ZBuffer_Update (camera : M7_Camera) : Res M7_Camera :=
  M7_ZBuffer_Update_loop 0 (Z.to_nat (count (buffer camera))) camera.

(** The loop of [M7_ZBuffer_Draw], m7.h lines 859-862. *)
Fixpoint M7_ZBuffer_Draw_loop (buffer : M7_ZBuffer) (i n : nat) : Res (list Call) :=
  match n with
  | O => Ok []
  | S n' =>
      p <- load (ptrElems buffer) i ;;
      elem <- load (elems buffer) p ;;
      rest <- M7_ZBuffer_Draw_loop buffer (S i) n' ;;
      Ok (M7_ZBuffer_Element_Draw elem ++ rest)
  end.

(** [M7_ZBuffer_Draw], m7.h lines 857-863. *)
Definition M7_ZBuffer_Draw (buffer : M7_ZBuffer) : Res (list Call) :=
  M7_ZBuffer_Draw_loop buffer 0 (Z.to_nat (count buffer)).

(** ** The camera *)

(** [M7_Camera_SetPosition], m7.h lines 400-403. *)
Definition M7_Camera_SetPosition (position : Vector2.t) : Cmd unit :=
  modify (set_position position).

(** [M7_Camera_SetRotation], m7.h lines 411-425. *)
Definition M7_Camera_SetRotation (rotation : float) : Cmd unit :=
  modify (set_rotation rotation) ;;;
  let cosR := cos rotation in
  let sinR := sin rotation in
  modify (set_rotMat {| m0 := cosR; m1 := - sinR; m2 := sinR; m3 := cosR |}) ;;;
  camera <~ get ;;
  call (glUseProgram (Shader.id (shader (planeProgram camera)))) ;;;
  call (glUniformMatrix2fv (locCamRot (planeProgram camera)) 1 false (rotMat camera)).

(** [M7_Camera_SetZoom], m7.h lines 433-441. *)
Definition M7_Camera_SetZoom (zoom : float) : Cmd unit :=
  modify (set_zoom zoom) ;;;
  camera <~ get ;;
  call (SetShaderValue_FLOAT (shader (planeProgram camera)) (locZoom (planeProgram camera)) zoom).

(** [M7_Camera_SetFOV], m7.h lines 449-457. *)
Definition M7_Camera_SetFOV (fov : float) : Cmd unit :=
  modify (set_fov fov) ;;;
  camera <~ get ;;
  call (SetShaderValue_FLOAT (shader (planeProgram camera)) (locFOV (planeProgram camera)) fov).

(** [M7_Camera_SetOffset], m7.h lines 465-473. *)
Definition M7_Camera_SetOffset (offset : float) : Cmd unit :=
  modify (set_offset offset) ;;;
  camera <~ get ;;
  call (SetShaderValue_FLOAT (shader (planeProgram camera)) (locOffset (planeProgram camera)) offset).

(** [M7_Camera_Translate], m7.h lines 482-488. *)
Definition M7_Camera_Translate (dx dy : float) : Cmd unit :=
  camera <~ get ;;
  M7_Camera_SetPosition
    (Vector2.mk
       (Vector2.x (position camera) + (dx * m0 (rotMat camera) + dy * m1 (rotMat camera)))
       (Vector2.y (position camera) + (dx * m2 (rotMat camera) + dy * m3 (rotMat camera)))).

(** [M7_Camera_Rotate], m7.h lines 496-499. *)
Definition M7_Camera_Rotate (delta : float) : Cmd unit :=
  camera <~ get ;;
  M7_Camera_SetRotation (rotation camera + delta).

(** What raylib reports to one call of [M7_Camera_Move]. *)
Record Input : Type := {
  GetFrameTime : float;
  KEY_A : bool; KEY_D : bool; KEY_W : bool; KEY_S : bool;
  KEY_RIGHT : bool; KEY_LEFT : bool;
  KEY_DOWN : bool; KEY_UP : bool;
  KEY_PAGE_DOWN : bool; KEY_PAGE_UP : bool;
  GetMouseWheelMove : float
}.

(** The difference of two [IsKeyDown] results, as a float. *)
Definition keys (down up : bool) : float := IZR (int_of_bool down - int_of_bool up).

(** [M7_Camera_Move], m7.h lines 507-526. *)
Definition M7_Camera_Move (input : Input) (speed : float) : Cmd unit :=
  let dt := GetFrameTime input in
  let speed := speed * dt in
  let dx := keys (KEY_A input) (KEY_D input) in
  let dy := keys (KEY_W input) (KEY_S input) in
  d <~ lift (if ftruth dx || ftruth dy
             then
               let mag := sqrt (dx * dx + dy * dy) in
               dx1 <- fdiv dx mag ;;
               dy1 <- fdiv dy mag ;;
               Ok (dx1, dy1)
             else Ok (dx, dy)) ;;
  M7_Camera_Translate (fst d * speed) (snd d * speed) ;;;
  M7_Camera_Rotate (keys (KEY_RIGHT input) (KEY_LEFT input) * dt) ;;;
  camera <~ get ;;
  M7_Camera_SetFOV (fov camera + - GetMouseWheelMove input * 0.1) ;;;
  camera <~ get ;;
  M7_Camera_SetZoom (zoom camera + keys (KEY_DOWN input) (KEY_UP input) * speed) ;;;
  camera <~ get ;;
  M7_Camera_SetOffset (offset camera + keys (KEY_PAGE_DOWN input) (KEY_PAGE_UP input) * dt).

(** [M7_Camera_Begin], m7.h lines 324-328. *)
Definition M7_Camera_Begin (backgroundColor : Color.t) : Cmd unit :=
  camera <~ get ;;
  call (BeginTextureMode (target camera)) ;;;
  call (ClearBackground backgroundColor).

(** [M7_Camera_DrawPlane], m7.h lines 359-379. *)
Definition M7_Camera_DrawPlane (texture : Texture2D.t) (pos origin scale : Vector2.t)
    (wrap : Z) : Cmd unit :=
  camera <~ get ;;
  let mapSize0 := IZR (Texture2D.width texture) * Vector2.x scale in
  let mapSize1 := IZR (Texture2D.height texture) * Vector2.y scale in
  let camPos0 := Vector2.x (position camera) + Vector2.x pos + Vector2.x origin in
  let camPos1 := Vector2.y (position camera) + Vector2.y pos + Vector2.y origin in
  let program := planeProgram camera in
  call (SetShaderValue_VEC2 (shader program) (locMapSize program) mapSize0 mapSize1) ;;;
  call (SetShaderValue_VEC2 (shader program) (locCamPos program) camPos0 camPos1) ;;;
  call (SetShaderValue_INT (shader program) (locWrap program) wrap) ;;;
  call (BeginShaderMode (shader program)) ;;;
  call (SetShaderValueTexture (shader program) (locMapTex program) texture) ;;;
  call (DrawTexture (RenderTexture.texture (target camera)) 0 0 WHITE) ;;;
  call (EndShaderMode).

(** [M7_Camera_Render], m7.h lines 386-392. *)
Definition M7_Camera_Render : Cmd unit :=
  camera <~ get ;;
  let t := RenderTexture.texture (target camera) in
  call (DrawTexturePro t
          (Rectangle.mk 0 0 (IZR (Texture2D.width t)) (IZR (- Texture2D.height t)))
          (Rectangle.mk 0 0 (IZR (Texture2D.width t)) (IZR (Texture2D.height t)))
          (Vector2.mk 0 0) 0 WHITE).

Section WithLibC.
Context `{LibC}.

(** [M7_Camera_End], m7.h lines 335-343.  When the update of an element
    divides by zero the C function stores the infinity or the NaN and goes
    on to sort, draw and call [EndTextureMode]; the model has no value for
    that element and ends in [NonFinite] (see Numbers above). *)
Definition M7_Camera_End : Cmd unit :=
  update M7_ZBuffer_Update ;;;
  update (fun camera =>
            buffer1 <- M7_ZBuffer_Sort (buffer camera) ;;
            Ok (set_buffer buffer1 camera)) ;;;
  camera <~ get ;;
  draws <~ lift (M7_ZBuffer_Draw (buffer camera)) ;;
  calls draws ;;;
  call EndTextureMode.

(** [M7_Camera_Update], m7.h lines 308-316. *)
Definition M7_Camera_Update (texture : Texture2D.t) (pos scale : Vector2.t)
    (wrap : Z) (backgroundColor : Color.t) : Cmd unit :=
  M7_Camera_Begin backgroundColor ;;;
  M7_Camera_DrawPlane texture pos
    (Vector2.mk
       ((IZR (Texture2D.width texture) * Vector2.x scale) * 0.5)
       ((IZR (Texture2D.height texture) * Vector2.y scale) * 0.5))
    scale wrap ;;;
  M7_Camera_End.
End WithLibC.

(** ** Loading and unloading *)

(** What raylib hands out while a camera is loaded: the shader compiled from
    [M7_PlaneFragment] with the locations of its eight uniforms, and the
    identifiers of the render target.  Loading is taken to succeed. *)
Record Graphics : Type := {
  gfx_program : PlaneProgram;
  gfx_framebuffer : Z;
  gfx_color : Z;
  gfx_depth : Z
}.

(** raylib's [LoadRenderTexture]: the textures of the target have the size
    asked for. *)
Definition LoadRenderTexture (g : Graphics) (width height : Z) : RenderTexture.t :=
  RenderTexture.mk (gfx_framebuffer g)
    (Texture2D.mk (gfx_color g) width height 1 7)
    (Texture2D.mk (gfx_depth g) width height 1 19).

Definition Texture2D_zero : Texture2D.t := Texture2D.mk 0 0 0 0 0.

Definition SpaceData_zero : SpaceData.t :=
  SpaceData.mk (Rectangle.mk 0 0 0 0) (Vector2.mk 0 0) (Vector2.mk 0 0).

(** [M7_Camera camera = {0}]. *)
Definition M7_Camera_zero : M7_Camera :=
  {| planeProgram :=
       {| shader := Shader.mk 0; locMapTex := 0; locMapSize := 0; locCamPos := 0;
          locCamRot := 0; locZoom := 0; locFOV := 0; locOffset := 0; locWrap := 0 |};
     target := RenderTexture.mk 0 Texture2D_zero Texture2D_zero;
     buffer := {| ptrElems := []; elems := []; maxCount := 0; count := 0 |};
     rotMat := {| m0 := 0; m1 := 0; m2 := 0; m3 := 0 |};
     position := Vector2.mk 0 0;
     rotation := 0; zoom := 0; fov := 0; offset := 0; aspect := 0 |}.

(** [M7_Camera_Load], m7.h lines 251-281: the camera returned and the calls
    made by the five setters.  [maxSprites] is a [uint32_t] parameter: the
    argument is converted on the call.  When the smaller dimension is zero
    the division of the aspect is by zero: the C function stores the
    infinity or the NaN and goes on to its calls; the model has no value
    for that aspect and ends in [NonFinite] (see Numbers above). *)
Definition M7_Camera_Load (g : Graphics) (screenWidth screenHeight : Z)
    (position : Vector2.t) (rotation zoom fov offset : float) (maxSprites : Z)
  : Res (M7_Camera * list Call) :=
  let body : Cmd unit :=
    a <~ lift (if (screenWidth >? screenHeight)%Z
               then fdiv (IZR screenWidth) (IZR screenHeight)
               else fdiv (IZR screenHeight) (IZR screenWidth)) ;;
    modify (set_aspect a) ;;;
    modify (set_planeProgram (gfx_program g)) ;;;
    modify (set_target (LoadRenderTexture g screenWidth screenHeight)) ;;;
    modify (set_buffer (M7_ZBuffer_Load (uint32_wrap maxSprites))) ;;;
    M7_Camera_SetPosition position ;;;
    M7_Camera_SetRotation rotation ;;;
    M7_Camera_SetOffset offset ;;;
    M7_Camera_SetZoom zoom ;;;
    M7_Camera_SetFOV fov in
  match body M7_Camera_zero with
  | Ok (_, r) => Ok r
  | Err e => Err e
  end.

(** [M7_Camera_Unload], m7.h lines 288-296. *)
Definition M7_Camera_Unload : Cmd unit :=
  camera <~ get ;;
  call (UnloadShader (shader (planeProgram camera))) ;;;
  call (UnloadRenderTexture (target camera)) ;;;
  modify (fun c => set_buffer (M7_ZBuffer_Unload (buffer c)) c) ;;;
  modify (fun c =>
            let t := RenderTexture.texture (target c) in
            set_target
              (RenderTexture.mk 0
                 (Texture2D.mk 0 (Texture2D.width t) (Texture2D.height t)
                    (Texture2D.mipmaps t) (Texture2D.format t))
                 (RenderTexture.depth (target c))) c) ;;;
  modify (fun c =>
            let p := planeProgram c in
            set_planeProgram
              {| shader := Shader.mk 0; locMapTex := locMapTex p;
                 locMapSize := locMapSize p; locCamPos := locCamPos p;
                 locCamRot := locCamRot p; locZoom := locZoom p; locFOV := locFOV p;
                 locOffset := locOffset p; locWrap := locWrap p |} c).

(** ** Adding elements *)

(** An add on the buffer of the camera. *)
Definition add (elem : M7_ZBuffer_Element) : Cmd (option ptr) :=
  camera <~ get ;;
  r <~ lift (M7_ZBuffer_Element_Add (buffer camera) elem) ;;
  modify (set_buffer (snd r)) ;;;
  ret (fst r).

(** [M7_Texture_Add], m7.h lines 597-613. *)
Definition M7_Texture_Add (texture : Texture2D.t) (source : Rectangle.t)
    (position scale : Vector2.t) (tint : Color.t) : Cmd (option ptr) :=
  let tex :=
    {| onWorld := SpaceData.mk source position scale;
       onScreen := SpaceData_zero;
       texture := texture;
       distance := 0;
       tint := tint;
       type := M7_ZBT_TEXTURE |} in
  add tex.

(** [M7_Rectangle_Add], m7.h lines 624-639. *)
Definition M7_Rectangle_Add (rectangle : Rectangle.t) (tint : Color.t) : Cmd (option ptr) :=
  let rect :=
    {| onWorld :=
         SpaceData.mk
           (Rectangle.mk (Rectangle.x rectangle) (Rectangle.y rectangle) 1 1)
           (Vector2.mk (Rectangle.x rectangle) (Rectangle.y rectangle))
           (Vector2.mk (Rectangle.width rectangle) (Rectangle.height rectangle));
       onScreen := SpaceData_zero;
       texture := Texture2D_zero;
       distance := 0;
       tint := tint;
       type := M7_ZBT_RECTANGLE |} in
  add rect.

(** [M7_Circle_Add], m7.h lines 651-673. *)
Definition M7_Circle_Add (position : Vector2.t) (radius : float) (tint : Color.t)
  : Cmd (option ptr) :=
  let circle :=
    {| onWorld :=
         SpaceData.mk
           (Rectangle.mk (Vector2.x position - radius) (Vector2.y position - radius) 1 1)
           position
           (Vector2.mk radius radius);
       onScreen := SpaceData_zero;
       texture := Texture2D_zero;
       distance := 0;
       tint := tint;
       type := M7_ZBT_CIRCLE |} in
  add circle.

(** ** The caller

    [main.c] keeps the pointer that an add returned and writes the
    world-space data of the element through it
    ([firstCharacter->onWorld.position = wPos]). *)
Definition write_onWorld (p : ptr) (w : SpaceData.t) : Cmd unit :=
  update (fun camera =>
            elem <- load (elems (buffer camera)) p ;;
            elems1 <- store (elems (buffer camera)) p
                        {| onWorld := w; onScreen := onScreen elem;
                           texture := texture elem; distance := distance elem;
                           tint := tint elem; type := type elem |} ;;
            Ok (set_buffer (set_elems elems1 (buffer camera)) camera)).

(** The three add operations with their arguments. *)
Inductive AddArgs : Type :=
  | Add_Texture (texture : Texture2D.t) (source : Rectangle.t)
      (position scale : Vector2.t) (tint : Color.t)
  | Add_Rectangle (rectangle : Rectangle.t) (tint : Color.t)
  | Add_Circle (position : Vector2.t) (radius : float) (tint : Color.t).

Definition do_add (a : AddArgs) : Cmd (option ptr) :=
  match a with
  | Add_Texture texture source position scale tint =>
      M7_Texture_Add texture source position scale tint
  | Add_Rectangle rectangle tint => M7_Rectangle_Add rectangle tint
  | Add_Circle position radius tint => M7_Circle_Add position radius tint
  end.

(** The element that an add copies into the buffer. *)
Definition added_element (a : AddArgs) : M7_ZBuffer_Element :=
  match a with
  | Add_Texture texture source position scale tint =>
      {| onWorld := SpaceData.mk source position scale;
         onScreen := SpaceData_zero; texture := texture; distance := 0;
         tint := tint; type := M7_ZBT_TEXTURE |}
  | Add_Rectangle rectangle tint =>
      {| onWorld :=
           SpaceData.mk
             (Rectangle.mk (Rectangle.x rectangle) (Rectangle.y rectangle) 1 1)
             (Vector2.mk (Rectangle.x rectangle) (Rectangle.y rectangle))
             (Vector2.mk (Rectangle.width rectangle) (Rectangle.height rectangle));
         onScreen := SpaceData_zero; texture := Texture2D_zero; distance := 0;
         tint := tint; type := M7_ZBT_RECTANGLE |}
  | Add_Circle position radius tint =>
      {| onWorld :=
           SpaceData.mk
             (Rectangle.mk (Vector2.x position - radius) (Vector2.y position - radius) 1 1)
             position (Vector2.mk radius radius);
         onScreen := SpaceData_zero; texture := Texture2D_zero; distance := 0;
         tint := tint; type := M7_ZBT_CIRCLE |}
  end.

(** A run of adds, with the pointers returned. *)
Fixpoint run_adds (l : list AddArgs) : Cmd (list (option ptr)) :=
  match l with
  | [] => ret []
  | a :: l' =>
      p <~ do_add a ;;
      ps <~ run_adds l' ;;
      ret (p :: ps)
  end.

(** The operations on a loaded camera. *)
Inductive Op : Type :=
  | Op_Unload
  | Op_Update (texture : Texture2D.t) (pos scale : Vector2.t) (wrap : Z)
      (backgroundColor : Color.t)
  | Op_Begin (backgroundColor : Color.t)
  | Op_End
  | Op_DrawPlane (texture : Texture2D.t) (pos origin scale : Vector2.t) (wrap : Z)
  | Op_Render
  | Op_SetPosition (position : Vector2.t)
  | Op_SetRotation (rotation : float)
  | Op_SetZoom (zoom : float)
  | Op_SetFOV (fov : float)
  | Op_SetOffset (offset : float)
  | Op_Translate (dx dy : float)
  | Op_Rotate (delta : float)
  | Op_Move (input : Input) (speed : float)
  | Op_Add (a : AddArgs)
  | Op_write_onWorld (p : ptr) (w : SpaceData.t).

Definition no_ptr (m : Cmd unit) : Cmd (option ptr) := m ;;; ret None.

Section WithLibC.
Context `{LibC}.

Definition step (op : Op) : Cmd (option ptr) :=
  match op with
  | Op_Unload => no_ptr M7_Camera_Unload
  | Op_Update texture pos scale wrap backgroundColor =>
      no_ptr (M7_Camera_Update texture pos scale wrap backgroundColor)
  | Op_Begin backgroundColor => no_ptr (M7_Camera_Begin backgroundColor)
  | Op_End => no_ptr M7_Camera_End
  | Op_DrawPlane texture pos origin scale wrap =>
      no_ptr (M7_Camera_DrawPlane texture pos origin scale wrap)
  | Op_Render => no_ptr M7_Camera_Render
  | Op_SetPosition position => no_ptr (M7_Camera_SetPosition position)
  | Op_SetRotation rotation => no_ptr (M7_Camera_SetRotation rotation)
  | Op_SetZoom zoom => no_ptr (M7_Camera_SetZoom zoom)
  | Op_SetFOV fov => no_ptr (M7_Camera_SetFOV fov)
  | Op_SetOffset offset => no_ptr (M7_Camera_SetOffset offset)
  | Op_Translate dx dy => no_ptr (M7_Camera_Translate dx dy)
  | Op_Rotate delta => no_ptr (M7_Camera_Rotate delta)
  | Op_Move input speed => no_ptr (M7_Camera_Move input speed)
  | Op_Add a => do_add a
  | Op_write_onWorld p w => no_ptr (write_onWorld p w)
  end.

(** The cameras that a program can hold: loaded, then operated on. *)
Inductive reachable : M7_Camera -> Prop :=
  | reachable_Load g screenWidth screenHeight position rotation zoom fov offset
      maxSprites camera t :
      M7_Camera_Load g screenWidth screenHeight position rotation zoom fov offset
        maxSprites = Ok (camera, t) ->
      reachable camera
  | reachable_step camera op r camera' t :
      reachable camera ->
      step op camera = Ok (r, (camera', t)) ->
      reachable camera'.
End WithLibC.

(** The rotation matrix of an angle, as [M7_Camera_SetRotation] fills it. *)
Definition rotation_matrix (theta : float) : Matrix2x2 :=
  {| m0 := cos theta; m1 := - sin theta; m2 := sin theta; m3 := cos theta |}.

(** The local [spaceY] of [M7_ToScreen], m7.h lines 539-544: the rotated
    vertical coordinate in camera space, scaled by the field of view. *)
Definition ToScreen_spaceY (camera : M7_Camera) (point : Vector2.t) : float :=
  let objX := - (Vector2.x (position camera) - Vector2.x point) / zoom camera in
  let objY := (Vector2.y (position camera) - Vector2.y point) / zoom camera in
  (objX * m2 (rotMat camera) + objY * m3 (rotMat camera)) * fov camera.

(** The local [distance] of [M7_ToScreen], m7.h line 547. *)
Definition ToScreen_distance (camera : M7_Camera) (point : Vector2.t) : float :=
  1 - ToScreen_spaceY camera point.

(** The local [spaceX] of [M7_ToScreen], m7.h lines 539-543. *)
Definition ToScreen_spaceX (camera : M7_Camera) (point : Vector2.t) : float :=
  let objX := - (Vector2.x (position camera) - Vector2.x point) / zoom camera in
  let objY := (Vector2.y (position camera) - Vector2.y point) / zoom camera in
  - objX * m0 (rotMat camera) - objY * m1 (rotMat camera).

(** The buffer is well formed: the count is within the capacity, the arrays
    have the allocated length, the first [count] slots are written, and the
    first [count] pointers are the addresses of these slots, in some order. *)
Definition wf (b : M7_ZBuffer) : Prop :=
  (0 <= count b <= maxCount b)%Z /\
  (maxCount b < 2 ^ 32)%Z /\
  length (elems b) = Z.to_nat (maxCount b) /\
  length (ptrElems b) = Z.to_nat (maxCount b) /\
  (forall i, (i < Z.to_nat (count b))%nat -> exists e, elems b !! i = Some (Some e)) /\
  Permutation (take (Z.to_nat (count b)) (ptrElems b))
              (map Some (seq 0 (Z.to_nat (count b)))).

(** ** Definitions used in the statements *)

(** The camera that [M7_Camera_Load] returns, and the calls it makes. *)
Definition loaded_camera (g : Graphics) (screenWidth screenHeight : Z)
    (position : Vector2.t) (rotation zoom fov offset : float) (maxSprites : Z) : M7_Camera :=
  {| planeProgram := gfx_program g;
     target := LoadRenderTexture g screenWidth screenHeight;
     buffer := M7_ZBuffer_Load (uint32_wrap maxSprites);
     rotMat := rotation_matrix rotation;
     position := position;
     rotation := rotation;
     zoom := zoom;
     fov := fov;
     offset := offset;
     aspect := IZR (Z.max screenWidth screenHeight) / IZR (Z.min screenWidth screenHeight) |}.

Definition loading_calls (g : Graphics) (rotation zoom fov offset : float) : list Call :=
  let p := gfx_program g in
  [ glUseProgram (Shader.id (shader p));
    glUniformMatrix2fv (locCamRot p) 1 false (rotation_matrix rotation);
    SetShaderValue_FLOAT (shader p) (locOffset p) offset;
    SetShaderValue_FLOAT (shader p) (locZoom p) zoom;
    SetShaderValue_FLOAT (shader p) (locFOV p) fov ].

(** The camera of the demo: at the origin, rotation 0, zoom 80, field of
    view 0.5, offset 0.5, on a target of 1280 by 720. *)
Definition demo_camera (g : Graphics) (maxSprites : Z) : M7_Camera :=
  loaded_camera g 1280 720 (Vector2.mk 0 0) 0 80 0.5 0.5 maxSprites.

(** The distances read along the pointer array. *)
Definition distances (cs : list (ptr * M7_ZBuffer_Element)) : list R :=
  map (fun c => distance (snd c)) cs.

(** Slot [j] of [es] holds the update of what slot [j] of [es0] held. *)
Definition updated_slot (camera : M7_Camera) (es0 es : list (option M7_ZBuffer_Element))
    (j : nat) : Prop :=
  exists e e', es0 !! j = Some (Some e) /\
               M7_ZBuffer_Element_Update e camera = Ok e' /\
               es !! j = Some (Some e').

(** What an operation leaves alone besides the buffer. *)
Definition same_view (c c' : M7_Camera) : Prop :=
  aspect c' = aspect c /\
  Texture2D.width (RenderTexture.texture (target c'))
  = Texture2D.width (RenderTexture.texture (target c)) /\
  Texture2D.height (RenderTexture.texture (target c'))
  = Texture2D.height (RenderTexture.texture (target c)).

(** The cached matrix is the matrix of the rotation of the camera. *)
Definition rotMat_ok (c : M7_Camera) : Prop := rotMat c = rotation_matrix (rotation c).

(** The outcome of a command, on a camera whose aspect is then set to [a]. *)
Definition then_aspect {A : Type} (a : float) (r : Res (A * (M7_Camera * list Call)))
  : Res (A * (M7_Camera * list Call)) :=
  match r with
  | Ok (x, (c, t)) => Ok (x, (set_aspect a c, t))
  | Err e => Err e
  end.

(** A command that does not read the aspect. *)
Definition aspect_blind {A : Type} (m : Cmd A) : Prop :=
  forall (a : float) (c : M7_Camera), m (set_aspect a c) = then_aspect a (m c).

(** What raylib hands out in the examples. *)
Definition demo_graphics : Graphics :=
  {| gfx_program :=
       {| shader := Shader.mk 3; locMapTex := 0; locMapSize := 1; locCamPos := 2;
          locCamRot := 3; locZoom := 4; locFOV := 5; locOffset := 6; locWrap := 7 |};
     gfx_framebuffer := 1; gfx_color := 4; gfx_depth := 5 |}.

(** The camera of the demo on a screen of 720 by 1280, higher than wide. *)
Definition portrait_camera : M7_Camera :=
  loaded_camera demo_graphics 720 1280 (Vector2.mk 0 0) 0 80 0.5 0.5 48.

(** The camera of the demo with a field of view of 0, as
    [M7_Camera_SetFOV] accepts it. *)
Definition flat_camera : M7_Camera :=
  loaded_camera demo_graphics 1280 720 (Vector2.mk 0 0) 0 80 0 0.5 48.

(** The sequence that the specification gives for [M7_Camera_Update]:
    begin, one plane with its origin at the centre of its footprint, end;
    each operation runs on the camera that the one before left, and the
    calls follow one another. *)
Definition Begin_DrawPlane_End `{LibC} (texture : Texture2D.t) (pos scale : Vector2.t)
    (wrap : Z) (backgroundColor : Color.t) : Cmd unit :=
  fun camera =>
    let origin :=
      Vector2.mk (IZR (Texture2D.width texture) * Vector2.x scale * 0.5)
                 (IZR (Texture2D.height texture) * Vector2.y scale * 0.5) in
    match M7_Camera_Begin backgroundColor camera with
    | Err e => Err e
    | Ok (_, (camera1, calls1)) =>
        match M7_Camera_DrawPlane texture pos origin scale wrap camera1 with
        | Err e => Err e
        | Ok (_, (camera2, calls2)) =>
            match M7_Camera_End camera2 with
            | Err e => Err e
            | Ok (_, (camera3, calls3)) => Ok (tt, (camera3, calls1 ++ calls2 ++ calls3))
            end
        end
    end.

(** A sprite of 16 by 32, twice as high as wide, at the origin of the world
    with scale (8, 8). *)
Definition tall_sprite : M7_ZBuffer_Element :=
  added_element
    (Add_Texture (Texture2D.mk 9 16 32 1 7) (Rectangle.mk 0 0 16 32)
       (Vector2.mk 0 0) (Vector2.mk 8 8) WHITE).

Definition RED : Color.t := Color.mk 230 41 55 255.
Definition YELLOW : Color.t := Color.mk 253 249 0 255.

(** The demo camera with room for two elements. *)
Definition small_camera : M7_Camera :=
  loaded_camera demo_graphics 1280 720 (Vector2.mk 0 0) 0 80 0.5 0.5 2.

(** An element of a given distance. *)
Definition at_distance (d : float) : M7_ZBuffer_Element :=
  {| onWorld := SpaceData_zero; onScreen := SpaceData_zero; texture := Texture2D_zero;
     distance := d; tint := WHITE; type := M7_ZBT_RECTANGLE |}.

(** A buffer of capacity 4 with three elements, of distances 3, 1 and 2. *)
Definition three_elements : M7_ZBuffer :=
  {| ptrElems := [Some 0%nat; Some 1%nat; Some 2%nat; None];
     elems := [Some (at_distance 3); Some (at_distance 1); Some (at_distance 2); None];
     maxCount := 4;
     count := 3 |}.

(** The direction of [M7_Camera_Move], m7.h lines 511-518: the difference
    of the keys on each axis, divided by its magnitude when it is not
    (0, 0). *)
Definition Move_direction (input : Input) : float * float :=
  let dx := keys (KEY_A input) (KEY_D input) in
  let dy := keys (KEY_W input) (KEY_S input) in
  if ftruth dx || ftruth dy
  then (dx / sqrt (dx * dx + dy * dy), dy / sqrt (dx * dx + dy * dy))
  else (dx, dy).

(** The square of the distance between two positions. *)
Definition distance2 (p q : Vector2.t) : float :=
  (Vector2.x q - Vector2.x p) * (Vector2.x q - Vector2.x p)
  + (Vector2.y q - Vector2.y p) * (Vector2.y q - Vector2.y p).

(** The rectangle and the circle of the demo ([main.c]). *)
Definition demo_rectangle : AddArgs := Add_Rectangle (Rectangle.mk 64 64 16 16) RED.
Definition demo_circle : AddArgs := Add_Circle (Vector2.mk (- 64) 64) 8 YELLOW.

(** The small camera after the rectangle was added. *)
Definition one_element_camera : M7_Camera :=
  set_buffer
    {| ptrElems := [Some 0%nat; None];
       elems := [Some (added_element demo_rectangle); None];
       maxCount := 2;
       count := 1 |}
    small_camera.

(** The small camera after the rectangle and the circle were added. *)
Definition two_elements_camera : M7_Camera :=
  set_buffer
    {| ptrElems := [Some 0%nat; Some 1%nat];
       elems := [Some (added_element demo_rectangle); Some (added_element demo_circle)];
       maxCount := 2;
       count := 2 |}
    small_camera.

(** ** The fragment shader of the plane *)

(** The uniforms of [M7_PlaneFragment], m7.h lines 48-57.  [camRot] holds
    the four floats of the [Matrix2x2] that [glUniformMatrix2fv] uploads
    without transposition (m7.h line 424): (m0, m1) is the first column of
    the [mat2] and (m2, m3) the second. *)
Module PlaneFragment.
Record t : Type := mk {
  mapSize : Vector2.t;
  camPos : Vector2.t;
  camRot : Matrix2x2;
  offset : float;
  zoom : float;
  fov : float;
  wrap : Z
}.
End PlaneFragment.

(** What the shader writes to [fragColor]: [vec4(0.0)] or the texel of the
    map at [uv]. *)
Inductive FragColor : Type :=
  | vec4_zero
  | texture_map (uv : Vector2.t).

(** [main] of [M7_PlaneFragment], m7.h lines 59-72.  The product of a
    [vec2] by a [mat2] on its right has for components the dot products of
    the vector with the columns of the matrix. *)
Definition M7_PlaneFragment (u : PlaneFragment.t) (fragTexCoord : Vector2.t) : Res FragColor :=
  k <- fdiv (PlaneFragment.zoom u) (PlaneFragment.fov u) ;;
  let vx := (0.5 - Vector2.x fragTexCoord) * PlaneFragment.zoom u in
  let vy := (PlaneFragment.offset u - Vector2.y fragTexCoord) * k in
  let uvx := vx * m0 (PlaneFragment.camRot u) + vy * m1 (PlaneFragment.camRot u) in
  let uvy := vx * m2 (PlaneFragment.camRot u) + vy * m3 (PlaneFragment.camRot u) in
  px <- fdiv uvx (Vector2.y fragTexCoord) ;;
  py <- fdiv uvy (Vector2.y fragTexCoord) ;;
  tx <- fdiv (px + Vector2.x (PlaneFragment.camPos u)) (Vector2.x (PlaneFragment.mapSize u)) ;;
  ty <- fdiv (py + Vector2.y (PlaneFragment.camPos u)) (Vector2.y (PlaneFragment.mapSize u)) ;;
  if (PlaneFragment.wrap u =? 0)%Z && (flt tx 0 || fgt tx 1 || flt ty 0 || fgt ty 1)
  then Ok vec4_zero
  else Ok (texture_map (Vector2.mk tx ty)).

(** The uniforms of the shader while [M7_Camera_DrawPlane] draws: the map
    size, the camera position and the wrap mode that it sends (m7.h lines
    361-373), and the rotation matrix, the offset, the zoom and the field of
    view that the setters of the camera sent (m7.h lines 424, 437, 453,
    469). *)
Definition plane_uniforms (camera : M7_Camera) (texture : Texture2D.t)
    (pos origin scale : Vector2.t) (wrap : Z) : PlaneFragment.t :=
  PlaneFragment.mk
    (Vector2.mk (IZR (Texture2D.width texture) * Vector2.x scale)
                (IZR (Texture2D.height texture) * Vector2.y scale))
    (Vector2.mk (Vector2.x (position camera) + Vector2.x pos + Vector2.x origin)
                (Vector2.y (position camera) + Vector2.y pos + Vector2.y origin))
    (rotMat camera) (offset camera) (zoom camera) (fov camera) wrap.

(** A texture coordinate outside the map. *)
Definition outside_map (uv : Vector2.t) : bool :=
  flt (Vector2.x uv) 0 || fgt (Vector2.x uv) 1 || flt (Vector2.y uv) 0 || fgt (Vector2.y uv) 1.

(** The keys A and W held during a frame of 1/60 s. *)
Definition keys_up_left : Input :=
  {| GetFrameTime := 1 / 60;
     KEY_A := true; KEY_D := false; KEY_W := true; KEY_S := false;
     KEY_RIGHT := false; KEY_LEFT := false; KEY_DOWN := false; KEY_UP := false;
     KEY_PAGE_DOWN := false; KEY_PAGE_UP := false;
     GetMouseWheelMove := 0 |}.

(** The small camera turned by one radian. *)
Definition turned_camera : M7_Camera :=
  set_rotMat (rotation_matrix (0 + 1)) (set_rotation (0 + 1) small_camera).

(** The divisors of a frame are not zero: for every registered element,
    the zoom (m7.h lines 539-540, 554), the distance of the element (lines
    550-551, 554) and the width and the height of its world rectangle
    (lines 760-761). *)
Definition divisors_not_zero (camera : M7_Camera) : Prop :=
  forall (j : nat) (elem : M7_ZBuffer_Element),
    (j < Z.to_nat (count (buffer camera)))%nat ->
    elems (buffer camera) !! j = Some (Some elem) ->
    zoom camera <> 0 /\
    ToScreen_distance camera (SpaceData.position (onWorld elem)) <> 0 /\
    Rectangle.width (SpaceData.rectangle (onWorld elem)) <> 0 /\
    Rectangle.height (SpaceData.rectangle (onWorld elem)) <> 0.

(** * Properties *)

(** ** Faults, divisions and comparisons *)

Lemma fdiv_Ok (a b : float) : b <> 0 -> fdiv a b = Ok (a / b).
Proof. intros Hb. unfold fdiv. destruct (Req_dec_T b 0); [contradiction | reflexivity]. Qed.

Lemma fdiv_zero (a : float) : fdiv a 0 = Err NonFinite.
Proof. unfold fdiv. destruct (Req_dec_T 0 0); [reflexivity | contradiction]. Qed.

Lemma fdiv_inv (a b q : float) : fdiv a b = Ok q -> b <> 0 /\ q = a / b.
Proof.
  unfold fdiv. destruct (Req_dec_T b 0); intros Hq; [discriminate | ].
  inversion Hq. split; [assumption | reflexivity].
Qed.

Lemma fdiv_Err (a b : float) (f : Fault) : fdiv a b = Err f -> b = 0 /\ f = NonFinite.
Proof.
  unfold fdiv. destruct (Req_dec_T b 0); intros Hq; [ | discriminate].
  inversion Hq. split; [assumption | reflexivity].
Qed.

Lemma fgt_true (a b : float) : fgt a b = true <-> b < a.
Proof. unfold fgt. destruct (Rlt_dec b a); split; intros; try assumption; try reflexivity; try discriminate; contradiction. Qed.

Lemma flt_true (a b : float) : flt a b = true <-> a < b.
Proof. unfold flt. destruct (Rlt_dec a b); split; intros; try assumption; try reflexivity; try discriminate; contradiction. Qed.

Lemma bind_Ok {A B : Type} (m : Res A) (k : A -> Res B) (b : B) :
  bind m k = Ok b -> exists a, m = Ok a /\ k a = Ok b.
Proof. destruct m as [a | f]; simpl; intros Hk; [exists a; split; [reflexivity | assumption] | discriminate]. Qed.

Lemma Vector2_eq (x y x' y' : float) :
  x = x' -> y = y' -> Vector2.mk x y = Vector2.mk x' y'.
Proof. intros -> ->. reflexivity. Qed.

Lemma Vector3_eq (x y z x' y' z' : float) :
  x = x' -> y = y' -> z = z' -> Vector3.mk x y z = Vector3.mk x' y' z'.
Proof. intros -> -> ->. reflexivity. Qed.

(** The sign test of [M7_ZBuffer_Element_Draw]: [(a > 0) == (b > 0)]. *)
Lemma eqb_fgt (a b : float) : eqb (fgt a 0) (fgt b 0) = true <-> (0 < a <-> 0 < b).
Proof.
  unfold fgt. destruct (Rlt_dec 0 a), (Rlt_dec 0 b); simpl; split; intros Hab;
    try reflexivity; try discriminate; try tauto.
Qed.

(** Rewrites the divisions of the goal whose divisors are known not to be zero. *)
Ltac fdiv_ok :=
  repeat match goal with
         | |- context [fdiv ?a ?b] => rewrite (fdiv_Ok a b) by (try assumption; try lra); simpl bind
         end.

(** ** The projective transform *)

(** The result of [M7_ToScreen] wherever its divisions are defined. *)
Lemma M7_ToScreen_Ok (camera : M7_Camera) (point : Vector2.t) :
  zoom camera <> 0 ->
  ToScreen_distance camera point <> 0 ->
  let width := Texture2D.width (RenderTexture.texture (target camera)) in
  let height := Texture2D.height (RenderTexture.texture (target camera)) in
  let d := ToScreen_distance camera point in
  M7_ToScreen camera point =
  Ok (Vector3.mk
        (ToScreen_spaceX camera point / d * offset camera * IZR width + IZR (width ÷ 2))
        ((ToScreen_spaceY camera point + offset camera - 1) / d * IZR height + IZR height)
        (offset camera * IZR width / (zoom camera * d))).
Proof.
  intros Hz Hd. unfold M7_ToScreen.
  rewrite !fdiv_Ok by assumption. simpl bind.
  fold (ToScreen_spaceY camera point). fold (ToScreen_distance camera point).
  fold (ToScreen_spaceX camera point).
  rewrite !fdiv_Ok by first [assumption | apply Rmult_integral_contrapositive; split; assumption].
  reflexivity.
Qed.

(** [M7_ToScreen] returns a result exactly when the zoom and the distance
    are not zero. *)
Lemma M7_ToScreen_Ok_inv (camera : M7_Camera) (point : Vector2.t) (v : Vector3.t) :
  M7_ToScreen camera point = Ok v ->
  zoom camera <> 0 /\ ToScreen_distance camera point <> 0.
Proof.
  unfold M7_ToScreen. intros Hv.
  apply bind_Ok in Hv as (objX & HobjX & Hv). apply fdiv_inv in HobjX as [Hz ->].
  apply bind_Ok in Hv as (objY & HobjY & Hv). apply fdiv_inv in HobjY as [_ ->].
  apply bind_Ok in Hv as (qX & HqX & Hv). apply fdiv_inv in HqX as [Hd _].
  split; assumption.
Qed.

Lemma M7_ToScreen_Err (camera : M7_Camera) (point : Vector2.t) (f : Fault) :
  M7_ToScreen camera point = Err f -> f = NonFinite.
Proof.
  unfold M7_ToScreen, bind. intros Hf.
  repeat match type of Hf with
         | match fdiv ?a ?b with _ => _ end = _ =>
             let E := fresh "E" in
             destruct (fdiv a b) eqn:E;
             [ | apply fdiv_Err in E as [_ ->]; congruence]
         end.
  discriminate.
Qed.

(** ** Loading *)

Lemma M7_Camera_Load_Ok g screenWidth screenHeight position rotation zoom fov offset maxSprites :
  Z.min screenWidth screenHeight <> 0%Z ->
  M7_Camera_Load g screenWidth screenHeight position rotation zoom fov offset maxSprites =
  Ok (loaded_camera g screenWidth screenHeight position rotation zoom fov offset maxSprites,
      loading_calls g rotation zoom fov offset).
Proof.
  intros Hmin. unfold M7_Camera_Load, loaded_camera, loading_calls.
  destruct (screenWidth >? screenHeight)%Z eqn:E.
  - assert (screenHeight < screenWidth)%Z as Hlt by lia.
    rewrite Z.max_l, Z.min_r by lia. rewrite Z.min_r in Hmin by lia.
    unfold andThen at 1. unfold lift.
    rewrite fdiv_Ok by (apply not_0_IZR; assumption).
    reflexivity.
  - assert (screenWidth <= screenHeight)%Z as Hle by lia.
    rewrite Z.max_r, Z.min_l by lia. rewrite Z.min_l in Hmin by lia.
    unfold andThen at 1. unfold lift.
    rewrite fdiv_Ok by (apply not_0_IZR; assumption).
    reflexivity.
Qed.

Lemma M7_Camera_Load_inv g screenWidth screenHeight position rotation zoom fov offset maxSprites
    camera t :
  M7_Camera_Load g screenWidth screenHeight position rotation zoom fov offset maxSprites
  = Ok (camera, t) ->
  Z.min screenWidth screenHeight <> 0%Z /\
  camera = loaded_camera g screenWidth screenHeight position rotation zoom fov offset maxSprites /\
  t = loading_calls g rotation zoom fov offset.
Proof.
  intros HL.
  assert (Z.min screenWidth screenHeight <> 0%Z) as Hmin.
  { intros Hmin. unfold M7_Camera_Load in HL.
    destruct (screenWidth >? screenHeight)%Z eqn:E.
    - rewrite Z.min_r in Hmin by lia. subst screenHeight.
      unfold andThen at 1 in HL. unfold lift in HL. rewrite fdiv_zero in HL. discriminate.
    - rewrite Z.min_l in Hmin by lia. subst screenWidth.
      unfold andThen at 1 in HL. unfold lift in HL. rewrite fdiv_zero in HL. discriminate. }
  rewrite M7_Camera_Load_Ok in HL by assumption. inversion HL. auto.
Qed.

(** The origin of the world on the demo camera. *)
Lemma demo_camera_origin (g : Graphics) (maxSprites : Z) :
  ToScreen_distance (demo_camera g maxSprites) (Vector2.mk 0 0) = 1 /\
  M7_ToScreen (demo_camera g maxSprites) (Vector2.mk 0 0)
  = Ok (Vector3.mk 640 ((0 + 0.5 - 1) / 1 * 720 + 720) 8).
Proof.
  assert (ToScreen_distance (demo_camera g maxSprites) (Vector2.mk 0 0) = 1) as Hd.
  { unfold ToScreen_distance, ToScreen_spaceY; simpl. rewrite sin_0, cos_0. lra. }
  split; [exact Hd | ].
  rewrite M7_ToScreen_Ok; [ | simpl; lra | rewrite Hd; lra ].
  rewrite Hd. unfold ToScreen_spaceX, ToScreen_spaceY; simpl.
  rewrite sin_0, cos_0.
  f_equal. apply Vector3_eq.
  + change (1280 ÷ 2)%Z with 640%Z. lra.
  + lra.
  + lra.
Qed.

(** C1.  Whenever [M7_ToScreen] returns a point, the zoom and the distance
    (one minus the rotated vertical coordinate scaled by the field of view)
    are not zero, and the apparent size returned is
    [offset * width / (zoom * distance)]; it does return a point whenever
    these two are not zero.  On the demo camera (position (0,0), rotation 0,
    zoom 80, fov 0.5, offset 0.5, target 1280 by 720) the world point (0,0)
    has distance 1 and goes to x = 640, y = ((0 + 0.5 - 1) / 1) * 720 + 720,
    with size 8. *)
Theorem M7_ToScreen_depth_and_size :
  (forall (camera : M7_Camera) (point : Vector2.t) (v : Vector3.t),
      M7_ToScreen camera point = Ok v ->
      let width := Texture2D.width (RenderTexture.texture (target camera)) in
      let height := Texture2D.height (RenderTexture.texture (target camera)) in
      let depth := ToScreen_distance camera point in
      depth = 1 - ToScreen_spaceY camera point /\
      zoom camera <> 0 /\ depth <> 0 /\
      Vector3.z v = offset camera * IZR width / (zoom camera * depth) /\
      Vector3.x v =
        ToScreen_spaceX camera point / depth * offset camera * IZR width + IZR (width ÷ 2) /\
      Vector3.y v =
        (ToScreen_spaceY camera point + offset camera - 1) / depth * IZR height + IZR height) /\
  (forall (camera : M7_Camera) (point : Vector2.t),
      zoom camera <> 0 -> ToScreen_distance camera point <> 0 ->
      exists v, M7_ToScreen camera point = Ok v) /\
  (forall (g : Graphics) (maxSprites : Z),
      M7_Camera_Load g 1280 720 (Vector2.mk 0 0) 0 80 0.5 0.5 maxSprites
      = Ok (demo_camera g maxSprites, loading_calls g 0 80 0.5 0.5) /\
      ToScreen_distance (demo_camera g maxSprites) (Vector2.mk 0 0) = 1 /\
      M7_ToScreen (demo_camera g maxSprites) (Vector2.mk 0 0)
      = Ok (Vector3.mk 640 ((0 + 0.5 - 1) / 1 * 720 + 720) 8)).
Proof.
  split; [ | split].
  - intros camera point v Hv width height depth.
    destruct (M7_ToScreen_Ok_inv _ _ _ Hv) as [Hz Hd].
    rewrite (M7_ToScreen_Ok camera point Hz Hd) in Hv. inversion Hv; subst v; simpl.
    repeat split; assumption.
  - intros camera point Hz Hd. eexists. apply M7_ToScreen_Ok; assumption.
  - intros g maxSprites.
    split; [apply M7_Camera_Load_Ok; vm_compute; discriminate | ].
    apply demo_camera_origin.
Qed.

(** The demo camera returns a point for the origin, with apparent size 8. *)
Lemma M7_ToScreen_depth_and_size_witness :
  exists v, M7_ToScreen (demo_camera (Build_Graphics M7_Camera_zero.(planeProgram) 1 1 2) 48)
              (Vector2.mk 0 0) = Ok v /\
            Vector3.z v = 0.5 * 1280 / (80 * 1).
Proof.
  pose (camera := demo_camera (Build_Graphics M7_Camera_zero.(planeProgram) 1 1 2) 48).
  assert (ToScreen_distance camera (Vector2.mk 0 0) = 1) as Hd.
  { unfold ToScreen_distance, ToScreen_spaceY; simpl. rewrite sin_0, cos_0. lra. }
  destruct (proj1 (proj2 M7_ToScreen_depth_and_size) camera (Vector2.mk 0 0)) as [v Hv].
  - simpl. lra.
  - rewrite Hd. lra.
  - exists v. split; [exact Hv | ].
    destruct (proj1 M7_ToScreen_depth_and_size camera (Vector2.mk 0 0) v Hv)
      as (_ & _ & _ & Hz & _).
    rewrite Hz, Hd. reflexivity.
Defined.

(** The result of [M7_ToWorld] wherever its divisions are defined. *)
Lemma M7_ToWorld_Ok (camera : M7_Camera) (point : Vector2.t) :
  aspect camera <> 0 -> fov camera <> 0 -> Vector2.y point <> 0 ->
  let width := Texture2D.width (RenderTexture.texture (target camera)) in
  let height := Texture2D.height (RenderTexture.texture (target camera)) in
  let sx := (IZR (width ÷ 2) - Vector2.x point) * (zoom camera / aspect camera) in
  let sy := (offset camera * IZR height - Vector2.y point) * (zoom camera / fov camera) in
  M7_ToWorld camera point =
  Ok (Vector2.mk
        ((sx * m0 (rotMat camera) + sy * m1 (rotMat camera)) / Vector2.y point
         + Vector2.x (position camera))
        ((sx * m2 (rotMat camera) + sy * m3 (rotMat camera)) / Vector2.y point
         + Vector2.y (position camera))).
Proof.
  intros Ha Hf Hy. unfold M7_ToWorld. fdiv_ok. reflexivity.
Qed.

(** [M7_ToWorld] divides by the aspect, by the field of view and by the
    vertical coordinate of the point: it has no result exactly when one of
    the three is zero, and no other fault can occur. *)
Lemma M7_ToWorld_Err (camera : M7_Camera) (point : Vector2.t) (f : Fault) :
  M7_ToWorld camera point = Err f <->
  f = NonFinite /\ (aspect camera = 0 \/ fov camera = 0 \/ Vector2.y point = 0).
Proof.
  split.
  - intros HE.
    assert (f = NonFinite) as ->.
    { unfold M7_ToWorld, bind in HE.
      repeat match type of HE with
             | match fdiv ?a ?b with _ => _ end = _ =>
                 let E := fresh "E" in
                 destruct (fdiv a b) eqn:E;
                 [ | apply fdiv_Err in E as [_ ->]; congruence]
             end.
      discriminate. }
    split; [reflexivity | ].
    destruct (Req_dec_T (aspect camera) 0) as [ | Ha]; [auto | ].
    destruct (Req_dec_T (fov camera) 0) as [ | Hf]; [auto | ].
    destruct (Req_dec_T (Vector2.y point) 0) as [ | Hy]; [auto | ].
    rewrite M7_ToWorld_Ok in HE by assumption. discriminate.
  - unfold M7_ToWorld. intros [-> [Ha | [Hf | Hy]]].
    + rewrite Ha, fdiv_zero. reflexivity.
    + rewrite Hf. destruct (fdiv (zoom camera) (aspect camera)) as [kx | e] eqn:E; simpl.
      * rewrite fdiv_zero. reflexivity.
      * apply fdiv_Err in E as [_ ->]. reflexivity.
    + rewrite Hy.
      destruct (fdiv (zoom camera) (aspect camera)) as [kx | e] eqn:E; simpl;
        [ | apply fdiv_Err in E as [_ ->]; reflexivity].
      destruct (fdiv (zoom camera) (fov camera)) as [ky | e] eqn:E'; simpl;
        [ | apply fdiv_Err in E' as [_ ->]; reflexivity].
      rewrite fdiv_zero. reflexivity.
Qed.

(** ** Commands *)

Lemma andThen_Ok {A B : Type} (m : Cmd A) (k : A -> Cmd B) c b c2 t :
  andThen m k c = Ok (b, (c2, t)) ->
  exists a c1 t1 t2,
    m c = Ok (a, (c1, t1)) /\ k a c1 = Ok (b, (c2, t2)) /\ t = t1 ++ t2.
Proof.
  unfold andThen. destruct (m c) as [[a [c1 t1]] | e]; [ | discriminate].
  destruct (k a c1) as [[b' [c2' t2]] | e] eqn:Hk; [ | discriminate].
  intros Heq. inversion Heq; subst. exists a, c1, t1, t2. auto.
Qed.

Lemma update_Ok (f : M7_Camera -> Res M7_Camera) c u c1 t :
  update f c = Ok (u, (c1, t)) -> f c = Ok c1 /\ t = [].
Proof.
  unfold update. destruct (f c); [ | discriminate].
  intros Heq. inversion Heq; subst. auto.
Qed.

Lemma lift_Ok {A : Type} (r : Res A) c a c1 t :
  lift r c = Ok (a, (c1, t)) -> r = Ok a /\ c1 = c /\ t = [].
Proof.
  unfold lift. destruct r; [ | discriminate].
  intros Heq. inversion Heq; subst. auto.
Qed.

(** ** Arrays *)

Lemma load_Ok {A : Type} (arr : list (option A)) (i : nat) (v : A) :
  load arr i = Ok v <-> arr !! i = Some (Some v).
Proof.
  unfold load. destruct (arr !! i) as [[w | ] | ]; split; intros Heq;
    try discriminate; inversion Heq; reflexivity.
Qed.

Lemma store_Ok {A : Type} (arr : list (option A)) (i : nat) (v : A) :
  (i < length arr)%nat -> store arr i v = Ok (<[i := Some v]> arr).
Proof.
  intros Hi. unfold store. destruct (Nat.ltb_spec i (length arr)); [reflexivity | lia].
Qed.

Lemma store_inv {A : Type} (arr arr' : list (option A)) (i : nat) (v : A) :
  store arr i v = Ok arr' -> (i < length arr)%nat /\ arr' = <[i := Some v]> arr.
Proof.
  unfold store. destruct (Nat.ltb_spec i (length arr)); intros Heq; [ | discriminate].
  inversion Heq. auto.
Qed.

(** ** The buffer stays well formed *)

Lemma wf_Load (K : Z) : (0 <= K < 2 ^ 32)%Z -> wf (M7_ZBuffer_Load K).
Proof.
  intros HK. unfold M7_ZBuffer_Load, wf.
  destruct (Z.gtb_spec K 0); simpl.
  - rewrite !length_replicate. repeat split; try lia. reflexivity.
  - assert (K = 0%Z) as -> by lia. simpl. repeat split; try lia. reflexivity.
Qed.

Lemma wf_Unload (b : M7_ZBuffer) : wf (M7_ZBuffer_Unload b).
Proof.
  unfold M7_ZBuffer_Unload, wf. simpl. repeat split; try lia. reflexivity.
Qed.

(** What an add does on a well-formed buffer: [NULL] and no change when the
    buffer is full; otherwise the element is copied into slot [count], whose
    address is returned and appended to the pointer array. *)
Lemma M7_ZBuffer_Element_Add_wf (b : M7_ZBuffer) (e : M7_ZBuffer_Element) :
  wf b ->
  (count b = maxCount b /\ M7_ZBuffer_Element_Add b e = Ok (None, b)) \/
  ((count b < maxCount b)%Z /\
   M7_ZBuffer_Element_Add b e =
   Ok (Some (Z.to_nat (count b)),
       {| ptrElems := <[Z.to_nat (count b) := Some (Z.to_nat (count b))]> (ptrElems b);
          elems := <[Z.to_nat (count b) := Some e]> (elems b);
          maxCount := maxCount b;
          count := (count b + 1)%Z |})).
Proof.
  intros (Hc & Hm & He & Hp & _). unfold M7_ZBuffer_Element_Add.
  destruct (Z.eqb_spec (count b) (maxCount b)) as [Heq | Hne].
  - left. auto.
  - right. split; [lia | ].
    rewrite store_Ok by lia. simpl. rewrite store_Ok by lia. simpl.
    unfold uint32_wrap. rewrite Z.mod_small by lia. reflexivity.
Qed.

Lemma wf_Add (b b' : M7_ZBuffer) (e : M7_ZBuffer_Element) (r : option ptr) :
  wf b -> M7_ZBuffer_Element_Add b e = Ok (r, b') -> wf b'.
Proof.
  intros Hwf Hadd.
  destruct (M7_ZBuffer_Element_Add_wf b e Hwf) as [[_ Hfull] | [Hlt Hroom]].
  - rewrite Hfull in Hadd. inversion Hadd; subst. assumption.
  - rewrite Hroom in Hadd. inversion Hadd; subst. clear Hadd Hroom.
    destruct Hwf as (Hc & Hm & He & Hp & Hw & Hperm).
    unfold wf; simpl. rewrite !length_insert.
    replace (Z.to_nat (count b + 1)) with (S (Z.to_nat (count b))) by lia.
    repeat split; try lia.
    + intros i Hi. destruct (decide (i = Z.to_nat (count b))) as [-> | Hne].
      * exists e. apply list_lookup_insert_eq. lia.
      * rewrite list_lookup_insert_ne by congruence. apply Hw. lia.
    + erewrite take_S_r by (apply list_lookup_insert_eq; lia).
      rewrite take_insert_ge by lia.
      rewrite seq_S, map_app. simpl.
      apply Permutation_app; [assumption | reflexivity].
Qed.

Lemma wf_set_elems (b : M7_ZBuffer) (es : list (option M7_ZBuffer_Element)) :
  wf b ->
  length es = length (elems b) ->
  (forall i e, elems b !! i = Some (Some e) -> exists e', es !! i = Some (Some e')) ->
  wf (set_elems es b).
Proof.
  intros (Hc & Hm & He & Hp & Hw & Hperm) Hlen Hkeep.
  unfold wf; simpl. repeat split; try lia; try assumption.
  intros i Hi. destruct (Hw i Hi) as [e Hi']. eapply Hkeep. exact Hi'.
Qed.

Lemma insert_keeps_written {A : Type} (arr : list (option A)) (p : nat) (v : A) :
  forall i e, arr !! i = Some (Some e) -> exists e', <[p := Some v]> arr !! i = Some (Some e').
Proof.
  intros i e Hi. destruct (decide (p = i)) as [-> | Hne].
  - exists v. apply list_lookup_insert_eq. eapply lookup_lt_Some. exact Hi.
  - exists e. rewrite list_lookup_insert_ne by assumption. exact Hi.
Qed.

(** ** Reading along the pointer array *)

(** [cells] succeeds exactly when the [n] cells from [i] on hold pointers
    to written slots; it returns these pointers with their elements. *)
Lemma cells_spec (b : M7_ZBuffer) (n i : nat) (cs : list (ptr * M7_ZBuffer_Element)) :
  cells b i n = Ok cs <->
  length cs = n /\
  map (fun c => Some (fst c)) cs = take n (drop i (ptrElems b)) /\
  Forall (fun c => elems b !! fst c = Some (Some (snd c))) cs.
Proof.
  revert i cs. induction n as [ | n IH]; intros i cs; simpl.
  - split.
    + intros Heq. inversion Heq. rewrite take_0. auto.
    + intros (Hlen & _ & _). destruct cs; [reflexivity | discriminate].
  - split.
    + intros Heq.
      apply bind_Ok in Heq as (p & Hp & Heq). apply load_Ok in Hp.
      apply bind_Ok in Heq as (e & He & Heq). apply load_Ok in He.
      apply bind_Ok in Heq as (rest & Hrest & Heq). inversion Heq; subst cs; clear Heq.
      apply IH in Hrest as (Hlen & Hmap & Hall). simpl.
      split; [lia | ]. split; [ | constructor; assumption].
      rewrite Hmap. rewrite (drop_S _ _ _ Hp). reflexivity.
    + intros (Hlen & Hmap & Hall).
      destruct cs as [ | [p e] cs]; [discriminate | ]. simpl in *.
      inversion Hall as [ | ? ? He Hall']; subst. simpl in He.
      destruct (drop i (ptrElems b)) as [ | q rest] eqn:Hdrop; [discriminate | ].
      simpl in Hmap. inversion Hmap as [[Hq Hmap']]. subst q.
      assert (ptrElems b !! i = Some (Some p)) as Hp.
      { rewrite <- (Nat.add_0_r i), <- lookup_drop, Hdrop. reflexivity. }
      rewrite (proj2 (load_Ok _ _ _) Hp). simpl.
      rewrite (proj2 (load_Ok _ _ _) He). simpl.
      assert (cells b (S i) n = Ok cs) as ->.
      { apply IH. split; [lia | ]. split; [ | assumption].
        rewrite Hmap'. rewrite (drop_S _ _ _ Hp) in Hdrop.
        inversion Hdrop. reflexivity. }
      reflexivity.
Qed.

Lemma pointers_with_elements (b : M7_ZBuffer) (l : list (option ptr)) :
  Forall (fun c => exists p e, c = Some p /\ elems b !! p = Some (Some e)) l ->
  exists cs : list (ptr * M7_ZBuffer_Element),
    map (fun c => Some (fst c)) cs = l /\
    Forall (fun c => elems b !! fst c = Some (Some (snd c))) cs.
Proof.
  induction 1 as [ | c l (p & e & -> & Hpe) _ (cs & <- & Hcs)].
  - exists []. split; [reflexivity | constructor].
  - exists ((p, e) :: cs). split; [reflexivity | constructor; assumption].
Qed.

(** On a well-formed buffer every pointer in use designates a written slot. *)
Lemma wf_cells (b : M7_ZBuffer) :
  wf b -> exists cs, cells b 0 (Z.to_nat (count b)) = Ok cs.
Proof.
  intros (Hc & Hm & He & Hp & Hw & Hperm).
  set (n := Z.to_nat (count b)) in *.
  assert (Forall (fun c => exists p e, c = Some p /\ elems b !! p = Some (Some e))
            (take n (ptrElems b))) as Hall.
  { rewrite Hperm. apply Forall_forall. intros c Hin.
    apply list_elem_of_In, in_map_iff in Hin as (p & <- & Hin).
    apply in_seq in Hin. destruct (Hw p) as [e Hpe]; [lia | ].
    exists p, e. auto. }
  assert (length (take n (ptrElems b)) = n) as Hlen by (rewrite length_take; lia).
  remember (take n (ptrElems b)) as l eqn:Hl.
  destruct (pointers_with_elements b l Hall) as (cs & Hmap & Hcs).
  exists cs. apply cells_spec. rewrite drop_0.
  split; [ | split; [ | assumption]].
  - rewrite <- Hlen, <- Hmap, length_map. reflexivity.
  - rewrite Hmap. exact Hl.
Qed.

(** The draw pass makes the calls of the elements in the order of the
    pointer array. *)
Lemma M7_ZBuffer_Draw_loop_cells (b : M7_ZBuffer) (n i : nat) :
  M7_ZBuffer_Draw_loop b i n =
  (cs <- cells b i n ;; Ok (concat (map (fun c => M7_ZBuffer_Element_Draw (snd c)) cs))).
Proof.
  revert i. induction n as [ | n IH]; intros i; simpl; [reflexivity | ].
  destruct (load (ptrElems b) i) as [p | f]; simpl; [ | reflexivity].
  destruct (load (elems b) p) as [e | f]; simpl; [ | reflexivity].
  rewrite IH. destruct (cells b (S i) n) as [cs | f]; reflexivity.
Qed.

Lemma M7_ZBuffer_Draw_cells (b : M7_ZBuffer) (cs : list (ptr * M7_ZBuffer_Element)) :
  cells b 0 (Z.to_nat (count b)) = Ok cs ->
  M7_ZBuffer_Draw b = Ok (concat (map (fun c => M7_ZBuffer_Element_Draw (snd c)) cs)).
Proof.
  intros Hcs. unfold M7_ZBuffer_Draw. rewrite M7_ZBuffer_Draw_loop_cells, Hcs. reflexivity.
Qed.

(** ** Sorting *)

Lemma M7_ZBuffer_Compare_le (e1 e2 : M7_ZBuffer_Element) :
  (M7_ZBuffer_Compare e1 e2 <= 0)%Z <-> distance e1 <= distance e2.
Proof.
  unfold M7_ZBuffer_Compare, fgt, flt, int_of_bool.
  destruct (Rlt_dec (distance e2) (distance e1)), (Rlt_dec (distance e1) (distance e2));
    split; intros; try lia; lra.
Qed.

(** The sign of the result, as the comment of the function states it. *)
Lemma M7_ZBuffer_Compare_sign (e1 e2 : M7_ZBuffer_Element) :
  (distance e1 < distance e2 -> M7_ZBuffer_Compare e1 e2 = (-1)%Z) /\
  (distance e1 = distance e2 -> M7_ZBuffer_Compare e1 e2 = 0%Z) /\
  (distance e1 > distance e2 -> M7_ZBuffer_Compare e1 e2 = 1%Z).
Proof.
  unfold M7_ZBuffer_Compare, fgt, flt, int_of_bool.
  destruct (Rlt_dec (distance e2) (distance e1)), (Rlt_dec (distance e1) (distance e2));
    repeat split; intros; try reflexivity; lra.
Qed.

Lemma M7_ZBuffer_Compare_consistent :
  consistent (fun a b : ptr * M7_ZBuffer_Element => M7_ZBuffer_Compare (snd a) (snd b)).
Proof.
  split.
  - intros a b. rewrite !M7_ZBuffer_Compare_le. lra.
  - intros a b c. rewrite !M7_ZBuffer_Compare_le. lra.
Qed.

Section Sorting.
Context `{LibC}.

(** What [M7_ZBuffer_Sort] does on a well-formed buffer: only the first
    [count] pointers move; read along them, the cells are those of before
    in the order [qsort] gives them. *)
Lemma M7_ZBuffer_Sort_wf (b : M7_ZBuffer) (cs : list (ptr * M7_ZBuffer_Element)) :
  wf b ->
  cells b 0 (Z.to_nat (count b)) = Ok cs ->
  let sorted := qsort (fun a b => M7_ZBuffer_Compare (snd a) (snd b)) cs in
  let b' := {| ptrElems := map (fun c => Some (fst c)) sorted
                           ++ drop (Z.to_nat (count b)) (ptrElems b);
               elems := elems b;
               maxCount := maxCount b;
               count := count b |} in
  M7_ZBuffer_Sort b = Ok b' /\
  cells b' 0 (Z.to_nat (count b')) = Ok sorted /\
  wf b'.
Proof.
  intros Hwf Hcs sorted b'.
  pose proof (qsort_Permutation _ (fun a b => M7_ZBuffer_Compare (snd a) (snd b)) cs) as Hperm.
  fold sorted in Hperm.
  apply cells_spec in Hcs as Hspec. destruct Hspec as (Hlen & Hmap & Hall).
  rewrite drop_0 in Hmap.
  assert (length sorted = Z.to_nat (count b)) as Hlen'.
  { rewrite (Permutation_length Hperm). exact Hlen. }
  split; [unfold M7_ZBuffer_Sort; rewrite Hcs; reflexivity | ].
  assert (take (Z.to_nat (count b)) (ptrElems b') = map (fun c => Some (fst c)) sorted) as Htake.
  { simpl. rewrite take_app_length'; [reflexivity | ]. rewrite length_map. symmetry. exact Hlen'. }
  split.
  - apply cells_spec. simpl count. split; [exact Hlen' | ]. split.
    + rewrite drop_0. symmetry. exact Htake.
    + simpl elems. rewrite Hperm. exact Hall.
  - destruct Hwf as (Hc & Hm & He & Hp & Hw & Hpm).
    unfold wf. simpl count. simpl maxCount. simpl elems.
    repeat split; try lia; try assumption.
    + simpl. rewrite length_app, length_map, length_drop. lia.
    + rewrite Htake, Hperm, Hmap. exact Hpm.
Qed.
End Sorting.


(** ** Insertion sort meets the contract of [qsort] *)

Lemma insert_sorted_Permutation {A : Type} (compar : A -> A -> Z) (a : A) (l : list A) :
  Permutation (insert_sorted compar a l) (a :: l).
Proof.
  induction l as [ | b l IH]; simpl; [reflexivity | ].
  destruct (compar a b <=? 0)%Z; [reflexivity | ].
  rewrite IH. apply perm_swap.
Qed.

Lemma insertion_sort_Permutation {A : Type} (compar : A -> A -> Z) (l : list A) :
  Permutation (insertion_sort compar l) l.
Proof.
  induction l as [ | a l IH]; simpl; [reflexivity | ].
  rewrite insert_sorted_Permutation. constructor. exact IH.
Qed.

Lemma insert_sorted_ascending {A : Type} (compar : A -> A -> Z) (a : A) (l : list A) :
  consistent compar ->
  StronglySorted (fun x y => (compar x y <= 0)%Z) l ->
  StronglySorted (fun x y => (compar x y <= 0)%Z) (insert_sorted compar a l).
Proof.
  intros [Htotal Htrans]. induction 1 as [ | b l Hsorted IH Hb]; simpl.
  - constructor; constructor.
  - destruct (Z.leb_spec (compar a b) 0) as [Hab | Hab].
    + constructor; [constructor; assumption | ].
      constructor; [assumption | ].
      eapply Forall_impl; [exact Hb | ]. intros x Hbx. simpl in Hbx. eauto.
    + constructor; [exact IH | ].
      rewrite insert_sorted_Permutation. constructor; [ | assumption].
      destruct (Htotal a b); [lia | assumption].
Qed.

Lemma insertion_sort_ascending {A : Type} (compar : A -> A -> Z) (l : list A) :
  consistent compar ->
  StronglySorted (fun x y => (compar x y <= 0)%Z) (insertion_sort compar l).
Proof.
  intros Hc. induction l as [ | a l IH]; simpl; [constructor | ].
  apply insert_sorted_ascending; assumption.
Qed.

#[local] Instance insertion_sort_LibC : LibC :=
  {| qsort := @insertion_sort;
     qsort_Permutation := @insertion_sort_Permutation;
     qsort_ascending := @insertion_sort_ascending |}.

(** ** The order of the draw pass *)

Lemma ascending_distinct (l : list R) :
  StronglySorted Rle l -> NoDup l -> StronglySorted Rlt l.
Proof.
  induction 1 as [ | a l Hsorted IH Ha]; intros Hnd; [constructor | ].
  apply NoDup_cons in Hnd as [Hnotin Hnd].
  constructor; [apply IH; exact Hnd | ].
  apply Forall_forall. intros x Hx.
  rewrite Forall_forall in Ha. specialize (Ha x Hx).
  destruct Ha as [Hlt | Heq]; [exact Hlt | ]. subst x. contradiction.
Qed.

Lemma StronglySorted_map {A B : Type} (f : A -> B) (R : B -> B -> Prop) (l : list A) :
  StronglySorted (fun x y => R (f x) (f y)) l -> StronglySorted R (map f l).
Proof.
  induction 1 as [ | a l Hsorted IH Ha]; simpl; constructor; [assumption | ].
  apply Forall_map. exact Ha.
Qed.

Lemma StronglySorted_weaken {A : Type} (R S : A -> A -> Prop) (l : list A) :
  (forall x y, R x y -> S x y) -> StronglySorted R l -> StronglySorted S l.
Proof.
  intros HRS. induction 1 as [ | a l Hsorted IH Ha]; constructor; [assumption | ].
  eapply Forall_impl; [exact Ha | ]. intros x. apply HRS.
Qed.

Section DrawOrder.
Context `{LibC}.

(** C3.  On a well-formed buffer (the buffer of every reachable camera is)
    whose registered elements have distinct distances, [M7_ZBuffer_Sort]
    returns; it leaves the backing array alone and permutes the pointers
    in use so that the [distance] fields read along the pointer array are
    non-decreasing (increasing, the distances being distinct); the draw
    pass that follows makes the calls of the elements in exactly that
    order. *)
Theorem M7_ZBuffer_Sort_ascending (b : M7_ZBuffer) (cs : list (ptr * M7_ZBuffer_Element)) :
  wf b ->
  cells b 0 (Z.to_nat (count b)) = Ok cs ->
  NoDup (distances cs) ->
  exists (b' : M7_ZBuffer) (cs' : list (ptr * M7_ZBuffer_Element)),
    M7_ZBuffer_Sort b = Ok b' /\
    elems b' = elems b /\ count b' = count b /\
    cells b' 0 (Z.to_nat (count b')) = Ok cs' /\
    Permutation cs' cs /\
    StronglySorted Rle (distances cs') /\
    StronglySorted Rlt (distances cs') /\
    M7_ZBuffer_Draw b' =
    Ok (concat (map (fun c => M7_ZBuffer_Element_Draw (snd c)) cs')).
Proof.
  intros Hwf Hcs Hnd.
  destruct (M7_ZBuffer_Sort_wf b cs Hwf Hcs) as (Hsort & Hcells & Hwf').
  set (sorted := qsort (fun a b => M7_ZBuffer_Compare (snd a) (snd b)) cs) in *.
  pose proof (qsort_Permutation _ (fun a b => M7_ZBuffer_Compare (snd a) (snd b)) cs)
    as Hperm.
  fold sorted in Hperm.
  assert (StronglySorted Rle (distances sorted)) as Hle.
  { unfold distances.
    apply (StronglySorted_map (fun c : ptr * M7_ZBuffer_Element => distance (snd c)) Rle).
    pose proof (qsort_ascending _ _ cs M7_ZBuffer_Compare_consistent) as Hs.
    fold sorted in Hs.
    eapply StronglySorted_weaken; [ | exact Hs].
    intros x y. simpl. apply M7_ZBuffer_Compare_le. }
  eexists; exists sorted. split; [exact Hsort | ].
  split; [reflexivity | ]. split; [reflexivity | ].
  split; [exact Hcells | ]. split; [exact Hperm | ].
  split; [exact Hle | ]. split.
  - apply ascending_distinct; [exact Hle | ].
    unfold distances. rewrite Hperm. exact Hnd.
  - apply M7_ZBuffer_Draw_cells. exact Hcells.
Qed.
End DrawOrder.

(** ** Updating the elements *)

Lemma M7_ToScreen_set_buffer (b : M7_ZBuffer) (camera : M7_Camera) (point : Vector2.t) :
  M7_ToScreen (set_buffer b camera) point = M7_ToScreen camera point.
Proof. reflexivity. Qed.

Lemma M7_ZBuffer_Element_Update_set_buffer b camera elem :
  M7_ZBuffer_Element_Update elem (set_buffer b camera) = M7_ZBuffer_Element_Update elem camera.
Proof. reflexivity. Qed.

(** The update of an element reads its world-space data only. *)
Lemma M7_ZBuffer_Element_Update_reads (e1 e2 : M7_ZBuffer_Element) (camera : M7_Camera) :
  onWorld e1 = onWorld e2 -> texture e1 = texture e2 -> tint e1 = tint e2 ->
  type e1 = type e2 ->
  M7_ZBuffer_Element_Update e1 camera = M7_ZBuffer_Element_Update e2 camera.
Proof.
  intros Hw Ht Hc Hy. unfold M7_ZBuffer_Element_Update. rewrite Hw, Ht, Hc, Hy. reflexivity.
Qed.

(** What [M7_ZBuffer_Element_Update] stores, given the point that
    [M7_ToScreen] returns for the world position of the element. *)
Lemma M7_ZBuffer_Element_Update_Ok_inv (elem elem' : M7_ZBuffer_Element) (camera : M7_Camera) :
  M7_ZBuffer_Element_Update elem camera = Ok elem' ->
  let w := Rectangle.width (SpaceData.rectangle (onWorld elem)) in
  let h := Rectangle.height (SpaceData.rectangle (onWorld elem)) in
  exists posAndSize,
    M7_ToScreen camera (SpaceData.position (onWorld elem)) = Ok posAndSize /\
    w <> 0 /\ h <> 0 /\
    let scaleX := Vector3.z posAndSize * Vector2.x (SpaceData.scale (onWorld elem)) / w in
    let scaleY := Vector3.z posAndSize * Vector2.y (SpaceData.scale (onWorld elem)) / h in
    elem' =
    {| onWorld := onWorld elem;
       onScreen :=
         SpaceData.mk
           (Rectangle.mk (Vector3.x posAndSize - (w * scaleX) * 0.5)
              (Vector3.y posAndSize - h * scaleY)
              (w * scaleX)
              (w * scaleY))
           (Vector2.mk (Vector3.x posAndSize) (Vector3.y posAndSize))
           (Vector2.mk scaleX scaleY);
       texture := texture elem;
       distance := Vector3.z posAndSize;
       tint := tint elem;
       type := type elem |}.
Proof.
  unfold M7_ZBuffer_Element_Update. intros Hu. cbv zeta.
  apply bind_Ok in Hu as (v & Hv & Hu).
  apply bind_Ok in Hu as (sx & Hsx & Hu). apply fdiv_inv in Hsx as [Hw ->].
  apply bind_Ok in Hu as (sy & Hsy & Hu). apply fdiv_inv in Hsy as [Hh ->].
  exists v. inversion Hu. auto.
Qed.

Lemma M7_ZBuffer_Element_Update_idempotent (elem elem' : M7_ZBuffer_Element) camera :
  M7_ZBuffer_Element_Update elem camera = Ok elem' ->
  M7_ZBuffer_Element_Update elem' camera = Ok elem'.
Proof.
  intros Hu. rewrite <- Hu.
  apply M7_ZBuffer_Element_Update_Ok_inv in Hu as (v & _ & _ & _ & ->).
  apply M7_ZBuffer_Element_Update_reads; reflexivity.
Qed.

Lemma set_elems_same (camera : M7_Camera) :
  set_buffer (set_elems (elems (buffer camera)) (buffer camera)) camera = camera.
Proof. destruct camera as [? ? [? ? ? ?] ? ? ? ? ? ? ?]. reflexivity. Qed.

(** The loop of [M7_ZBuffer_Update]: it touches the backing array only, at
    the slots that the pointers it visits designate, and leaves in each of
    these the update of the element that was there. *)
Lemma M7_ZBuffer_Update_loop_spec (camera0 : M7_Camera) (es0 : list (option M7_ZBuffer_Element)) :
  forall (n i : nat) (es1 : list (option M7_ZBuffer_Element)) (camera' : M7_Camera),
    length es1 = length es0 ->
    (forall j, es1 !! j = es0 !! j \/ updated_slot camera0 es0 es1 j) ->
    M7_ZBuffer_Update_loop i n (set_buffer (set_elems es1 (buffer camera0)) camera0)
    = Ok camera' ->
    exists es,
      camera' = set_buffer (set_elems es (buffer camera0)) camera0 /\
      length es = length es0 /\
      (forall j, es !! j = es0 !! j \/ updated_slot camera0 es0 es j) /\
      (forall j, updated_slot camera0 es0 es1 j -> updated_slot camera0 es0 es j) /\
      (forall k p, (i <= k < i + n)%nat -> ptrElems (buffer camera0) !! k = Some (Some p) ->
                   updated_slot camera0 es0 es p) /\
      (forall j, (forall k, (i <= k < i + n)%nat ->
                            ptrElems (buffer camera0) !! k <> Some (Some j)) ->
                 es !! j = es1 !! j).
Proof.
  induction n as [ | n IH]; intros i es1 camera' Hlen Hinv Hloop.
  - simpl in Hloop. inversion Hloop; subst camera'. exists es1.
    repeat split; auto. intros k p Hk. lia.
  - simpl in Hloop.
    apply bind_Ok in Hloop as (p & Hp & Hloop). apply load_Ok in Hp.
    apply bind_Ok in Hloop as (elem & Helem & Hloop). apply load_Ok in Helem.
    apply bind_Ok in Hloop as (elem1 & Helem1 & Hloop).
    rewrite M7_ZBuffer_Element_Update_set_buffer in Helem1.
    apply bind_Ok in Hloop as (elems1 & Hstore & Hloop).
    apply store_inv in Hstore as [Hlt ->].
    assert (updated_slot camera0 es0 (<[p := Some elem1]> es1) p) as Hup.
    { destruct (Hinv p) as [Hsame | (e0 & e0' & H0 & Hu0 & H1)].
      - exists elem, elem1. rewrite <- Hsame. split; [exact Helem | ].
        split; [exact Helem1 | ]. apply list_lookup_insert_eq. exact Hlt.
      - rewrite H1 in Helem. inversion Helem; subst elem.
        rewrite (M7_ZBuffer_Element_Update_idempotent _ _ _ Hu0) in Helem1.
        inversion Helem1; subst elem1.
        exists e0, e0'. split; [exact H0 | ]. split; [exact Hu0 | ].
        apply list_lookup_insert_eq. exact Hlt. }
    assert (forall j, updated_slot camera0 es0 es1 j ->
                      updated_slot camera0 es0 (<[p := Some elem1]> es1) j) as Hmono.
    { intros j Hj. destruct (decide (j = p)) as [-> | Hne]; [exact Hup | ].
      destruct Hj as (e0 & e0' & H0 & Hu0 & H1). exists e0, e0'.
      rewrite list_lookup_insert_ne by congruence. auto. }
    apply (IH (S i) (<[p := Some elem1]> es1)) in Hloop
      as (es & -> & Hlen' & Hinv' & Hmono' & Hvisited & Hother).
    + exists es. split; [reflexivity | ]. split; [exact Hlen' | ].
      split; [exact Hinv' | ]. split; [auto | ]. split.
      * intros k q Hk Hq. destruct (decide (k = i)) as [Heq | Hne].
        -- rewrite Heq in Hq. pose proof (eq_trans (eq_sym Hq) Hp) as Hqp.
           inversion Hqp; subst q. apply Hmono'. exact Hup.
        -- apply (Hvisited k q); [lia | exact Hq].
      * intros j Hj. rewrite Hother by (intros k Hk; apply Hj; lia).
        apply list_lookup_insert_ne. intros ->. apply (Hj i); [lia | exact Hp].
    + rewrite length_insert. exact Hlen.
    + intros j. destruct (decide (j = p)) as [-> | Hne]; [right; exact Hup | ].
      destruct (Hinv j) as [Hsame | Hj]; [left | right; apply Hmono; exact Hj].
      rewrite list_lookup_insert_ne by congruence. exact Hsame.
Qed.

(** [M7_ZBuffer_Update] on a well-formed buffer: every registered element
    is replaced by its update; nothing else changes. *)
Lemma M7_ZBuffer_Update_spec (camera camera' : M7_Camera) :
  wf (buffer camera) ->
  M7_ZBuffer_Update camera = Ok camera' ->
  exists es,
    camera' = set_buffer (set_elems es (buffer camera)) camera /\
    length es = length (elems (buffer camera)) /\
    (forall j, (j < Z.to_nat (count (buffer camera)))%nat ->
               updated_slot camera (elems (buffer camera)) es j) /\
    (forall j, (Z.to_nat (count (buffer camera)) <= j)%nat ->
               es !! j = elems (buffer camera) !! j).
Proof.
  intros Hwf Hu. unfold M7_ZBuffer_Update in Hu.
  rewrite <- (set_elems_same camera) in Hu at 2.
  apply (M7_ZBuffer_Update_loop_spec camera (elems (buffer camera))) in Hu
    as (es & -> & Hlen & Hinv & _ & Hvisited & Hother); [ | reflexivity | auto].
  destruct Hwf as (Hc & Hm & He & Hp & Hw & Hperm).
  set (n := Z.to_nat (count (buffer camera))) in *.
  exists es. split; [reflexivity | ]. split; [exact Hlen | ]. split.
  - intros j Hj.
    assert (Some j ∈ take n (ptrElems (buffer camera))) as Hin.
    { rewrite Hperm. apply list_elem_of_fmap. exists j. split; [reflexivity | ].
      apply list_elem_of_In, in_seq. lia. }
    apply list_elem_of_lookup in Hin as [k Hk].
    apply lookup_take_Some in Hk as [Hk Hkn].
    apply (Hvisited k j); [lia | exact Hk].
  - intros j Hj. apply Hother. intros k Hk Hkj.
    assert (Some j ∈ take n (ptrElems (buffer camera))) as Hin.
    { apply list_elem_of_lookup. exists k. apply lookup_take_Some. split; [exact Hkj | lia]. }
    rewrite Hperm in Hin. apply list_elem_of_fmap in Hin as (j' & Hj' & Hin).
    inversion Hj'; subst j'. apply list_elem_of_In, in_seq in Hin. lia.
Qed.

Lemma M7_ZBuffer_Update_frame (camera camera' : M7_Camera) :
  M7_ZBuffer_Update camera = Ok camera' ->
  exists es,
    camera' = set_buffer (set_elems es (buffer camera)) camera /\
    length es = length (elems (buffer camera)) /\
    (forall j e, elems (buffer camera) !! j = Some (Some e) ->
                 exists e', es !! j = Some (Some e')).
Proof.
  intros Hu. unfold M7_ZBuffer_Update in Hu.
  rewrite <- (set_elems_same camera) in Hu at 2.
  apply (M7_ZBuffer_Update_loop_spec camera (elems (buffer camera))) in Hu
    as (es & -> & Hlen & Hinv & _); [ | reflexivity | auto].
  exists es. split; [reflexivity | ]. split; [exact Hlen | ].
  intros j e Hj. destruct (Hinv j) as [Hsame | (e0 & e0' & _ & _ & H1)].
  - exists e. rewrite Hsame. exact Hj.
  - exists e0'. exact H1.
Qed.

(** ** One operation *)

Lemma M7_Camera_Move_inv (input : Input) (speed : float) c u c' t :
  M7_Camera_Move input speed c = Ok (u, (c', t)) ->
  same_view c c' /\ rotMat_ok c' /\ buffer c' = buffer c /\
  rotation c' = rotation c + keys (KEY_RIGHT input) (KEY_LEFT input) * GetFrameTime input.
Proof.
  unfold M7_Camera_Move. intros Hm.
  apply andThen_Ok in Hm as (d & c1 & t1 & t2 & Hd & Hm & _).
  apply lift_Ok in Hd as (_ & -> & _).
  cbv [andThen M7_Camera_Translate M7_Camera_Rotate M7_Camera_SetFOV M7_Camera_SetZoom
         M7_Camera_SetOffset M7_Camera_SetPosition M7_Camera_SetRotation get modify call] in Hm.
  inversion Hm; subst. unfold same_view, rotMat_ok. simpl. auto.
Qed.

(** [M7_Camera_Move] never divides by zero: the magnitude it divides by is
    positive whenever a direction key is down. *)
Lemma M7_Camera_Move_total (input : Input) (speed : float) (c : M7_Camera) :
  exists c' t, M7_Camera_Move input speed c = Ok (tt, (c', t)).
Proof.
  unfold M7_Camera_Move.
  set (dx := keys (KEY_A input) (KEY_D input)).
  set (dy := keys (KEY_W input) (KEY_S input)).
  assert (exists d, (if ftruth dx || ftruth dy
                     then
                       dx1 <- fdiv dx (sqrt (dx * dx + dy * dy)) ;;
                       dy1 <- fdiv dy (sqrt (dx * dx + dy * dy)) ;;
                       Ok (dx1, dy1)
                     else Ok (dx, dy)) = Ok d) as [d Hd].
  { destruct (ftruth dx || ftruth dy) eqn:E; [ | eexists; reflexivity].
    assert (sqrt (dx * dx + dy * dy) <> 0) as Hmag.
    { intros H0. apply sqrt_eq_0 in H0; [ | nra].
      assert (dx = 0 /\ dy = 0) as [Hx Hy] by (split; nra).
      unfold ftruth in E. rewrite Hx, Hy in E.
      destruct (Req_dec_T 0 0); [discriminate | contradiction]. }
    rewrite !fdiv_Ok by exact Hmag. simpl. eexists; reflexivity. }
  unfold andThen at 1. unfold lift. rewrite Hd.
  cbv [andThen M7_Camera_Translate M7_Camera_Rotate M7_Camera_SetFOV M7_Camera_SetZoom
         M7_Camera_SetOffset M7_Camera_SetPosition M7_Camera_SetRotation get modify call].
  eexists; eexists; reflexivity.
Qed.

Lemma add_inv (elem : M7_ZBuffer_Element) c r c' t :
  add elem c = Ok (r, (c', t)) ->
  exists b', M7_ZBuffer_Element_Add (buffer c) elem = Ok (r, b') /\
             c' = set_buffer b' c /\ t = [].
Proof.
  unfold add. cbv [andThen get]. unfold lift.
  destruct (M7_ZBuffer_Element_Add (buffer c) elem) as [[r' b'] | e]; [ | discriminate].
  cbv [modify ret]. simpl. intros Heq. inversion Heq; subst. exists b'. auto.
Qed.

Lemma do_add_add (a : AddArgs) : do_add a = add (added_element a).
Proof. destruct a; reflexivity. Qed.

Lemma write_onWorld_inv (p : ptr) (w : SpaceData.t) c u c' t :
  write_onWorld p w c = Ok (u, (c', t)) ->
  exists elem,
    elems (buffer c) !! p = Some (Some elem) /\
    c' = set_buffer
           (set_elems
              (<[p := Some {| onWorld := w; onScreen := onScreen elem;
                              texture := texture elem; distance := distance elem;
                              tint := tint elem; type := type elem |}]>
                 (elems (buffer c)))
              (buffer c)) c /\
    t = [].
Proof.
  unfold write_onWorld. intros Hw. apply update_Ok in Hw as [Hw ->].
  apply bind_Ok in Hw as (elem & Helem & Hw). apply load_Ok in Helem.
  apply bind_Ok in Hw as (es & Hes & Hw). apply store_inv in Hes as [_ ->].
  inversion Hw. exists elem. auto.
Qed.

Lemma step_inv_intro (c c' : M7_Camera) :
  aspect c' = aspect c ->
  Texture2D.width (RenderTexture.texture (target c'))
  = Texture2D.width (RenderTexture.texture (target c)) ->
  Texture2D.height (RenderTexture.texture (target c'))
  = Texture2D.height (RenderTexture.texture (target c)) ->
  (rotMat c' = rotMat c /\ rotation c' = rotation c) \/ rotMat_ok c' ->
  (wf (buffer c) -> wf (buffer c')) ->
  same_view c c' /\
  ((rotMat c' = rotMat c /\ rotation c' = rotation c) \/ rotMat_ok c') /\
  (wf (buffer c) -> wf (buffer c')).
Proof. unfold same_view. auto. Qed.

Section Steps.
Context `{LibC}.

Lemma M7_ZBuffer_Sort_frame (b b' : M7_ZBuffer) :
  M7_ZBuffer_Sort b = Ok b' ->
  elems b' = elems b /\ maxCount b' = maxCount b /\ count b' = count b.
Proof.
  unfold M7_ZBuffer_Sort. intros Hs. apply bind_Ok in Hs as (cs & _ & Hs).
  inversion Hs. auto.
Qed.

Lemma wf_Sort (b b' : M7_ZBuffer) : wf b -> M7_ZBuffer_Sort b = Ok b' -> wf b'.
Proof.
  intros Hwf Hs. destruct (wf_cells b Hwf) as [cs Hcs].
  destruct (M7_ZBuffer_Sort_wf b cs Hwf Hcs) as (Hs' & _ & Hwf').
  rewrite Hs' in Hs. inversion Hs; subst b'. exact Hwf'.
Qed.

(** The three stages of [M7_Camera_End]. *)
Lemma M7_Camera_End_inv c u c' t :
  M7_Camera_End c = Ok (u, (c', t)) ->
  exists c1 b2 draws,
    M7_ZBuffer_Update c = Ok c1 /\
    M7_ZBuffer_Sort (buffer c1) = Ok b2 /\
    c' = set_buffer b2 c1 /\
    M7_ZBuffer_Draw b2 = Ok draws /\
    t = draws ++ [EndTextureMode].
Proof.
  unfold M7_Camera_End. intros He.
  apply andThen_Ok in He as (u1 & c1 & t1 & t1' & Hu & He & ->).
  apply update_Ok in Hu as [Hu ->].
  apply andThen_Ok in He as (u2 & c2 & t2 & t2' & Hs & He & ->).
  apply update_Ok in Hs as [Hs ->].
  apply bind_Ok in Hs as (b2 & Hs & Hc2). inversion Hc2; subst c2; clear Hc2.
  cbv [andThen get] in He. unfold lift in He. simpl buffer in He.
  destruct (M7_ZBuffer_Draw b2) as [draws | e] eqn:Hd; [ | discriminate].
  cbv [calls call] in He. inversion He; subst.
  exists c1, b2, draws. simpl. repeat split; auto.
Qed.

Lemma M7_Camera_End_step c u c' t :
  M7_Camera_End c = Ok (u, (c', t)) ->
  same_view c c' /\ rotMat c' = rotMat c /\ rotation c' = rotation c /\
  (wf (buffer c) -> wf (buffer c')).
Proof.
  intros He. apply M7_Camera_End_inv in He as (c1 & b2 & draws & Hu & Hs & -> & _ & _).
  apply M7_ZBuffer_Update_frame in Hu as (es & -> & Hlen & Hkeep).
  split; [unfold same_view; simpl; auto | ].
  split; [reflexivity | ]. split; [reflexivity | ].
  intros Hwf. refine (wf_Sort _ _ _ Hs). simpl.
  apply wf_set_elems; assumption.
Qed.

(** Every operation keeps the aspect and the size of the target; it leaves
    the rotation and its matrix alone or sets the matrix from the new
    rotation; it keeps the buffer well formed. *)
Lemma step_inv (op : Op) c r c' t :
  step op c = Ok (r, (c', t)) ->
  same_view c c' /\
  ((rotMat c' = rotMat c /\ rotation c' = rotation c) \/ rotMat_ok c') /\
  (wf (buffer c) -> wf (buffer c')).
Proof.
  destruct op; simpl; unfold no_ptr; intros Hs.
  all: try (cbv [andThen ret get modify call M7_Camera_Unload M7_Camera_Begin
                   M7_Camera_DrawPlane M7_Camera_Render M7_Camera_SetPosition
                   M7_Camera_SetRotation M7_Camera_SetZoom M7_Camera_SetFOV
                   M7_Camera_SetOffset M7_Camera_Translate M7_Camera_Rotate] in Hs;
            inversion Hs; subst; apply step_inv_intro; unfold rotMat_ok; simpl;
            auto using wf_Unload; fail).
  - (* M7_Camera_Update *)
    apply andThen_Ok in Hs as (u & c1 & t1 & t2 & Hu & Hr & _).
    inversion Hr; subst; clear Hr.
    unfold M7_Camera_Update in Hu.
    apply andThen_Ok in Hu as (u1 & c1 & t1' & t2' & Hb & Hu & _).
    cbv [andThen get call M7_Camera_Begin] in Hb. inversion Hb; subst; clear Hb.
    apply andThen_Ok in Hu as (u2 & c2 & t1'' & t2'' & Hd & Hu & _).
    cbv [andThen get call M7_Camera_DrawPlane] in Hd. inversion Hd; subst; clear Hd.
    apply M7_Camera_End_step in Hu as (Hv & Hm & Hr & Hw). auto.
  - (* M7_Camera_End *)
    apply andThen_Ok in Hs as (u & c1 & t1 & t2 & Hu & Hr & _).
    inversion Hr; subst; clear Hr.
    apply M7_Camera_End_step in Hu as (Hv & Hm & Hr & Hw). auto.
  - (* M7_Camera_Move *)
    apply andThen_Ok in Hs as (u & c1 & t1 & t2 & Hu & Hr & _).
    inversion Hr; subst; clear Hr.
    apply M7_Camera_Move_inv in Hu as (Hv & Hm & Hb & _).
    rewrite Hb. auto.
  - (* the adds *)
    rewrite do_add_add in Hs. apply add_inv in Hs as (b' & Ha & -> & _).
    apply step_inv_intro; unfold rotMat_ok; simpl; auto.
    intros Hwf. eapply wf_Add; eassumption.
  - (* a write through a pointer *)
    apply andThen_Ok in Hs as (u & c1 & t1 & t2 & Hu & Hr & _).
    inversion Hr; subst; clear Hr.
    apply write_onWorld_inv in Hu as (elem & Helem & -> & _).
    apply step_inv_intro; unfold rotMat_ok; simpl; auto.
    intros Hwf. apply wf_set_elems; [exact Hwf | apply length_insert | ].
    apply insert_keeps_written.
Qed.

(** What holds of every camera that a program can hold. *)
Lemma reachable_inv (camera : M7_Camera) :
  reachable camera ->
  rotMat_ok camera /\ wf (buffer camera) /\
  let width := Texture2D.width (RenderTexture.texture (target camera)) in
  let height := Texture2D.height (RenderTexture.texture (target camera)) in
  Z.min width height <> 0%Z /\
  aspect camera = IZR (Z.max width height) / IZR (Z.min width height).
Proof.
  induction 1 as [g w h pos rot z f o K camera t HL
                 | camera op r camera' t Hreach IH Hstep].
  - apply M7_Camera_Load_inv in HL as (Hmin & -> & _).
    split; [reflexivity | ]. split; [ | simpl; auto].
    apply wf_Load. unfold uint32_wrap. apply Z.mod_pos_bound. lia.
  - destruct IH as (Hrot & Hwf & Hmin & Hasp).
    apply step_inv in Hstep as ((Ha & Hw & Hh) & Hrot' & Hwf').
    simpl. rewrite Ha, Hw, Hh. split; [ | auto].
    destruct Hrot' as [[Hm Hr] | Hok]; [ | exact Hok].
    unfold rotMat_ok. rewrite Hm, Hr. exact Hrot.
Qed.
End Steps.

(** ** The rotation and its matrix *)

Section Rotation.
Context `{LibC}.

(** C6.  In every reachable camera the cached matrix is
    (cos t, - sin t, sin t, cos t) for the rotation t of the camera.
    [M7_Camera_SetRotation] stores the angle and the matrix of that angle
    and sends this matrix to the shader; [M7_Camera_Rotate] is
    [M7_Camera_SetRotation] at the sum; and every operation either leaves
    both the rotation and the matrix as they are or leaves the matrix of
    the new rotation: the matrix cannot be set apart from the angle. *)
Theorem rotMat_follows_rotation :
  (forall camera : M7_Camera,
      reachable camera ->
      rotMat camera =
      {| m0 := cos (rotation camera); m1 := - sin (rotation camera);
         m2 := sin (rotation camera); m3 := cos (rotation camera) |}) /\
  (forall (theta : float) (camera : M7_Camera),
      exists camera',
        M7_Camera_SetRotation theta camera =
        Ok (tt, (camera',
                 [glUseProgram (Shader.id (shader (planeProgram camera)));
                  glUniformMatrix2fv (locCamRot (planeProgram camera)) 1 false
                    {| m0 := cos theta; m1 := - sin theta;
                       m2 := sin theta; m3 := cos theta |}])) /\
        rotation camera' = theta /\
        rotMat camera' =
        {| m0 := cos theta; m1 := - sin theta; m2 := sin theta; m3 := cos theta |}) /\
  (forall (delta : float) (camera : M7_Camera),
      M7_Camera_Rotate delta camera
      = M7_Camera_SetRotation (rotation camera + delta) camera) /\
  (forall (op : Op) camera r camera' t,
      step op camera = Ok (r, (camera', t)) ->
      (rotMat camera' = rotMat camera /\ rotation camera' = rotation camera) \/
      rotMat camera' = rotation_matrix (rotation camera')).
Proof.
  split; [ | split; [ | split]].
  - intros camera Hreach. apply reachable_inv in Hreach as (Hrot & _). exact Hrot.
  - intros theta camera. eexists. split; [reflexivity | ]. split; reflexivity.
  - intros delta camera. reflexivity.
  - intros op camera r camera' t Hstep.
    apply step_inv in Hstep as (_ & Hrot & _). exact Hrot.
Qed.
End Rotation.

(** ** The aspect *)

Lemma M7_ToScreen_set_aspect (a : float) (camera : M7_Camera) (point : Vector2.t) :
  M7_ToScreen (set_aspect a camera) point = M7_ToScreen camera point.
Proof. reflexivity. Qed.

Lemma M7_ZBuffer_Update_loop_set_aspect (a : float) :
  forall (n i : nat) (camera : M7_Camera),
    M7_ZBuffer_Update_loop i n (set_aspect a camera) =
    match M7_ZBuffer_Update_loop i n camera with
    | Ok c => Ok (set_aspect a c)
    | Err e => Err e
    end.
Proof.
  induction n as [ | n IH]; intros i camera; simpl; [reflexivity | ].
  destruct (load (ptrElems (buffer camera)) i) as [p | e]; simpl; [ | reflexivity].
  destruct (load (elems (buffer camera)) p) as [elem | e]; simpl; [ | reflexivity].
  change (M7_ZBuffer_Element_Update elem (set_aspect a camera))
    with (M7_ZBuffer_Element_Update elem camera).
  destruct (M7_ZBuffer_Element_Update elem camera) as [elem1 | e]; simpl; [ | reflexivity].
  destruct (store (elems (buffer camera)) p elem1) as [elems1 | e]; simpl; [ | reflexivity].
  apply (IH (S i) (set_buffer (set_elems elems1 (buffer camera)) camera)).
Qed.

Lemma aspect_blind_andThen {A B : Type} (m : Cmd A) (k : A -> Cmd B) :
  aspect_blind m -> (forall x, aspect_blind (k x)) -> aspect_blind (andThen m k).
Proof.
  intros Hm Hk a c. unfold andThen. rewrite Hm.
  destruct (m c) as [[x [c1 t1]] | e]; simpl; [ | reflexivity].
  rewrite Hk. destruct (k x c1) as [[y [c2 t2]] | e]; reflexivity.
Qed.

Lemma aspect_blind_ret {A : Type} (x : A) : aspect_blind (ret x).
Proof. intros a c. reflexivity. Qed.

Lemma aspect_blind_M7_ZBuffer_Update : aspect_blind (update M7_ZBuffer_Update).
Proof.
  intros a c. unfold update, M7_ZBuffer_Update. simpl buffer.
  rewrite M7_ZBuffer_Update_loop_set_aspect.
  destruct (M7_ZBuffer_Update_loop 0 (Z.to_nat (count (buffer c))) c); reflexivity.
Qed.

Lemma aspect_blind_add (elem : M7_ZBuffer_Element) : aspect_blind (add elem).
Proof.
  intros a c. unfold add. cbv [andThen get]. unfold lift. simpl buffer.
  destruct (M7_ZBuffer_Element_Add (buffer c) elem) as [[r b] | e]; reflexivity.
Qed.

Lemma aspect_blind_write_onWorld (p : ptr) (w : SpaceData.t) :
  aspect_blind (write_onWorld p w).
Proof.
  intros a c. unfold write_onWorld, update. simpl buffer.
  destruct (load (elems (buffer c)) p) as [elem | e]; simpl bind; [ | reflexivity].
  match goal with
  | |- context [store ?l ?i ?v] => destruct (store l i v) as [es | e]
  end; reflexivity.
Qed.

Lemma aspect_blind_M7_Camera_Move (input : Input) (speed : float) :
  aspect_blind (M7_Camera_Move input speed).
Proof.
  unfold M7_Camera_Move. apply aspect_blind_andThen.
  - intros a c. unfold lift.
    match goal with
    | |- context [if ?b then ?x else ?y] => destruct (if b then x else y) as [d | e]
    end; reflexivity.
  - intros d a c. reflexivity.
Qed.

Section Aspect.
Context `{LibC}.

Lemma aspect_blind_M7_Camera_End : aspect_blind M7_Camera_End.
Proof.
  unfold M7_Camera_End.
  apply aspect_blind_andThen; [apply aspect_blind_M7_ZBuffer_Update | intros _].
  apply aspect_blind_andThen; [ | intros _].
  - intros a c. unfold update. simpl buffer.
    destruct (M7_ZBuffer_Sort (buffer c)); reflexivity.
  - intros a c. cbv [andThen get]. unfold lift. simpl buffer.
    destruct (M7_ZBuffer_Draw (buffer c)); reflexivity.
Qed.

(** No operation reads the aspect: on a camera with another aspect it
    makes the same calls, returns the same pointer and leaves the same
    camera, the other aspect apart. *)
Lemma step_set_aspect (op : Op) : aspect_blind (step op).
Proof.
  destruct op; simpl; unfold no_ptr;
    try (apply aspect_blind_andThen; [ | intros; apply aspect_blind_ret]);
    try (intros a' c; reflexivity).
  - (* M7_Camera_Update *)
    unfold M7_Camera_Update.
    apply aspect_blind_andThen; [intros a' c; reflexivity | intros _].
    apply aspect_blind_andThen; [intros a' c; reflexivity | intros _].
    apply aspect_blind_M7_Camera_End.
  - apply aspect_blind_M7_Camera_End.
  - apply aspect_blind_M7_Camera_Move.
  - rewrite do_add_add. apply aspect_blind_add.
  - apply aspect_blind_write_onWorld.
Qed.

(** C10.  On a screen of positive size [M7_Camera_Load] sets the aspect to
    the larger dimension over the smaller one, which is at least 1; no
    operation changes the aspect afterwards; [M7_ToWorld] reads it (its
    result changes with it) while [M7_ToScreen] and the operations do
    not. *)
Theorem aspect_set_once :
  (forall g screenWidth screenHeight position rotation zoom fov offset maxSprites,
      (0 < screenWidth)%Z -> (0 < screenHeight)%Z ->
      exists camera t,
        M7_Camera_Load g screenWidth screenHeight position rotation zoom fov offset
          maxSprites = Ok (camera, t) /\
        aspect camera
        = IZR (Z.max screenWidth screenHeight) / IZR (Z.min screenWidth screenHeight) /\
        1 <= aspect camera) /\
  (forall (op : Op) camera r camera' t,
      step op camera = Ok (r, (camera', t)) -> aspect camera' = aspect camera) /\
  (forall (a : float) (camera : M7_Camera) (point : Vector2.t),
      M7_ToScreen (set_aspect a camera) point = M7_ToScreen camera point) /\
  (forall (op : Op) (a : float) (camera : M7_Camera),
      step op (set_aspect a camera) = then_aspect a (step op camera)) /\
  (forall g maxSprites,
      M7_ToWorld (demo_camera g maxSprites) (Vector2.mk 0 360)
      <> M7_ToWorld (set_aspect 1 (demo_camera g maxSprites)) (Vector2.mk 0 360)).
Proof.
  split; [ | split; [ | split; [ | split]]].
  - intros g w h pos rot z f o K Hw Hh.
    exists (loaded_camera g w h pos rot z f o K), (loading_calls g rot z f o).
    split; [apply M7_Camera_Load_Ok; lia | ]. split; [reflexivity | ].
    simpl.
    assert (0 < IZR (Z.min w h)) as Hmin by (apply IZR_lt; lia).
    assert (IZR (Z.min w h) <= IZR (Z.max w h)) as Hle by (apply IZR_le; lia).
    apply Rmult_le_reg_r with (IZR (Z.min w h)); [exact Hmin | ].
    unfold Rdiv. rewrite Rmult_assoc, Rinv_l by lra. lra.
  - intros op camera r camera' t Hstep.
    apply step_inv in Hstep as ((Ha & _) & _). exact Ha.
  - intros a camera point. reflexivity.
  - intros op a camera. apply step_set_aspect.
  - intros g maxSprites.
    rewrite !M7_ToWorld_Ok; simpl; try lra.
    + rewrite sin_0, cos_0. change (1280 ÷ 2)%Z with 640%Z.
      change (Z.max 1280 720) with 1280%Z. change (Z.min 1280 720) with 720%Z.
      replace (80 / (1280 / 720)) with 45 by field.
      intros Heq. inversion Heq as [[Hx Hy]]. lra.
    + change (Z.max 1280 720) with 1280%Z. change (Z.min 1280 720) with 720%Z. lra.
Qed.
End Aspect.

(** ** Adding up to the capacity *)

(** One add on a camera whose buffer is well formed. *)
Lemma do_add_wf (a : AddArgs) (camera : M7_Camera) :
  wf (buffer camera) ->
  let b := buffer camera in
  (count b = maxCount b /\ do_add a camera = Ok (None, (camera, []))) \/
  ((count b < maxCount b)%Z /\
   exists camera',
     do_add a camera = Ok (Some (Z.to_nat (count b)), (camera', [])) /\
     wf (buffer camera') /\
     maxCount (buffer camera') = maxCount b /\
     count (buffer camera') = (count b + 1)%Z /\
     elems (buffer camera') !! Z.to_nat (count b) = Some (Some (added_element a)) /\
     (forall p, p <> Z.to_nat (count b) -> elems (buffer camera') !! p = elems b !! p)).
Proof.
  intros Hwf. cbv zeta. rewrite do_add_add. unfold add. cbv [andThen get]. unfold lift.
  destruct (M7_ZBuffer_Element_Add_wf (buffer camera) (added_element a) Hwf)
    as [[Hfull Hadd] | [Hroom Hadd]].
  - left. split; [exact Hfull | ]. rewrite Hadd. cbv [modify ret]. simpl.
    destruct camera as [? ? [? ? ? ?] ? ? ? ? ? ? ?]. reflexivity.
  - right. split; [exact Hroom | ].
    pose proof (wf_Add _ _ _ _ Hwf Hadd) as Hwf'.
    rewrite Hadd. cbv [modify ret]. simpl. eexists. split; [reflexivity | ].
    simpl. split; [exact Hwf' | ]. split; [reflexivity | ]. split; [reflexivity | ].
    destruct Hwf as (Hc & Hm & He & _). split.
    + apply list_lookup_insert_eq. lia.
    + intros p Hp. apply list_lookup_insert_ne. congruence.
Qed.

(** A run of adds that fits: the pointers returned are the addresses of the
    next free slots, in order; each slot holds the element added; the slots
    written before are as they were. *)
Lemma run_adds_fit (l : list AddArgs) :
  forall camera : M7_Camera,
    wf (buffer camera) ->
    (count (buffer camera) + Z.of_nat (length l) <= maxCount (buffer camera))%Z ->
    exists camera',
      run_adds l camera
      = Ok (map Some (seq (Z.to_nat (count (buffer camera))) (length l)), (camera', [])) /\
      wf (buffer camera') /\
      maxCount (buffer camera') = maxCount (buffer camera) /\
      count (buffer camera') = (count (buffer camera) + Z.of_nat (length l))%Z /\
      (forall i a, l !! i = Some a ->
                   elems (buffer camera') !! (Z.to_nat (count (buffer camera)) + i)%nat
                   = Some (Some (added_element a))) /\
      (forall p, (p < Z.to_nat (count (buffer camera)))%nat ->
                 elems (buffer camera') !! p = elems (buffer camera) !! p).
Proof.
  induction l as [ | a l IH]; intros camera Hwf Hfit; simpl.
  - exists camera. unfold ret. split; [reflexivity | ]. split; [exact Hwf | ].
    split; [reflexivity | ]. split; [lia | ]. split; [ | reflexivity].
    intros i a Hi. discriminate.
  - simpl length in Hfit.
    destruct (do_add_wf a camera Hwf) as [[Hfull _] | [Hroom Hadd]]; [lia | ].
    destruct Hadd as (c1 & Hadd & Hwf1 & Hmax1 & Hcount1 & Hslot & Hold).
    destruct (IH c1 Hwf1) as (c2 & Hrun & Hwf2 & Hmax2 & Hcount2 & Hslots & Hold2);
      [lia | ].
    destruct Hwf as (Hc & _).
    exists c2. unfold andThen. rewrite Hadd, Hrun. unfold ret. simpl.
    rewrite Hcount1.
    replace (Z.to_nat (count (buffer camera) + 1)) with (S (Z.to_nat (count (buffer camera))))
      by lia.
    split; [reflexivity | ]. split; [exact Hwf2 | ]. split; [congruence | ].
    split; [lia | ]. split.
    + intros i a' Hi. destruct i as [ | i]; simpl in Hi.
      * inversion Hi; subst a'. rewrite Nat.add_0_r.
        rewrite Hold2 by lia. exact Hslot.
      * specialize (Hslots i a' Hi). rewrite Hcount1 in Hslots.
        replace (Z.to_nat (count (buffer camera)) + S i)%nat
          with (Z.to_nat (count (buffer camera) + 1) + i)%nat by lia.
        exact Hslots.
    + intros p Hp. rewrite Hold2 by lia. apply Hold. lia.
Qed.

Section Capacity.
Context `{LibC}.

(** C2.  In every reachable camera the count is within the capacity.  On
    a camera whose buffer was created with capacity K, K adds of any kind
    return K distinct pointers, the addresses of slots 0 to K-1 of the
    backing array, each slot holding the element added; one more add
    returns [NULL], makes no call and leaves the camera as it was.  The
    pointers are stable: a later add leaves the slots written before
    alone, and sorting moves the pointers of the pointer array, not the
    elements of the backing array. *)
Theorem adds_up_to_capacity :
  (forall camera : M7_Camera,
      reachable camera ->
      (0 <= count (buffer camera) <= maxCount (buffer camera))%Z) /\
  (forall (camera : M7_Camera) (K : Z) (adds : list AddArgs),
      (0 <= K < 2 ^ 32)%Z ->
      buffer camera = M7_ZBuffer_Load K ->
      length adds = Z.to_nat K ->
      exists (ptrs : list ptr) (camera' : M7_Camera),
        run_adds adds camera = Ok (map Some ptrs, (camera', [])) /\
        ptrs = seq 0 (Z.to_nat K) /\
        NoDup ptrs /\
        count (buffer camera') = K /\ maxCount (buffer camera') = K /\
        (forall i a, adds !! i = Some a ->
                     elems (buffer camera') !! i = Some (Some (added_element a))) /\
        (forall a, do_add a camera' = Ok (None, (camera', [])))) /\
  (forall (a : AddArgs) (camera : M7_Camera),
      reachable camera ->
      (count (buffer camera) = maxCount (buffer camera) /\
       do_add a camera = Ok (None, (camera, []))) \/
      ((count (buffer camera) < maxCount (buffer camera))%Z /\
       exists camera',
         do_add a camera = Ok (Some (Z.to_nat (count (buffer camera))), (camera', [])) /\
         count (buffer camera') = (count (buffer camera) + 1)%Z /\
         elems (buffer camera') !! Z.to_nat (count (buffer camera))
         = Some (Some (added_element a)) /\
         (forall p, p <> Z.to_nat (count (buffer camera)) ->
                    elems (buffer camera') !! p = elems (buffer camera) !! p))) /\
  (forall b b' : M7_ZBuffer, M7_ZBuffer_Sort b = Ok b' -> elems b' = elems b).
Proof.
  split; [ | split; [ | split]].
  - intros camera Hreach. apply reachable_inv in Hreach as (_ & (Hc & _) & _). exact Hc.
  - intros camera K adds HK Hb Hlen.
    assert (wf (buffer camera)) as Hwf by (rewrite Hb; apply wf_Load; exact HK).
    assert (count (buffer camera) = 0%Z /\ maxCount (buffer camera) = K) as [Hc Hm].
    { rewrite Hb. unfold M7_ZBuffer_Load. destruct (K >? 0)%Z; auto. }
    destruct (run_adds_fit adds camera Hwf) as (c' & Hrun & Hwf' & Hm' & Hc' & Hslots & _);
      [lia | ].
    rewrite Hc in Hrun, Hc', Hslots. simpl Z.to_nat in Hrun, Hslots.
    exists (seq 0 (Z.to_nat K)), c'.
    split; [rewrite Hrun, Hlen; reflexivity | ]. split; [reflexivity | ].
    split; [apply NoDup_ListNoDup, seq_NoDup | ].
    split; [lia | ]. split; [congruence | ]. split; [exact Hslots | ].
    intros a. destruct (do_add_wf a c' Hwf') as [[_ Hnull] | [Hroom _]]; [exact Hnull | lia].
  - intros a camera Hreach. apply reachable_inv in Hreach as (_ & Hwf & _).
    destruct (do_add_wf a camera Hwf) as [Hfull | [Hroom Hadd]]; [left; exact Hfull | ].
    right. split; [exact Hroom | ].
    destruct Hadd as (c' & Hadd & _ & _ & Hc' & Hslot & Hold).
    exists c'. auto.
  - intros b b' Hs. apply M7_ZBuffer_Sort_frame in Hs as (He & _). exact He.
Qed.
End Capacity.

(** ** World to screen and back *)

(** C7.  The round trip fails on a target higher than wide.
    [M7_Camera_Load] stores the larger dimension over the smaller as the
    aspect (m7.h lines 255-257) and [M7_ToWorld] alone reads it (line 569),
    where the projection (line 550) and the shader of the plane (lines
    61-62) use the width and the height of the target.  On the demo camera
    loaded on a screen of 720 by 1280, with rotation 0, offset 0.5, zoom 80
    and field of view 0.5, the world point (80, 0), of distance 1, goes to
    the pixel (0, 640); the shader of a plane of size 1 at the origin looks
    up the world point (80, 0) at that pixel; [M7_ToWorld] returns
    (405/16, 0) for it.  With the width over the height as aspect it
    returns (80, 0). *)
Theorem M7_ToWorld_on_a_portrait_target :
  M7_Camera_Load demo_graphics 720 1280 (Vector2.mk 0 0) 0 80 0.5 0.5 48
  = Ok (portrait_camera, loading_calls demo_graphics 0 80 0.5 0.5) /\
  rotation portrait_camera = 0 /\ offset portrait_camera = 0.5 /\
  0 < zoom portrait_camera /\ 0 < fov portrait_camera /\
  0 < ToScreen_distance portrait_camera (Vector2.mk 80 0) /\
  M7_ToScreen portrait_camera (Vector2.mk 80 0) = Ok (Vector3.mk 0 640 4.5) /\
  M7_PlaneFragment
    (plane_uniforms portrait_camera (Texture2D.mk 9 1 1 1 7) (Vector2.mk 0 0) (Vector2.mk 0 0)
       (Vector2.mk 1 1) 1)
    (Vector2.mk (0 / IZR 720) (640 / IZR 1280))
  = Ok (texture_map (Vector2.mk 80 0)) /\
  aspect portrait_camera = IZR 1280 / IZR 720 /\
  M7_ToWorld portrait_camera (Vector2.mk 0 640) = Ok (Vector2.mk (405 / 16) 0) /\
  Vector2.mk (405 / 16) 0 <> Vector2.mk 80 0 /\
  M7_ToWorld (set_aspect (IZR 720 / IZR 1280) portrait_camera) (Vector2.mk 0 640)
  = Ok (Vector2.mk 80 0).
Proof.
  assert (ToScreen_distance portrait_camera (Vector2.mk 80 0) = 1) as Hd.
  { unfold ToScreen_distance, ToScreen_spaceY; simpl. rewrite sin_0, cos_0. lra. }
  split; [apply M7_Camera_Load_Ok; vm_compute; discriminate | ].
  split; [reflexivity | ]. split; [reflexivity | ].
  split; [simpl; lra | ]. split; [simpl; lra | ]. split; [rewrite Hd; lra | ].
  split; [ | split; [ | split; [ | split; [ | split]]]].
  - rewrite M7_ToScreen_Ok; [ | simpl; lra | rewrite Hd; lra].
    rewrite Hd. unfold ToScreen_spaceX, ToScreen_spaceY; simpl.
    rewrite sin_0, cos_0. change (720 ÷ 2)%Z with 360%Z.
    f_equal. apply Vector3_eq; lra.
  - unfold M7_PlaneFragment, plane_uniforms; simpl. rewrite sin_0, cos_0.
    rewrite (fdiv_Ok 80 0.5) by lra. simpl bind.
    rewrite !(fdiv_Ok _ (640 / 1280)) by lra. simpl bind.
    rewrite !(fdiv_Ok _ (1 * 1)) by lra. simpl bind.
    f_equal. f_equal. apply Vector2_eq; lra.
  - reflexivity.
  - rewrite M7_ToWorld_Ok; simpl; try lra.
    + rewrite sin_0, cos_0. change (720 ÷ 2)%Z with 360%Z.
      change (Z.max 720 1280) with 1280%Z. change (Z.min 720 1280) with 720%Z.
      replace (80 / (1280 / 720)) with 45 by field.
      f_equal. apply Vector2_eq; lra.
    + change (Z.max 720 1280) with 1280%Z. change (Z.min 720 1280) with 720%Z. lra.
  - intros Heq. inversion Heq as [Hx]. lra.
  - rewrite M7_ToWorld_Ok; simpl; try lra.
    rewrite sin_0, cos_0. change (720 ÷ 2)%Z with 360%Z.
    replace (80 / (720 / 1280)) with (1280 / 9) by field.
    f_equal. apply Vector2_eq; lra.
Qed.

(** ** The divisions of the inverse transform *)

(** C8, as amended.  [M7_ToWorld] has three divisors: the aspect, the field
    of view and the vertical coordinate of the point; it has no result,
    with the fault of a division by zero and no other, exactly when one of
    them is zero.  So on a camera whose aspect and field of view are not
    zero it returns a point for every input whose vertical coordinate is
    not zero, and divides by zero when that coordinate is zero. *)
Theorem M7_ToWorld_divisions (camera : M7_Camera) (point : Vector2.t) :
  (forall f, M7_ToWorld camera point = Err f <->
             f = NonFinite /\
             (aspect camera = 0 \/ fov camera = 0 \/ Vector2.y point = 0)) /\
  (aspect camera <> 0 -> fov camera <> 0 ->
   (Vector2.y point <> 0 -> exists w, M7_ToWorld camera point = Ok w) /\
   (Vector2.y point = 0 -> M7_ToWorld camera point = Err NonFinite)).
Proof.
  split; [intros f; apply M7_ToWorld_Err | ].
  intros Ha Hf. split.
  - intros Hy. eexists. apply M7_ToWorld_Ok; assumption.
  - intros Hy. apply M7_ToWorld_Err. auto.
Qed.

(** C8 as stated fails when the field of view is 0: the division of the
    zoom by the field of view has no result although the vertical
    coordinate of the point is not zero. *)
Lemma M7_ToWorld_fov_counterexample :
  M7_Camera_Load demo_graphics 1280 720 (Vector2.mk 0 0) 0 80 0 0.5 48
  = Ok (flat_camera, loading_calls demo_graphics 0 80 0 0.5) /\
  Vector2.y (Vector2.mk 640 360) <> 0 /\
  M7_ToWorld flat_camera (Vector2.mk 640 360) = Err NonFinite.
Proof.
  split; [apply M7_Camera_Load_Ok; vm_compute; discriminate | ].
  split; [simpl; lra | ].
  apply M7_ToWorld_Err. split; [reflexivity | ]. right. left. reflexivity.
Qed.

(** ** The single-plane path *)

Section SinglePlane.
Context `{LibC}.

(** C9.  On every camera and for all arguments [M7_Camera_Update] has the
    outcome of the sequence begin, plane, end, with the origin of the
    plane at (width * scale.x * 0.5, height * scale.y * 0.5): the same
    fault, or the same camera left and the same calls made.  The calls
    are those of the target being bound and cleared, of the plane drawn
    with the camera position, the plane position and half the footprint
    summed, and then those of [M7_Camera_End] on the camera as it
    was. *)
Theorem M7_Camera_Update_is_Begin_DrawPlane_End
    (texture : Texture2D.t) (pos scale : Vector2.t) (wrap : Z) (backgroundColor : Color.t)
    (camera : M7_Camera) :
  M7_Camera_Update texture pos scale wrap backgroundColor camera
  = Begin_DrawPlane_End texture pos scale wrap backgroundColor camera /\
  M7_Camera_Update texture pos scale wrap backgroundColor camera
  = match M7_Camera_End camera with
    | Err e => Err e
    | Ok (_, (camera', calls_of_End)) =>
        let program := planeProgram camera in
        let mapSize0 := IZR (Texture2D.width texture) * Vector2.x scale in
        let mapSize1 := IZR (Texture2D.height texture) * Vector2.y scale in
        Ok (tt,
            (camera',
             [ BeginTextureMode (target camera);
               ClearBackground backgroundColor;
               SetShaderValue_VEC2 (shader program) (locMapSize program) mapSize0 mapSize1;
               SetShaderValue_VEC2 (shader program) (locCamPos program)
                 (Vector2.x (position camera) + Vector2.x pos + mapSize0 * 0.5)
                 (Vector2.y (position camera) + Vector2.y pos + mapSize1 * 0.5);
               SetShaderValue_INT (shader program) (locWrap program) wrap;
               BeginShaderMode (shader program);
               SetShaderValueTexture (shader program) (locMapTex program) texture;
               DrawTexture (RenderTexture.texture (target camera)) 0 0 WHITE;
               EndShaderMode ]
             ++ calls_of_End))
    end.
Proof.
  split.
  - unfold M7_Camera_Update, Begin_DrawPlane_End.
    unfold andThen at 1. 
    destruct (M7_Camera_Begin backgroundColor camera) as [[u1 [c1 t1]] | e]; [ | reflexivity].
    unfold andThen at 1.
    match goal with
    | |- context [M7_Camera_DrawPlane ?a ?b ?c ?d ?e c1] =>
        destruct (M7_Camera_DrawPlane a b c d e c1) as [[u2 [c2 t2]] | e']
    end; [ | reflexivity].
    destruct (M7_Camera_End c2) as [[[] [c3 t3]] | e']; reflexivity.
  - unfold M7_Camera_Update.
    unfold andThen at 1. cbv [M7_Camera_Begin andThen get call].
    cbv [M7_Camera_DrawPlane andThen get call].
    destruct (M7_Camera_End camera) as [[[] [c3 t3]] | e']; reflexivity.
Qed.
End SinglePlane.

(** ** Drawing one element *)

(** C4.  In the draw pass a textured element is drawn exactly when, on both
    axes, its screen scale is positive where its world scale is and is not
    where it is not (the sign test of the code, [> 0] on both sides); any
    disagreement leaves it out.  A rectangle and a circle are drawn
    whatever their scales.  A textured element of world scale (8, 8) and
    screen scale (-8, y) makes no call; a rectangle with the same data
    does.  The draw pass makes the calls of the elements, one after the
    other, in the order of the pointer array. *)
Theorem texture_drawn_iff_signs_agree :
  (forall elem : M7_ZBuffer_Element,
      type elem = M7_ZBT_TEXTURE ->
      let screen := SpaceData.scale (onScreen elem) in
      let world := SpaceData.scale (onWorld elem) in
      let agree :=
        (0 < Vector2.x screen <-> 0 < Vector2.x world) /\
        (0 < Vector2.y screen <-> 0 < Vector2.y world) in
      (agree ->
       M7_ZBuffer_Element_Draw elem =
       [DrawTexturePro (texture elem) (SpaceData.rectangle (onWorld elem))
          (SpaceData.rectangle (onScreen elem)) (Vector2.mk 0 0) 0 (tint elem)]) /\
      (~ agree -> M7_ZBuffer_Element_Draw elem = [])) /\
  (forall elem : M7_ZBuffer_Element,
      type elem = M7_ZBT_RECTANGLE ->
      M7_ZBuffer_Element_Draw elem =
      [DrawRectangleRec (SpaceData.rectangle (onScreen elem)) (tint elem)]) /\
  (forall elem : M7_ZBuffer_Element,
      type elem = M7_ZBT_CIRCLE ->
      M7_ZBuffer_Element_Draw elem =
      [DrawCircleV
         (Vector2.mk (Vector2.x (SpaceData.position (onScreen elem)))
            (Vector2.y (SpaceData.position (onScreen elem))
             - Rectangle.width (SpaceData.rectangle (onScreen elem))))
         (Rectangle.width (SpaceData.rectangle (onScreen elem))) (tint elem)]) /\
  (forall (y : float) (rect srect : Rectangle.t) (pos spos : Vector2.t)
          (tex : Texture2D.t) (d : float) (c : Color.t),
      let world := SpaceData.mk rect pos (Vector2.mk 8 8) in
      let screen := SpaceData.mk srect spos (Vector2.mk (- 8) y) in
      M7_ZBuffer_Element_Draw
        {| onWorld := world; onScreen := screen; texture := tex; distance := d;
           tint := c; type := M7_ZBT_TEXTURE |} = [] /\
      M7_ZBuffer_Element_Draw
        {| onWorld := world; onScreen := screen; texture := tex; distance := d;
           tint := c; type := M7_ZBT_RECTANGLE |} = [DrawRectangleRec srect c]) /\
  (forall (b : M7_ZBuffer) (cs : list (ptr * M7_ZBuffer_Element)),
      cells b 0 (Z.to_nat (count b)) = Ok cs ->
      M7_ZBuffer_Draw b = Ok (concat (map (fun c => M7_ZBuffer_Element_Draw (snd c)) cs))).
Proof.
  split; [ | split; [ | split; [ | split]]].
  - intros elem Hty screen world agree. unfold M7_ZBuffer_Element_Draw. rewrite Hty.
    fold screen world.
    assert (eqb (fgt (Vector2.x screen) 0) (fgt (Vector2.x world) 0)
            && eqb (fgt (Vector2.y screen) 0) (fgt (Vector2.y world) 0) = true <-> agree)
      as Hiff.
    { rewrite andb_true_iff, !eqb_fgt. reflexivity. }
    destruct (eqb (fgt (Vector2.x screen) 0) (fgt (Vector2.x world) 0)
              && eqb (fgt (Vector2.y screen) 0) (fgt (Vector2.y world) 0)).
    + split; [reflexivity | ]. intros Hn. exfalso. apply Hn. apply Hiff. reflexivity.
    + split; [ | reflexivity]. intros Ha. apply Hiff in Ha. discriminate.
  - intros elem Hty. unfold M7_ZBuffer_Element_Draw. rewrite Hty. reflexivity.
  - intros elem Hty. unfold M7_ZBuffer_Element_Draw. rewrite Hty. reflexivity.
  - intros y rect srect pos spos tex d c world screen. split; [ | reflexivity].
    unfold M7_ZBuffer_Element_Draw. simpl.
    assert (fgt (- 8) 0 = false) as ->.
    { unfold fgt. destruct (Rlt_dec 0 (- 8)); [lra | reflexivity]. }
    assert (fgt 8 0 = true) as -> by (apply fgt_true; lra).
    reflexivity.
  - apply M7_ZBuffer_Draw_cells.
Qed.

(** ** The screen rectangle of an element *)

(** What [M7_ZBuffer_Update] leaves in every registered element: the
    world-space data are kept; with (x, y, size) the point that
    [M7_ToScreen] returns for the world position, the screen scale is
    size * world scale / world rectangle dimension on each axis, the screen
    position is (x, y), the distance is size, the width of the screen
    rectangle is world width * screen scale x, and its height is the world
    width * screen scale y. *)
Lemma M7_ZBuffer_Update_screen_data (camera camera' : M7_Camera) :
  wf (buffer camera) ->
  M7_ZBuffer_Update camera = Ok camera' ->
  forall j : nat,
    (j < Z.to_nat (count (buffer camera)))%nat ->
    exists elem elem' v,
      elems (buffer camera) !! j = Some (Some elem) /\
      elems (buffer camera') !! j = Some (Some elem') /\
      M7_ToScreen camera (SpaceData.position (onWorld elem)) = Ok v /\
      let w := Rectangle.width (SpaceData.rectangle (onWorld elem)) in
      let h := Rectangle.height (SpaceData.rectangle (onWorld elem)) in
      let scaleX := Vector2.x (SpaceData.scale (onScreen elem')) in
      let scaleY := Vector2.y (SpaceData.scale (onScreen elem')) in
      onWorld elem' = onWorld elem /\
      scaleX = Vector3.z v * Vector2.x (SpaceData.scale (onWorld elem)) / w /\
      scaleY = Vector3.z v * Vector2.y (SpaceData.scale (onWorld elem)) / h /\
      Rectangle.x (SpaceData.rectangle (onScreen elem'))
      = Vector3.x v - (w * scaleX) * 0.5 /\
      Rectangle.y (SpaceData.rectangle (onScreen elem')) = Vector3.y v - h * scaleY /\
      Rectangle.width (SpaceData.rectangle (onScreen elem')) = w * scaleX /\
      Rectangle.height (SpaceData.rectangle (onScreen elem')) = w * scaleY /\
      SpaceData.position (onScreen elem') = Vector2.mk (Vector3.x v) (Vector3.y v) /\
      distance elem' = Vector3.z v.
Proof.
  intros Hwf Hu j Hj.
  apply M7_ZBuffer_Update_spec in Hu as (es & -> & _ & Hupd & _); [ | exact Hwf].
  destruct (Hupd j Hj) as (elem & elem' & H0 & Hu & H1).
  apply M7_ZBuffer_Element_Update_Ok_inv in Hu as Hinv.
  destruct Hinv as (v & Hv & Hw & Hh & ->).
  exists elem. eexists. exists v.
  split; [exact H0 | ]. split; [exact H1 | ]. split; [exact Hv | ].
  simpl. repeat split; reflexivity.
Qed.

(** C5.  The claim holds but for the height of the screen rectangle: the
    update of the sprite of 16 by 32 on the demo camera, whose world
    position goes to (640, 360) with size 8, has screen scale (4, 2),
    screen position (640, 360), distance 8 and a screen rectangle of width
    16 * 4 = 64 placed at y = 360 - 32 * 2, as the claim says; the height
    stored is 16 * 2 = 32, the world width times the screen scale y, where
    the claim (and the placement of the rectangle, m7.h line 764) have the
    world height times the screen scale y, 64. *)
Theorem M7_ZBuffer_Element_Update_height_from_width :
  exists elem',
    M7_ZBuffer_Element_Update tall_sprite (demo_camera demo_graphics 48) = Ok elem' /\
    SpaceData.scale (onScreen elem') = Vector2.mk 4 2 /\
    SpaceData.position (onScreen elem') = Vector2.mk 640 360 /\
    distance elem' = 8 /\
    Rectangle.width (SpaceData.rectangle (onScreen elem')) = 64 /\
    Rectangle.y (SpaceData.rectangle (onScreen elem')) = 360 - 32 * 2 /\
    Rectangle.height (SpaceData.rectangle (onScreen elem')) = 32 /\
    Rectangle.height (SpaceData.rectangle (onWorld tall_sprite))
    * Vector2.y (SpaceData.scale (onScreen elem')) = 64.
Proof.
  destruct (demo_camera_origin demo_graphics 48) as [_ Hv].
  unfold M7_ZBuffer_Element_Update. simpl SpaceData.position. rewrite Hv. simpl.
  rewrite !fdiv_Ok by lra. simpl. eexists. split; [reflexivity | ]. simpl.
  split; [apply Vector2_eq; lra | ]. split; [apply Vector2_eq; lra | ].
  repeat split; lra.
Qed.

(** * The theorems at work on concrete inputs *)

Lemma small_camera_reachable : reachable (H := insertion_sort_LibC) small_camera.
Proof.
  eapply reachable_Load.
  apply (M7_Camera_Load_Ok demo_graphics 1280 720 (Vector2.mk 0 0) 0 80 0.5 0.5 2).
  vm_compute. discriminate.
Defined.

(** Two adds fill the buffer of the small camera. *)
Lemma adds_up_to_capacity_witness :
  exists camera',
    run_adds [Add_Rectangle (Rectangle.mk 64 64 16 16) RED;
              Add_Circle (Vector2.mk (- 64) 64) 8 YELLOW] small_camera
    = Ok ([Some 0%nat; Some 1%nat], (camera', [])) /\
    count (buffer camera') = 2%Z /\
    M7_Circle_Add (Vector2.mk 0 0) 1 RED camera' = Ok (None, (camera', [])).
Proof.
  destruct (proj1 (proj2 (adds_up_to_capacity (H := insertion_sort_LibC)))
              small_camera 2%Z
              [Add_Rectangle (Rectangle.mk 64 64 16 16) RED;
               Add_Circle (Vector2.mk (- 64) 64) 8 YELLOW])
    as (ptrs & camera' & Hrun & Hptrs & _ & Hcount & _ & _ & Hfull).
  - lia.
  - reflexivity.
  - reflexivity.
  - exists camera'. subst ptrs. split; [exact Hrun | ]. split; [exact Hcount | ].
    exact (Hfull (Add_Circle (Vector2.mk 0 0) 1 RED)).
Defined.

Lemma three_elements_wf : wf three_elements.
Proof.
  unfold wf, three_elements; simpl.
  split; [lia | ]. split; [lia | ]. split; [reflexivity | ]. split; [reflexivity | ].
  split; [ | reflexivity].
  intros i Hi. destruct i as [ | [ | [ | i]]]; simpl; eauto. lia.
Defined.

Lemma M7_ZBuffer_Sort_ascending_witness :
  exists b' cs',
    M7_ZBuffer_Sort (H := insertion_sort_LibC) three_elements = Ok b' /\
    cells b' 0 (Z.to_nat (count b')) = Ok cs' /\
    StronglySorted Rle (distances cs').
Proof.
  destruct (M7_ZBuffer_Sort_ascending (H := insertion_sort_LibC) three_elements
              [(0%nat, at_distance 3); (1%nat, at_distance 1); (2%nat, at_distance 2)])
    as (b' & cs' & Hsort & _ & _ & Hcells & _ & Hle & _).
  - exact three_elements_wf.
  - reflexivity.
  - unfold distances; simpl.
    repeat (apply NoDup_cons; split;
            [rewrite ?elem_of_cons, elem_of_nil; intros Hin; intuition lra | ]).
    apply NoDup_nil_2.
  - exists b', cs'. auto.
Defined.

(** A sprite whose screen scale has the signs of its world scale. *)
Lemma texture_drawn_iff_signs_agree_witness :
  M7_ZBuffer_Element_Draw
    {| onWorld := SpaceData.mk (Rectangle.mk 0 0 16 32) (Vector2.mk 0 0) (Vector2.mk 8 8);
       onScreen := SpaceData.mk (Rectangle.mk 608 296 64 32) (Vector2.mk 640 360)
                     (Vector2.mk 4 2);
       texture := Texture2D.mk 9 16 32 1 7; distance := 8; tint := WHITE;
       type := M7_ZBT_TEXTURE |}
  = [DrawTexturePro (Texture2D.mk 9 16 32 1 7) (Rectangle.mk 0 0 16 32)
       (Rectangle.mk 608 296 64 32) (Vector2.mk 0 0) 0 WHITE].
Proof.
  apply (proj1 (proj1 texture_drawn_iff_signs_agree
                 {| onWorld := SpaceData.mk (Rectangle.mk 0 0 16 32) (Vector2.mk 0 0)
                                 (Vector2.mk 8 8);
                    onScreen := SpaceData.mk (Rectangle.mk 608 296 64 32)
                                  (Vector2.mk 640 360) (Vector2.mk 4 2);
                    texture := Texture2D.mk 9 16 32 1 7; distance := 8; tint := WHITE;
                    type := M7_ZBT_TEXTURE |} eq_refl)).
  simpl. split; split; intros _; lra.
Defined.

(** The small camera turned by one radian. *)
Lemma rotMat_follows_rotation_witness :
  exists camera,
    step (H := insertion_sort_LibC) (Op_Rotate 1) small_camera
    = Ok (None, (camera, [glUseProgram 3;
                          glUniformMatrix2fv 3 1 false (rotation_matrix (0 + 1))])) /\
    rotMat camera =
    {| m0 := cos (rotation camera); m1 := - sin (rotation camera);
       m2 := sin (rotation camera); m3 := cos (rotation camera) |}.
Proof.
  eexists. split; [reflexivity | ].
  apply (proj1 (rotMat_follows_rotation (H := insertion_sort_LibC))).
  apply (reachable_step (H := insertion_sort_LibC) small_camera (Op_Rotate 1) None _
           [glUseProgram 3; glUniformMatrix2fv 3 1 false (rotation_matrix (0 + 1))]
           small_camera_reachable).
  reflexivity.
Defined.

(** The centre of the screen on the small camera. *)
Lemma M7_ToWorld_divisions_witness :
  exists w, M7_ToWorld small_camera (Vector2.mk 640 360) = Ok w.
Proof.
  apply (proj2 (M7_ToWorld_divisions small_camera (Vector2.mk 640 360))).
  - simpl. change (Z.max 1280 720) with 1280%Z. change (Z.min 1280 720) with 720%Z. lra.
  - simpl. lra.
  - simpl. lra.
Defined.

(** The aspect of a screen of 1280 by 720. *)
Lemma aspect_set_once_witness :
  exists camera t,
    M7_Camera_Load demo_graphics 1280 720 (Vector2.mk 0 0) 0 80 0.5 0.5 48 = Ok (camera, t) /\
    aspect camera = IZR (Z.max 1280 720) / IZR (Z.min 1280 720) /\
    1 <= aspect camera.
Proof.
  apply (proj1 (aspect_set_once (H := insertion_sort_LibC))); lia.
Defined.

(** * Further properties of the code *)

(** ** The pivot of the projection *)

Lemma camera_position_locals (camera : M7_Camera) :
  zoom camera <> 0 ->
  ToScreen_spaceX camera (position camera) = 0 /\
  ToScreen_spaceY camera (position camera) = 0 /\
  ToScreen_distance camera (position camera) = 1.
Proof.
  intros Hz. unfold ToScreen_distance, ToScreen_spaceY, ToScreen_spaceX.
  rewrite !Rminus_diag. repeat split; field; exact Hz.
Qed.

(** The world point where the camera stands goes to the pixel at half the
    width and [offset * height], with size [offset * width / zoom],
    whatever the rotation and the field of view; and that pixel comes back
    to the position of the camera, whatever the aspect. *)
Theorem camera_position_is_the_pivot (camera : M7_Camera) :
  let width := Texture2D.width (RenderTexture.texture (target camera)) in
  let height := Texture2D.height (RenderTexture.texture (target camera)) in
  (zoom camera <> 0 ->
   M7_ToScreen camera (position camera)
   = Ok (Vector3.mk (IZR (width ÷ 2)) (offset camera * IZR height)
           (offset camera * IZR width / zoom camera))) /\
  (aspect camera <> 0 -> fov camera <> 0 -> offset camera * IZR height <> 0 ->
   M7_ToWorld camera (Vector2.mk (IZR (width ÷ 2)) (offset camera * IZR height))
   = Ok (position camera)).
Proof.
  intros width height. split.
  - intros Hz. destruct (camera_position_locals camera Hz) as (HX & HY & Hd).
    rewrite M7_ToScreen_Ok; [ | exact Hz | rewrite Hd; lra].
    rewrite HX, HY, Hd. fold width height. f_equal.
    apply Vector3_eq; field; exact Hz.
  - intros Ha Hf Hy.
    rewrite M7_ToWorld_Ok by assumption. fold width height. simpl Vector2.x. simpl Vector2.y.
    assert (offset camera <> 0) as Ho by (intros H0; apply Hy; rewrite H0; ring).
    assert (IZR height <> 0) as HH by (intros H0; apply Hy; rewrite H0; ring).
    destruct (position camera) as [cx cy]. simpl. f_equal.
    apply Vector2_eq; field; repeat split; assumption.
Qed.

Lemma camera_position_is_the_pivot_witness :
  M7_ToWorld small_camera (Vector2.mk (IZR (1280 ÷ 2)) (0.5 * 720)) = Ok (Vector2.mk 0 0).
Proof.
  apply (proj2 (camera_position_is_the_pivot small_camera)).
  - simpl. change (Z.max 1280 720) with 1280%Z. change (Z.min 1280 720) with 720%Z. lra.
  - simpl. lra.
  - simpl. lra.
Defined.

(** ** Depth, size and the order of the draw pass *)

Lemma M7_ToScreen_size (camera : M7_Camera) (point : Vector2.t) (v : Vector3.t) :
  M7_ToScreen camera point = Ok v ->
  zoom camera <> 0 /\ ToScreen_distance camera point <> 0 /\
  Vector3.z v
  = offset camera * IZR (Texture2D.width (RenderTexture.texture (target camera)))
    / (zoom camera * ToScreen_distance camera point).
Proof.
  intros Hv. destruct (M7_ToScreen_Ok_inv _ _ _ Hv) as [Hz Hd].
  rewrite (M7_ToScreen_Ok camera point Hz Hd) in Hv. inversion Hv; subst v; simpl. auto.
Qed.


(** In front of the camera (positive distance), on a camera of positive
    zoom, offset and width, the farther of two world points has the smaller
    apparent size: the [distance] field that the update stores, which is
    that size, orders the farther element first, so that the ascending
    order of the sort draws back to front. *)
Theorem farther_is_smaller_and_first (camera : M7_Camera) (p1 p2 : Vector2.t)
    (v1 v2 : Vector3.t) (e1 e2 : M7_ZBuffer_Element) :
  M7_ToScreen camera p1 = Ok v1 ->
  M7_ToScreen camera p2 = Ok v2 ->
  0 < zoom camera -> 0 < offset camera ->
  (0 < Texture2D.width (RenderTexture.texture (target camera)))%Z ->
  0 < ToScreen_distance camera p1 ->
  ToScreen_distance camera p1 < ToScreen_distance camera p2 ->
  distance e1 = Vector3.z v1 -> distance e2 = Vector3.z v2 ->
  0 < Vector3.z v2 < Vector3.z v1 /\ M7_ZBuffer_Compare e2 e1 = (-1)%Z.
Proof.
  intros H1 H2 Hz Ho Hw Hd1 Hd12 He1 He2.
  apply M7_ToScreen_size in H1 as (_ & _ & Hs1).
  apply M7_ToScreen_size in H2 as (_ & _ & Hs2).
  set (d1 := ToScreen_distance camera p1) in *.
  set (d2 := ToScreen_distance camera p2) in *.
  set (W := IZR (Texture2D.width (RenderTexture.texture (target camera)))) in *.
  assert (0 < W) as HW by (apply (IZR_lt 0); exact Hw).
  assert (0 < offset camera * W) as Hn by (apply Rmult_lt_0_compat; assumption).
  assert (0 < zoom camera * d1) as Hzd1 by (apply Rmult_lt_0_compat; lra).
  assert (zoom camera * d1 < zoom camera * d2) as Hlt by (apply Rmult_lt_compat_l; lra).
  assert (Vector3.z v2 < Vector3.z v1) as Hsz.
  { rewrite Hs1, Hs2. unfold Rdiv. apply Rmult_lt_compat_l; [exact Hn | ].
    apply Rinv_lt_contravar; [ | exact Hlt].
    apply Rmult_lt_0_compat; lra. }
  assert (0 < Vector3.z v2) as Hpos.
  { rewrite Hs2. apply Rdiv_lt_0_compat; [exact Hn | lra]. }
  split; [split; assumption | ].
  apply M7_ZBuffer_Compare_sign. rewrite He1, He2. exact Hsz.
Qed.

Lemma farther_is_smaller_and_first_witness :
  exists v1 v2,
    M7_ToScreen small_camera (Vector2.mk 0 (- 16)) = Ok v1 /\
    M7_ToScreen small_camera (Vector2.mk 0 0) = Ok v2 /\
    0 < Vector3.z v2 < Vector3.z v1 /\
    M7_ZBuffer_Compare (at_distance (Vector3.z v2)) (at_distance (Vector3.z v1)) = (-1)%Z.
Proof.
  assert (ToScreen_distance small_camera (Vector2.mk 0 (- 16)) = 0.9) as Hd1.
  { unfold ToScreen_distance, ToScreen_spaceY; simpl. rewrite sin_0, cos_0. lra. }
  assert (ToScreen_distance small_camera (Vector2.mk 0 0) = 1) as Hd2.
  { unfold ToScreen_distance, ToScreen_spaceY; simpl. rewrite sin_0, cos_0. lra. }
  eexists. eexists.
  split; [apply M7_ToScreen_Ok; [simpl; lra | rewrite Hd1; lra] | ].
  split; [apply M7_ToScreen_Ok; [simpl; lra | rewrite Hd2; lra] | ].
  eapply (farther_is_smaller_and_first small_camera (Vector2.mk 0 (- 16)) (Vector2.mk 0 0)).
  - apply M7_ToScreen_Ok; [simpl; lra | rewrite Hd1; lra].
  - apply M7_ToScreen_Ok; [simpl; lra | rewrite Hd2; lra].
  - simpl. lra.
  - simpl. lra.
  - simpl. lia.
  - rewrite Hd1. lra.
  - rewrite Hd1, Hd2. lra.
  - reflexivity.
  - reflexivity.
Defined.

(** ** Elements behind the camera *)



(** ** Rectangles and circles on the screen *)

Lemma Rectangle_eq (x y w h x' y' w' h' : float) :
  x = x' -> y = y' -> w = w' -> h = h' -> Rectangle.mk x y w h = Rectangle.mk x' y' w' h'.
Proof. intros -> -> -> ->. reflexivity. Qed.

(** A rectangle added with [M7_Rectangle_Add] and a circle added with
    [M7_Circle_Add] are updated whenever [M7_ToScreen] has a result for
    their world position (their reference rectangle is 1 by 1, so that no
    further division can fail).  With (x, y, size) that result, the
    rectangle is drawn size * width wide and size * height high, its bottom
    edge centred on (x, y); the circle is drawn with radius size * radius,
    its lowest point at (x, y). *)
Theorem rectangle_and_circle_on_screen (camera : M7_Camera) :
  (forall (r : Rectangle.t) (c : Color.t) (v : Vector3.t),
      M7_ToScreen camera (Vector2.mk (Rectangle.x r) (Rectangle.y r)) = Ok v ->
      exists elem',
        M7_ZBuffer_Element_Update (added_element (Add_Rectangle r c)) camera = Ok elem' /\
        M7_ZBuffer_Element_Draw elem' =
        [DrawRectangleRec
           (Rectangle.mk (Vector3.x v - Vector3.z v * Rectangle.width r * 0.5)
              (Vector3.y v - Vector3.z v * Rectangle.height r)
              (Vector3.z v * Rectangle.width r)
              (Vector3.z v * Rectangle.height r)) c]) /\
  (forall (pos : Vector2.t) (radius : float) (c : Color.t) (v : Vector3.t),
      M7_ToScreen camera pos = Ok v ->
      exists elem',
        M7_ZBuffer_Element_Update (added_element (Add_Circle pos radius c)) camera = Ok elem' /\
        M7_ZBuffer_Element_Draw elem' =
        [DrawCircleV (Vector2.mk (Vector3.x v) (Vector3.y v - Vector3.z v * radius))
           (Vector3.z v * radius) c]).
Proof.
  split.
  - intros r c v Hv. unfold M7_ZBuffer_Element_Update. simpl. rewrite Hv. simpl.
    rewrite !fdiv_Ok by lra. simpl. eexists. split; [reflexivity | ].
    unfold M7_ZBuffer_Element_Draw. simpl. f_equal. f_equal.
    apply Rectangle_eq; field.
  - intros pos radius c v Hv. unfold M7_ZBuffer_Element_Update. simpl. rewrite Hv. simpl.
    rewrite !fdiv_Ok by lra. simpl. eexists. split; [reflexivity | ].
    unfold M7_ZBuffer_Element_Draw. simpl. f_equal. f_equal.
    + apply Vector2_eq; field.
    + field.
Qed.

Lemma rectangle_and_circle_on_screen_witness :
  exists v elem',
    M7_ToScreen small_camera (Vector2.mk 64 64) = Ok v /\
    M7_ZBuffer_Element_Update (added_element (Add_Rectangle (Rectangle.mk 64 64 16 16) RED))
      small_camera = Ok elem' /\
    M7_ZBuffer_Element_Draw elem' =
    [DrawRectangleRec
       (Rectangle.mk (Vector3.x v - Vector3.z v * 16 * 0.5) (Vector3.y v - Vector3.z v * 16)
          (Vector3.z v * 16) (Vector3.z v * 16)) RED].
Proof.
  assert (ToScreen_distance small_camera (Vector2.mk 64 64) = 1.4) as Hd.
  { unfold ToScreen_distance, ToScreen_spaceY; simpl. rewrite sin_0, cos_0. lra. }
  eexists.
  destruct (proj1 (rectangle_and_circle_on_screen small_camera)
              (Rectangle.mk 64 64 16 16) RED _
              (M7_ToScreen_Ok small_camera (Vector2.mk 64 64)
                 ltac:(simpl; lra) ltac:(rewrite Hd; lra)))
    as (elem' & Hu & Hdraw).
  exists elem'. split; [ | split; [exact Hu | exact Hdraw]].
  apply M7_ToScreen_Ok; [simpl; lra | rewrite Hd; lra].
Defined.

(** ** Moving the camera *)

Lemma sin2_cos2_1 (t : R) : sin t * sin t + cos t * cos t = 1.
Proof. pose proof (sin2_cos2 t) as Hsc. unfold Rsqr in Hsc. exact Hsc. Qed.

Lemma camera_eq_position (c : M7_Camera) (p q : Vector2.t) :
  p = q -> set_position p c = set_position q c.
Proof. intros ->. reflexivity. Qed.

Lemma set_position_same (c : M7_Camera) : set_position (position c) c = c.
Proof. destruct c. reflexivity. Qed.

Lemma keys_zero (down up : bool) : keys down up = 0 <-> down = up.
Proof.
  destruct down, up; unfold keys, int_of_bool; split; intros Hk;
    try reflexivity; try discriminate.
  - change (1 - 0)%Z with 1%Z in Hk. lra.
  - change (0 - 1)%Z with (-1)%Z in Hk. lra.
Qed.

Lemma ftruth_true (a : float) : ftruth a = true <-> a <> 0.
Proof.
  unfold ftruth. destruct (Req_dec_T a 0); split; intros Ha;
    try reflexivity; try discriminate; try assumption; contradiction.
Qed.

(** The direction of a move has length 1 when a direction key is down
    without its opposite, and is (0, 0) otherwise. *)
Lemma Move_direction_length (input : Input) :
  let d := Move_direction input in
  (KEY_A input <> KEY_D input \/ KEY_W input <> KEY_S input ->
   fst d * fst d + snd d * snd d = 1) /\
  (KEY_A input = KEY_D input -> KEY_W input = KEY_S input -> d = (0, 0)).
Proof.
  unfold Move_direction.
  set (dx := keys (KEY_A input) (KEY_D input)).
  set (dy := keys (KEY_W input) (KEY_S input)).
  split.
  - intros Hkeys.
    assert (dx <> 0 \/ dy <> 0) as Hd.
    { destruct Hkeys as [Hk | Hk]; [left | right]; intros H0;
        apply keys_zero in H0; contradiction. }
    assert (ftruth dx || ftruth dy = true) as ->.
    { apply orb_true_iff. rewrite !ftruth_true. exact Hd. }
    simpl.
    assert (0 < dx * dx + dy * dy) as Hpos by (destruct Hd; nra).
    pose proof (sqrt_lt_R0 _ Hpos) as Hmag.
    pose proof (sqrt_sqrt (dx * dx + dy * dy) (Rlt_le _ _ Hpos)) as Hsq.
    set (mag := sqrt (dx * dx + dy * dy)) in *.
    replace (dx / mag * (dx / mag) + dy / mag * (dy / mag))
      with ((dx * dx + dy * dy) / (mag * mag)) by (field; lra).
    rewrite Hsq. field. lra.
  - intros Hx Hy.
    assert (dx = 0) as -> by (apply keys_zero; exact Hx).
    assert (dy = 0) as -> by (apply keys_zero; exact Hy).
    assert (ftruth 0 = false) as ->.
    { unfold ftruth. destruct (Req_dec_T 0 0); [reflexivity | contradiction]. }
    reflexivity.
Qed.

(** [M7_Camera_Move] always has a result: the camera it leaves and the
    calls it makes. *)
Lemma M7_Camera_Move_run (input : Input) (speed : float) (c : M7_Camera) :
  let dt := GetFrameTime input in
  let d := Move_direction input in
  let dx := fst d * (speed * dt) in
  let dy := snd d * (speed * dt) in
  let rot := rotation c + keys (KEY_RIGHT input) (KEY_LEFT input) * dt in
  let p := planeProgram c in
  M7_Camera_Move input speed c =
  Ok (tt,
      ({| planeProgram := p;
          target := target c;
          buffer := buffer c;
          rotMat := rotation_matrix rot;
          position :=
            Vector2.mk
              (Vector2.x (position c) + (dx * m0 (rotMat c) + dy * m1 (rotMat c)))
              (Vector2.y (position c) + (dx * m2 (rotMat c) + dy * m3 (rotMat c)));
          rotation := rot;
          zoom := zoom c + keys (KEY_DOWN input) (KEY_UP input) * (speed * dt);
          fov := fov c + - GetMouseWheelMove input * 0.1;
          offset := offset c + keys (KEY_PAGE_DOWN input) (KEY_PAGE_UP input) * dt;
          aspect := aspect c |},
       [ glUseProgram (Shader.id (shader p));
         glUniformMatrix2fv (locCamRot p) 1 false (rotation_matrix rot);
         SetShaderValue_FLOAT (shader p) (locFOV p) (fov c + - GetMouseWheelMove input * 0.1);
         SetShaderValue_FLOAT (shader p) (locZoom p)
           (zoom c + keys (KEY_DOWN input) (KEY_UP input) * (speed * dt));
         SetShaderValue_FLOAT (shader p) (locOffset p)
           (offset c + keys (KEY_PAGE_DOWN input) (KEY_PAGE_UP input) * dt) ])).
Proof.
  intros dt d dx dy rot p. unfold M7_Camera_Move.
  set (kx := keys (KEY_A input) (KEY_D input)).
  set (ky := keys (KEY_W input) (KEY_S input)).
  assert ((if ftruth kx || ftruth ky
           then
             dx1 <- fdiv kx (sqrt (kx * kx + ky * ky)) ;;
             dy1 <- fdiv ky (sqrt (kx * kx + ky * ky)) ;;
             Ok (dx1, dy1)
           else Ok (kx, ky)) = Ok d) as Hd.
  { unfold d, Move_direction. fold kx ky.
    destruct (ftruth kx || ftruth ky) eqn:E; [ | reflexivity].
    assert (sqrt (kx * kx + ky * ky) <> 0) as Hmag.
    { intros H0. apply sqrt_eq_0 in H0; [ | nra].
      assert (kx = 0 /\ ky = 0) as [Hx Hy] by (split; nra).
      unfold ftruth in E. rewrite Hx, Hy in E.
      destruct (Req_dec_T 0 0); [discriminate | contradiction]. }
    rewrite !fdiv_Ok by exact Hmag. reflexivity. }
  unfold andThen at 1. unfold lift. rewrite Hd. reflexivity.
Qed.

(** The rotation matrix keeps lengths. *)
Lemma rotation_keeps_length (t dx dy : R) :
  (dx * cos t + dy * - sin t) * (dx * cos t + dy * - sin t)
  + (dx * sin t + dy * cos t) * (dx * sin t + dy * cos t) = dx * dx + dy * dy.
Proof.
  pose proof (sin2_cos2_1 t) as Hsc.
  replace ((dx * cos t + dy * - sin t) * (dx * cos t + dy * - sin t)
           + (dx * sin t + dy * cos t) * (dx * sin t + dy * cos t))
    with ((dx * dx + dy * dy) * (sin t * sin t + cos t * cos t)) by ring.
  rewrite Hsc. ring.
Qed.

Section Moving.
Context `{LibC}.

(** On every reachable camera [M7_Camera_Translate] makes no call and
    changes the position only; it moves the camera by exactly the length of
    (dx, dy), turned by the rotation of the camera; translating back by
    (-dx, -dy) restores the camera; and two translations in a row leave the
    camera that the translation by the sum leaves. *)
Theorem M7_Camera_Translate_moves (camera : M7_Camera) (dx dy : float) :
  reachable camera ->
  exists camera',
    M7_Camera_Translate dx dy camera = Ok (tt, (camera', [])) /\
    camera' = set_position (position camera') camera /\
    distance2 (position camera) (position camera') = dx * dx + dy * dy /\
    M7_Camera_Translate (- dx) (- dy) camera' = Ok (tt, (camera, [])) /\
    (forall dx' dy' : float,
        exists camera'',
          M7_Camera_Translate dx' dy' camera' = Ok (tt, (camera'', [])) /\
          M7_Camera_Translate (dx + dx') (dy + dy') camera = Ok (tt, (camera'', []))).
Proof.
  intros Hreach. apply reachable_inv in Hreach as (Hrot & _).
  unfold rotMat_ok in Hrot.
  eexists. split; [reflexivity | ]. split; [reflexivity | ].
  split; [ | split].
  - unfold distance2. simpl. rewrite Hrot. simpl.
    rewrite <- (rotation_keeps_length (rotation camera) dx dy). ring.
  - cbv [M7_Camera_Translate andThen get M7_Camera_SetPosition modify]. simpl.
    do 3 f_equal. etransitivity; [ | apply (set_position_same camera)].
    unfold set_position. simpl. f_equal.
    destruct (position camera) as [x y]. simpl. apply Vector2_eq; ring.
  - intros dx' dy'. eexists. split; [reflexivity | ].
    cbv [M7_Camera_Translate andThen get M7_Camera_SetPosition modify]. simpl.
    do 3 f_equal. unfold set_position. simpl. f_equal. apply Vector2_eq; ring.
Qed.

(** [M7_Camera_Rotate] adds to the rotation and never reduces it modulo a
    turn.  Two rotations in a row leave the camera, and send the matrix to
    the shader, that the rotation by the sum does; on a reachable camera the
    rotation by the opposite angle restores the camera. *)
Theorem M7_Camera_Rotate_adds (camera : M7_Camera) (a b : float) :
  exists camera1 camera2 calls1 calls2,
    M7_Camera_Rotate a camera = Ok (tt, (camera1, calls1)) /\
    rotation camera1 = rotation camera + a /\
    M7_Camera_Rotate b camera1 = Ok (tt, (camera2, calls2)) /\
    M7_Camera_Rotate (a + b) camera = Ok (tt, (camera2, calls2)) /\
    (reachable camera ->
     exists calls3, M7_Camera_Rotate (- a) camera1 = Ok (tt, (camera, calls3))).
Proof.
  eexists. eexists. eexists. eexists.
  split; [reflexivity | ]. split; [reflexivity | ]. split; [reflexivity | ].
  split.
  - cbv [M7_Camera_Rotate M7_Camera_SetRotation andThen get modify call]. simpl.
    replace (rotation camera + (a + b)) with (rotation camera + a + b) by ring.
    reflexivity.
  - intros Hreach. apply reachable_inv in Hreach as (Hrot & _).
    unfold rotMat_ok in Hrot. eexists.
    cbv [M7_Camera_Rotate M7_Camera_SetRotation andThen get modify call]. simpl.
    replace (rotation camera + a + - a) with (rotation camera) by ring.
    do 3 f_equal. unfold set_rotMat, set_rotation. simpl.
    fold (rotation_matrix (rotation camera)). rewrite <- Hrot.
    destruct camera; reflexivity.
Qed.

(** On every reachable camera [M7_Camera_Move] has a result, never
    dividing by zero.  It moves the camera by exactly |speed * frame time|
    when a direction key is down without its opposite, diagonals included,
    and not at all otherwise; it adds the turn keys times the frame time to
    the rotation and leaves the matrix of the new rotation; it adds to the
    field of view, the zoom and the offset without any bound, so that each
    can reach zero or less; it leaves the aspect and the buffer alone. *)
Theorem M7_Camera_Move_moves (camera : M7_Camera) (input : Input) (speed : float) :
  reachable camera ->
  let dt := GetFrameTime input in
  exists camera' calls,
    M7_Camera_Move input speed camera = Ok (tt, (camera', calls)) /\
    (KEY_A input <> KEY_D input \/ KEY_W input <> KEY_S input ->
     distance2 (position camera) (position camera') = (speed * dt) * (speed * dt)) /\
    (KEY_A input = KEY_D input -> KEY_W input = KEY_S input ->
     position camera' = position camera) /\
    rotation camera' = rotation camera + keys (KEY_RIGHT input) (KEY_LEFT input) * dt /\
    rotMat camera' = rotation_matrix (rotation camera') /\
    fov camera' = fov camera + - GetMouseWheelMove input * 0.1 /\
    zoom camera' = zoom camera + keys (KEY_DOWN input) (KEY_UP input) * (speed * dt) /\
    offset camera' = offset camera + keys (KEY_PAGE_DOWN input) (KEY_PAGE_UP input) * dt /\
    aspect camera' = aspect camera /\ buffer camera' = buffer camera.
Proof.
  intros Hreach dt. apply reachable_inv in Hreach as (Hrot & _).
  unfold rotMat_ok in Hrot.
  eexists. eexists. split; [apply M7_Camera_Move_run | ].
  destruct (Move_direction_length input) as [Hunit Hstill].
  simpl. fold dt. split; [ | split; [ | repeat split]].
  - intros Hkeys. specialize (Hunit Hkeys).
    unfold distance2. simpl. rewrite Hrot. simpl.
    set (d := Move_direction input) in *.
    replace ((Vector2.x (position camera)
              + (fst d * (speed * dt) * cos (rotation camera)
                 + snd d * (speed * dt) * - sin (rotation camera))
              - Vector2.x (position camera))
             * (Vector2.x (position camera)
                + (fst d * (speed * dt) * cos (rotation camera)
                   + snd d * (speed * dt) * - sin (rotation camera))
                - Vector2.x (position camera))
             + (Vector2.y (position camera)
                + (fst d * (speed * dt) * sin (rotation camera)
                   + snd d * (speed * dt) * cos (rotation camera))
                - Vector2.y (position camera))
               * (Vector2.y (position camera)
                  + (fst d * (speed * dt) * sin (rotation camera)
                     + snd d * (speed * dt) * cos (rotation camera))
                  - Vector2.y (position camera)))
      with ((fst d * (speed * dt) * cos (rotation camera)
             + snd d * (speed * dt) * - sin (rotation camera))
            * (fst d * (speed * dt) * cos (rotation camera)
               + snd d * (speed * dt) * - sin (rotation camera))
            + (fst d * (speed * dt) * sin (rotation camera)
               + snd d * (speed * dt) * cos (rotation camera))
              * (fst d * (speed * dt) * sin (rotation camera)
                 + snd d * (speed * dt) * cos (rotation camera))) by ring.
    rewrite rotation_keeps_length.
    replace (fst d * (speed * dt) * (fst d * (speed * dt))
             + snd d * (speed * dt) * (snd d * (speed * dt)))
      with ((fst d * fst d + snd d * snd d) * (speed * dt * (speed * dt))) by ring.
    rewrite Hunit. ring.
  - intros Hx Hy. rewrite (Hstill Hx Hy). simpl.
    destruct (position camera) as [x y]. simpl. apply Vector2_eq; ring.
Qed.
End Moving.

Lemma M7_Camera_Translate_moves_witness :
  exists camera',
    M7_Camera_Translate 3 4 small_camera = Ok (tt, (camera', [])) /\
    distance2 (position small_camera) (position camera') = 3 * 3 + 4 * 4.
Proof.
  destruct (M7_Camera_Translate_moves (H := insertion_sort_LibC) small_camera 3 4
              small_camera_reachable) as (camera' & Ht & _ & Hd & _).
  exists camera'. split; assumption.
Defined.

Lemma M7_Camera_Rotate_adds_witness :
  exists camera1 calls,
    M7_Camera_Rotate 1 small_camera = Ok (tt, (camera1, calls)) /\
    exists calls3, M7_Camera_Rotate (- 1) camera1 = Ok (tt, (small_camera, calls3)).
Proof.
  destruct (M7_Camera_Rotate_adds (H := insertion_sort_LibC) small_camera 1 0)
    as (camera1 & camera2 & calls1 & calls2 & H1 & _ & _ & _ & Hback).
  exists camera1, calls1. split; [exact H1 | ].
  exact (Hback small_camera_reachable).
Defined.

Lemma M7_Camera_Move_moves_witness :
  exists camera' calls,
    M7_Camera_Move keys_up_left 64 small_camera = Ok (tt, (camera', calls)) /\
    distance2 (position small_camera) (position camera')
    = (64 * (1 / 60)) * (64 * (1 / 60)).
Proof.
  destruct (M7_Camera_Move_moves (H := insertion_sort_LibC) small_camera keys_up_left 64
              small_camera_reachable) as (camera' & calls & Hm & Hd & _).
  exists camera', calls. split; [exact Hm | ].
  apply Hd. left. simpl. discriminate.
Defined.

(** ** The two transforms are inverse of each other, whatever the rotation *)

(** The algebra of the two round trips for a camera whose matrix is the
    matrix of an angle and whose aspect is the width of the target over its
    height. *)
Lemma round_trip_rotated (camera : M7_Camera) (point : Vector2.t) (theta : float) :
  let width := Texture2D.width (RenderTexture.texture (target camera)) in
  let height := Texture2D.height (RenderTexture.texture (target camera)) in
  rotMat camera = rotation_matrix theta ->
  aspect camera = IZR width / IZR height ->
  IZR width <> 0 -> IZR height <> 0 ->
  zoom camera <> 0 -> fov camera <> 0 -> offset camera <> 0 ->
  ToScreen_distance camera point <> 0 ->
  exists v,
    M7_ToScreen camera point = Ok v /\
    Vector3.y v = offset camera * IZR height / ToScreen_distance camera point /\
    M7_ToWorld camera (Vector2.mk (Vector3.x v) (Vector3.y v)) = Ok point.
Proof.
  intros width height Hrot Hasp HW HH Hz Hf Ho Hd.
  pose proof (sin2_cos2_1 theta) as Hsc.
  assert (sin theta * sin theta = 1 - cos theta * cos theta) as Hss by lra.
  eexists. split; [apply M7_ToScreen_Ok; assumption | ].
  fold width height. simpl Vector3.x. simpl Vector3.y.
  set (d := ToScreen_distance camera point) in *.
  assert (ToScreen_spaceY camera point = 1 - d) as HsY by (unfold d, ToScreen_distance; lra).
  assert ((ToScreen_spaceY camera point + offset camera - 1) / d * IZR height + IZR height
          = offset camera * IZR height / d) as HY.
  { rewrite HsY. field. exact Hd. }
  split; [exact HY | ].
  rewrite HY.
  assert (offset camera * IZR height / d <> 0) as HYnz.
  { unfold Rdiv. apply Rmult_integral_contrapositive. split.
    - apply Rmult_integral_contrapositive. split; assumption.
    - apply Rinv_neq_0_compat. exact Hd. }
  assert (aspect camera <> 0) as Hanz.
  { rewrite Hasp. unfold Rdiv. apply Rmult_integral_contrapositive. split; [assumption | ].
    apply Rinv_neq_0_compat. exact HH. }
  rewrite M7_ToWorld_Ok by assumption.
  fold width height. simpl Vector2.x. simpl Vector2.y. rewrite Hasp.
  assert (d = 1 - (- (Vector2.x (position camera) - Vector2.x point) / zoom camera
                   * sin theta
                   + (Vector2.y (position camera) - Vector2.y point) / zoom camera
                     * cos theta) * fov camera) as Hdv.
  { unfold d, ToScreen_distance, ToScreen_spaceY. rewrite Hrot. reflexivity. }
  unfold ToScreen_spaceX. rewrite Hrot. simpl.
  destruct point as [px py]. simpl in *.
  set (cx := Vector2.x (position camera)) in *.
  set (cy := Vector2.y (position camera)) in *.
  set (z := zoom camera) in *. set (f := fov camera) in *. set (o := offset camera) in *.
  set (W := IZR width) in *. set (Hh := IZR height) in *.
  set (s := sin theta) in *. set (c := cos theta) in *.
  assert (z - (- (cx - px) * s + (cy - py) * c) * f <> 0) as Hnz.
  { assert (d * z = z - (- (cx - px) * s + (cy - py) * c) * f)
      as Hdz by (rewrite Hdv; field; exact Hz).
    intros H0. rewrite H0 in Hdz. apply Rmult_integral in Hdz as [ | ]; contradiction. }
  f_equal. apply Vector2_eq.
  - rewrite Hdv. field [Hss]. repeat split; assumption.
  - rewrite Hdv. field [Hss]. repeat split; assumption.
Qed.

Lemma screen_round_trip_rotated (camera : M7_Camera) (pixel : Vector2.t) (theta : float) :
  let width := Texture2D.width (RenderTexture.texture (target camera)) in
  let height := Texture2D.height (RenderTexture.texture (target camera)) in
  rotMat camera = rotation_matrix theta ->
  aspect camera = IZR width / IZR height ->
  IZR width <> 0 -> IZR height <> 0 ->
  zoom camera <> 0 -> fov camera <> 0 -> offset camera <> 0 ->
  Vector2.y pixel <> 0 ->
  exists w,
    M7_ToWorld camera pixel = Ok w /\
    ToScreen_distance camera w = offset camera * IZR height / Vector2.y pixel /\
    M7_ToScreen camera w
    = Ok (Vector3.mk (Vector2.x pixel) (Vector2.y pixel)
            (IZR width * Vector2.y pixel / (zoom camera * IZR height))).
Proof.
  intros width height Hrot Hasp HW HH Hz Hf Ho Hy.
  pose proof (sin2_cos2_1 theta) as Hsc.
  assert (sin theta * sin theta = 1 - cos theta * cos theta) as Hss by lra.
  assert (aspect camera <> 0) as Hanz.
  { rewrite Hasp. unfold Rdiv. apply Rmult_integral_contrapositive. split; [assumption | ].
    apply Rinv_neq_0_compat. exact HH. }
  eexists. split; [apply M7_ToWorld_Ok; assumption | ].
  fold width height. rewrite Hasp, Hrot.
  destruct pixel as [X Y]. simpl in Hy. simpl.
  set (cx := Vector2.x (position camera)) in *.
  set (cy := Vector2.y (position camera)) in *.
  set (z := zoom camera) in *. set (f := fov camera) in *. set (o := offset camera) in *.
  set (W := IZR width) in *. set (Hh := IZR height) in *. set (Wq := IZR (width ÷ 2)) in *.
  set (s := sin theta) in *. set (c := cos theta) in *.
  set (w := Vector2.mk
              (((Wq - X) * (z / (W / Hh)) * c + (o * Hh - Y) * (z / f) * - s) / Y + cx)
              (((Wq - X) * (z / (W / Hh)) * s + (o * Hh - Y) * (z / f) * c) / Y + cy)).
  assert (ToScreen_spaceY camera w = 1 - o * Hh / Y) as HsY.
  { unfold ToScreen_spaceY. rewrite Hrot. unfold w. simpl. fold cx cy z f s c.
    field [Hss]. repeat split; assumption. }
  assert (ToScreen_distance camera w = o * Hh / Y) as Hd.
  { unfold ToScreen_distance. rewrite HsY. ring. }
  assert (o * Hh / Y <> 0) as Hdnz.
  { unfold Rdiv. apply Rmult_integral_contrapositive. split.
    - apply Rmult_integral_contrapositive. split; assumption.
    - apply Rinv_neq_0_compat. exact Hy. }
  split; [exact Hd | ].
  rewrite M7_ToScreen_Ok; [ | exact Hz | rewrite Hd; exact Hdnz].
  rewrite Hd, HsY. fold width height W Hh Wq o z.
  assert (ToScreen_spaceX camera w = (X - Wq) * Hh / (W * Y)) as HsX.
  { unfold ToScreen_spaceX. rewrite Hrot. unfold w. simpl. fold cx cy z f s c.
    field [Hss]. repeat split; assumption. }
  rewrite HsX. f_equal. apply Vector3_eq; field; repeat split; assumption.
Qed.

Section BothWays.
Context `{LibC}.

(** On every reachable camera whose target is at least as wide as it is
    high, whatever its rotation and its position, with zoom, field of view
    and offset other than zero: a world point whose distance is not zero
    goes to a pixel that [M7_ToWorld] brings back to it, exactly. *)
Theorem ToWorld_inverts_ToScreen_rotated (camera : M7_Camera) (point : Vector2.t) :
  reachable camera ->
  (Texture2D.height (RenderTexture.texture (target camera))
   <= Texture2D.width (RenderTexture.texture (target camera)))%Z ->
  (0 < Texture2D.height (RenderTexture.texture (target camera)))%Z ->
  zoom camera <> 0 -> fov camera <> 0 -> offset camera <> 0 ->
  ToScreen_distance camera point <> 0 ->
  exists v,
    M7_ToScreen camera point = Ok v /\
    M7_ToWorld camera (Vector2.mk (Vector3.x v) (Vector3.y v)) = Ok point.
Proof.
  intros Hreach Hle Hpos Hz Hf Ho Hd.
  apply reachable_inv in Hreach as (Hrot & _ & _ & Hasp).
  rewrite Z.max_l, Z.min_r in Hasp by lia.
  destruct (round_trip_rotated camera point (rotation camera)) as (v & Hv & _ & Hw);
    try assumption.
  - apply not_0_IZR. lia.
  - apply not_0_IZR. lia.
  - exists v. split; assumption.
Qed.

(** On the same cameras a pixel whose vertical coordinate is not zero goes
    to a world point of distance [offset * height / y], which
    [M7_ToScreen] brings back to the pixel, with the apparent size
    [width * y / (zoom * height)]: the size grows linearly down the
    screen. *)
Theorem ToScreen_inverts_ToWorld (camera : M7_Camera) (pixel : Vector2.t) :
  reachable camera ->
  (Texture2D.height (RenderTexture.texture (target camera))
   <= Texture2D.width (RenderTexture.texture (target camera)))%Z ->
  (0 < Texture2D.height (RenderTexture.texture (target camera)))%Z ->
  zoom camera <> 0 -> fov camera <> 0 -> offset camera <> 0 ->
  Vector2.y pixel <> 0 ->
  exists w,
    M7_ToWorld camera pixel = Ok w /\
    ToScreen_distance camera w
    = offset camera * IZR (Texture2D.height (RenderTexture.texture (target camera)))
      / Vector2.y pixel /\
    M7_ToScreen camera w
    = Ok (Vector3.mk (Vector2.x pixel) (Vector2.y pixel)
            (IZR (Texture2D.width (RenderTexture.texture (target camera))) * Vector2.y pixel
             / (zoom camera
                * IZR (Texture2D.height (RenderTexture.texture (target camera)))))).
Proof.
  intros Hreach Hle Hpos Hz Hf Ho Hy.
  apply reachable_inv in Hreach as (Hrot & _ & _ & Hasp).
  rewrite Z.max_l, Z.min_r in Hasp by lia.
  apply (screen_round_trip_rotated camera pixel (rotation camera)); try assumption.
  - apply not_0_IZR. lia.
  - apply not_0_IZR. lia.
Qed.
End BothWays.

Lemma turned_camera_reachable : reachable (H := insertion_sort_LibC) turned_camera.
Proof.
  apply (reachable_step (H := insertion_sort_LibC) small_camera (Op_Rotate 1) None _
           [glUseProgram 3; glUniformMatrix2fv 3 1 false (rotation_matrix (0 + 1))]
           small_camera_reachable).
  reflexivity.
Defined.

Lemma ToWorld_inverts_ToScreen_rotated_witness :
  exists v,
    M7_ToScreen turned_camera (Vector2.mk 0 0) = Ok v /\
    M7_ToWorld turned_camera (Vector2.mk (Vector3.x v) (Vector3.y v)) = Ok (Vector2.mk 0 0).
Proof.
  apply (ToWorld_inverts_ToScreen_rotated (H := insertion_sort_LibC)).
  - exact turned_camera_reachable.
  - simpl. lia.
  - simpl. lia.
  - simpl. lra.
  - simpl. lra.
  - simpl. lra.
  - change (Vector2.mk 0 0) with (position turned_camera).
    rewrite (proj2 (proj2 (camera_position_locals turned_camera ltac:(simpl; lra)))). lra.
Defined.

Lemma ToScreen_inverts_ToWorld_witness :
  exists w,
    M7_ToWorld turned_camera (Vector2.mk 100 200) = Ok w /\
    M7_ToScreen turned_camera w = Ok (Vector3.mk 100 200 (1280 * 200 / (80 * 720))).
Proof.
  destruct (ToScreen_inverts_ToWorld (H := insertion_sort_LibC) turned_camera
              (Vector2.mk 100 200)) as (w & Hw & _ & Hs).
  - exact turned_camera_reachable.
  - simpl. lia.
  - simpl. lia.
  - simpl. lra.
  - simpl. lra.
  - simpl. lra.
  - simpl. lra.
  - exists w. split; [exact Hw | exact Hs].
Defined.

(** ** The divisors of a frame *)

Lemma M7_ZBuffer_Element_Update_Err (elem : M7_ZBuffer_Element) (camera : M7_Camera)
    (f : Fault) :
  M7_ZBuffer_Element_Update elem camera = Err f -> f = NonFinite.
Proof.
  unfold M7_ZBuffer_Element_Update. intros Hu.
  destruct (M7_ToScreen camera (SpaceData.position (onWorld elem))) as [v | e] eqn:Hv;
    simpl in Hu.
  - unfold bind in Hu.
    repeat match type of Hu with
           | match fdiv ?a ?b with _ => _ end = _ =>
               let E := fresh "E" in
               destruct (fdiv a b) eqn:E;
               [ | apply fdiv_Err in E as [_ ->]; congruence]
           end.
    discriminate.
  - inversion Hu; subst. eapply M7_ToScreen_Err. exact Hv.
Qed.

(** An element can be updated exactly when the zoom, its distance and the
    width and the height of its world rectangle are not zero. *)
Lemma M7_ZBuffer_Element_Update_Ok_iff (elem : M7_ZBuffer_Element) (camera : M7_Camera) :
  (exists elem', M7_ZBuffer_Element_Update elem camera = Ok elem') <->
  zoom camera <> 0 /\
  ToScreen_distance camera (SpaceData.position (onWorld elem)) <> 0 /\
  Rectangle.width (SpaceData.rectangle (onWorld elem)) <> 0 /\
  Rectangle.height (SpaceData.rectangle (onWorld elem)) <> 0.
Proof.
  split.
  - intros [elem' Hu].
    apply M7_ZBuffer_Element_Update_Ok_inv in Hu as (v & Hv & Hw & Hh & _).
    apply M7_ToScreen_Ok_inv in Hv as [Hz Hd]. auto.
  - intros (Hz & Hd & Hw & Hh). unfold M7_ZBuffer_Element_Update.
    rewrite (M7_ToScreen_Ok _ _ Hz Hd). simpl.
    rewrite !fdiv_Ok by assumption. simpl. eexists. reflexivity.
Qed.

(** The loop of [M7_ZBuffer_Update] over pointers to written slots: it
    stops only at an element whose update divides by zero. *)
Lemma M7_ZBuffer_Update_loop_Err (camera0 : M7_Camera) (es0 : list (option M7_ZBuffer_Element)) :
  forall (n i : nat) (es1 : list (option M7_ZBuffer_Element)) (f : Fault),
    length es1 = length es0 ->
    (forall j, es1 !! j = es0 !! j \/ updated_slot camera0 es0 es1 j) ->
    (forall k, (i <= k < i + n)%nat ->
               exists p e0, ptrElems (buffer camera0) !! k = Some (Some p) /\
                            es0 !! p = Some (Some e0)) ->
    M7_ZBuffer_Update_loop i n (set_buffer (set_elems es1 (buffer camera0)) camera0)
    = Err f ->
    f = NonFinite /\
    exists k p e0, (i <= k < i + n)%nat /\
                   ptrElems (buffer camera0) !! k = Some (Some p) /\
                   es0 !! p = Some (Some e0) /\
                   M7_ZBuffer_Element_Update e0 camera0 = Err NonFinite.
Proof.
  induction n as [ | n IH]; intros i es1 f Hlen Hinv Hvalid Hloop; [discriminate | ].
  simpl in Hloop.
  destruct (Hvalid i) as (p & e0 & Hp & He0); [lia | ].
  rewrite (proj2 (load_Ok _ _ _) Hp) in Hloop. simpl in Hloop.
  assert (exists elem, es1 !! p = Some (Some elem) /\
                       (elem = e0 \/
                        M7_ZBuffer_Element_Update e0 camera0 = Ok elem)) as (elem & Helem & Hcase).
  { destruct (Hinv p) as [Hsame | (e & e' & H0 & Hu & H1)].
    - exists e0. split; [exact (eq_trans Hsame He0) | left; reflexivity].
    - pose proof (eq_trans (eq_sym H0) He0) as Hee. inversion Hee; subst e.
      exists e'. auto. }
  rewrite (proj2 (load_Ok _ _ _) Helem) in Hloop. simpl in Hloop.
  rewrite M7_ZBuffer_Element_Update_set_buffer in Hloop.
  destruct (M7_ZBuffer_Element_Update elem camera0) as [elem1 | e] eqn:Hu; simpl in Hloop.
  - assert (M7_ZBuffer_Element_Update e0 camera0 = Ok elem1) as Hu0.
    { destruct Hcase as [-> | Hu0]; [exact Hu | ].
      rewrite (M7_ZBuffer_Element_Update_idempotent _ _ _ Hu0) in Hu.
      inversion Hu; subst elem1. exact Hu0. }
    rewrite store_Ok in Hloop by (eapply lookup_lt_Some; exact Helem). simpl in Hloop.
    apply (IH (S i) (<[p := Some elem1]> es1)) in Hloop as (-> & k & q & e & Hk & Hq & He & Hue).
    + split; [reflexivity | ]. exists k, q, e. repeat split; try assumption; lia.
    + rewrite length_insert. exact Hlen.
    + intros j. destruct (decide (j = p)) as [-> | Hne].
      * right. exists e0, elem1. split; [exact He0 | ]. split; [exact Hu0 | ].
        apply list_lookup_insert_eq. eapply lookup_lt_Some. exact Helem.
      * destruct (Hinv j) as [Hsame | (e & e' & H0 & Hue & H1)].
        -- left. rewrite list_lookup_insert_ne by congruence. exact Hsame.
        -- right. exists e, e'. rewrite list_lookup_insert_ne by congruence. auto.
    + intros k Hk. apply Hvalid. lia.
  - inversion Hloop; subst e.
    apply M7_ZBuffer_Element_Update_Err in Hu as Hf. subst f.
    split; [reflexivity | ]. exists i, p, e0.
    split; [lia | ]. split; [exact Hp | ]. split; [exact He0 | ].
    destruct Hcase as [-> | Hu0]; [exact Hu | ].
    rewrite (M7_ZBuffer_Element_Update_idempotent _ _ _ Hu0) in Hu. discriminate.
Qed.

Lemma wf_pointers (b : M7_ZBuffer) :
  wf b ->
  forall k, (k < Z.to_nat (count b))%nat ->
            exists p e, ptrElems b !! k = Some (Some p) /\ (p < Z.to_nat (count b))%nat /\
                        elems b !! p = Some (Some e).
Proof.
  intros (Hc & Hm & He & Hp & Hw & Hperm) k Hk.
  assert (is_Some (take (Z.to_nat (count b)) (ptrElems b) !! k)) as [c Hc'].
  { apply lookup_lt_is_Some. rewrite length_take. lia. }
  assert (c ∈ take (Z.to_nat (count b)) (ptrElems b)) as Hin
      by (apply list_elem_of_lookup; exists k; exact Hc').
  rewrite Hperm in Hin. apply list_elem_of_fmap in Hin as (p & -> & Hin).
  apply list_elem_of_In, in_seq in Hin.
  destruct (Hw p) as [e Hpe]; [lia | ].
  apply lookup_take_Some in Hc' as [Hc' _].
  exists p, e. split; [exact Hc' | ]. split; [lia | exact Hpe].
Qed.

(** On a well-formed buffer [M7_ZBuffer_Update] makes no access out of
    bounds: it has a result exactly when every registered element can be
    updated. *)
Lemma M7_ZBuffer_Update_outcome (camera : M7_Camera) :
  wf (buffer camera) ->
  (exists camera', M7_ZBuffer_Update camera = Ok camera' /\ wf (buffer camera')) \/
  (M7_ZBuffer_Update camera = Err NonFinite /\
   exists j e, (j < Z.to_nat (count (buffer camera)))%nat /\
               elems (buffer camera) !! j = Some (Some e) /\
               M7_ZBuffer_Element_Update e camera = Err NonFinite).
Proof.
  intros Hwf.
  destruct (M7_ZBuffer_Update camera) as [camera' | f] eqn:Hu.
  - left. exists camera'. split; [reflexivity | ].
    apply M7_ZBuffer_Update_frame in Hu as (es & -> & Hlen & Hkeep). simpl.
    apply wf_set_elems; assumption.
  - right. unfold M7_ZBuffer_Update in Hu.
    rewrite <- (set_elems_same camera) in Hu at 2.
    apply (M7_ZBuffer_Update_loop_Err camera (elems (buffer camera))) in Hu
      as (-> & k & p & e & Hk & Hp & He & Hue); [ | reflexivity | auto | ].
    + split; [reflexivity | ].
      destruct (wf_pointers _ Hwf k) as (q & e' & Hq & Hlt & _); [lia | ].
      pose proof (eq_trans (eq_sym Hq) Hp) as Hqp. inversion Hqp; subst q.
      exists p, e. auto.
    + intros k Hk. destruct (wf_pointers _ Hwf k) as (q & e' & Hq & _ & He'); [lia | ].
      exists q, e'. auto.
Qed.

Section Frame.
Context `{LibC}.

(** The three stages of [M7_Camera_End], one after the other. *)
Lemma M7_Camera_End_stages (camera : M7_Camera) :
  M7_Camera_End camera =
  match M7_ZBuffer_Update camera with
  | Err f => Err f
  | Ok camera1 =>
      match M7_ZBuffer_Sort (buffer camera1) with
      | Err f => Err f
      | Ok b2 =>
          match M7_ZBuffer_Draw b2 with
          | Err f => Err f
          | Ok draws => Ok (tt, (set_buffer b2 camera1, draws ++ [EndTextureMode]))
          end
      end
  end.
Proof.
  unfold M7_Camera_End, andThen, update.
  destruct (M7_ZBuffer_Update camera) as [c1 | f]; [ | reflexivity].
  destruct (M7_ZBuffer_Sort (buffer c1)) as [b2 | f]; simpl bind; [ | reflexivity].
  unfold get, lift. simpl buffer.
  destruct (M7_ZBuffer_Draw b2) as [draws | f]; reflexivity.
Qed.

(** After the update, the rest of [M7_Camera_End] always has a result on a
    well-formed buffer. *)
Lemma M7_Camera_End_outcome (camera : M7_Camera) :
  wf (buffer camera) ->
  match M7_ZBuffer_Update camera with
  | Ok camera1 =>
      exists b2 cs,
        cells (buffer camera1) 0 (Z.to_nat (count (buffer camera1))) = Ok cs /\
        M7_ZBuffer_Sort (buffer camera1) = Ok b2 /\
        cells b2 0 (Z.to_nat (count b2))
        = Ok (qsort (fun a b => M7_ZBuffer_Compare (snd a) (snd b)) cs) /\
        M7_Camera_End camera =
        Ok (tt, (set_buffer b2 camera1,
                 concat (map (fun c => M7_ZBuffer_Element_Draw (snd c))
                           (qsort (fun a b => M7_ZBuffer_Compare (snd a) (snd b)) cs))
                 ++ [EndTextureMode]))
  | Err f => M7_Camera_End camera = Err f
  end.
Proof.
  intros Hwf. rewrite M7_Camera_End_stages.
  destruct (M7_ZBuffer_Update_outcome camera Hwf) as [(c1 & Hu & Hwf1) | (Hu & _)];
    rewrite Hu; [ | reflexivity].
  destruct (wf_cells _ Hwf1) as [cs Hcs].
  destruct (M7_ZBuffer_Sort_wf _ cs Hwf1 Hcs) as (Hsort & Hcells & Hwf2).
  eexists. exists cs. split; [exact Hcs | ]. split; [exact Hsort | ].
  split; [exact Hcells | ].
  rewrite Hsort. rewrite (M7_ZBuffer_Draw_cells _ _ Hcells). reflexivity.
Qed.


End Frame.

(** ** What a frame draws and what it changes *)

Lemma omap_Some {A : Type} (l : list A) : omap (fun x : option A => x) (map Some l) = l.
Proof. induction l as [ | a l IH]; simpl; [reflexivity | f_equal; exact IH]. Qed.

Lemma Permutation_map_Some {A : Type} (l1 l2 : list A) :
  Permutation (map Some l1) (map Some l2) -> Permutation l1 l2.
Proof.
  intros Hp. rewrite <- (omap_Some l1), <- (omap_Some l2).
  apply (omap_Permutation (fun x : option A => x)). exact Hp.
Qed.

(** The pointers in use of a well-formed buffer are the addresses of the
    registered slots, each once. *)
Lemma wf_cells_Permutation (b : M7_ZBuffer) (cs : list (ptr * M7_ZBuffer_Element)) :
  wf b ->
  cells b 0 (Z.to_nat (count b)) = Ok cs ->
  Permutation (map fst cs) (seq 0 (Z.to_nat (count b))) /\
  Forall (fun c => elems b !! fst c = Some (Some (snd c))) cs.
Proof.
  intros (_ & _ & _ & _ & _ & Hperm) Hcs.
  apply cells_spec in Hcs as (_ & Hmap & Hall). rewrite drop_0 in Hmap.
  split; [ | exact Hall].
  apply Permutation_map_Some. rewrite map_map. rewrite Hmap. exact Hperm.
Qed.

Section FrameEffects.
Context `{LibC}.

(** On every reachable camera, when [M7_Camera_End] has a result, its calls
    are the draw calls of the registered elements, each element once, in an
    order in which the [distance] fields do not decrease, followed by
    [EndTextureMode]: no element is skipped or visited twice, whatever the
    earlier frames did to the pointer array, and equal distances are
    allowed. *)
Theorem M7_Camera_End_draws_each_element_once (camera camera' : M7_Camera)
    (calls : list Call) :
  reachable camera ->
  M7_Camera_End camera = Ok (tt, (camera', calls)) ->
  exists cs : list (ptr * M7_ZBuffer_Element),
    Permutation (map fst cs) (seq 0 (Z.to_nat (count (buffer camera)))) /\
    Forall (fun c => elems (buffer camera') !! fst c = Some (Some (snd c))) cs /\
    StronglySorted Rle (distances cs) /\
    calls = concat (map (fun c => M7_ZBuffer_Element_Draw (snd c)) cs) ++ [EndTextureMode].
Proof.
  intros Hreach Hend. apply reachable_inv in Hreach as (_ & Hwf & _).
  pose proof (M7_Camera_End_outcome camera Hwf) as Hout.
  destruct (M7_ZBuffer_Update camera) as [c1 | f] eqn:Hu; [ | congruence].
  destruct Hout as (b2 & cs & Hcs & Hsort & Hcells & Hend').
  rewrite Hend' in Hend. inversion Hend; subst camera' calls; clear Hend.
  assert (wf (buffer c1)) as Hwf1.
  { apply M7_ZBuffer_Update_frame in Hu as (es & -> & Hlen & Hkeep). simpl.
    apply wf_set_elems; assumption. }
  assert (count (buffer c1) = count (buffer camera)) as Hcount.
  { apply M7_ZBuffer_Update_frame in Hu as (es & -> & _). reflexivity. }
  destruct (wf_cells_Permutation _ cs Hwf1 Hcs) as [Hperm Hall].
  apply M7_ZBuffer_Sort_frame in Hsort as (Helems & _ & _).
  set (sorted := qsort (fun a b => M7_ZBuffer_Compare (snd a) (snd b)) cs) in *.
  pose proof (qsort_Permutation _ (fun a b => M7_ZBuffer_Compare (snd a) (snd b)) cs) as Hq.
  fold sorted in Hq.
  exists sorted. split; [ | split; [ | split; [ | reflexivity]]].
  - rewrite Hq, Hperm, Hcount. reflexivity.
  - simpl. rewrite Helems, Hq. exact Hall.
  - unfold distances.
    apply (StronglySorted_map (fun c : ptr * M7_ZBuffer_Element => distance (snd c)) Rle).
    pose proof (qsort_ascending _ _ cs M7_ZBuffer_Compare_consistent) as Hs.
    fold sorted in Hs.
    eapply StronglySorted_weaken; [ | exact Hs].
    intros x y. simpl. apply M7_ZBuffer_Compare_le.
Qed.

(** On every reachable camera [M7_Camera_End] changes nothing but the
    buffer, and in the buffer neither the count nor the capacity: every
    registered element keeps its slot, its world-space data, its texture,
    its tint and its type, and gets the screen-space data and the distance
    of its update; the slots beyond the count are left as they were.  The
    screen-space data and the distance that an element had before are not
    read. *)
Theorem M7_Camera_End_keeps_what_was_registered (camera camera' : M7_Camera)
    (calls : list Call) :
  reachable camera ->
  M7_Camera_End camera = Ok (tt, (camera', calls)) ->
  camera' = set_buffer (buffer camera') camera /\
  count (buffer camera') = count (buffer camera) /\
  maxCount (buffer camera') = maxCount (buffer camera) /\
  (forall j, (j < Z.to_nat (count (buffer camera)))%nat ->
             exists elem elem',
               elems (buffer camera) !! j = Some (Some elem) /\
               elems (buffer camera') !! j = Some (Some elem') /\
               M7_ZBuffer_Element_Update elem camera = Ok elem' /\
               onWorld elem' = onWorld elem /\ texture elem' = texture elem /\
               tint elem' = tint elem /\ type elem' = type elem) /\
  (forall j, (Z.to_nat (count (buffer camera)) <= j)%nat ->
             elems (buffer camera') !! j = elems (buffer camera) !! j).
Proof.
  intros Hreach Hend. apply reachable_inv in Hreach as (_ & Hwf & _).
  apply M7_Camera_End_inv in Hend as (c1 & b2 & draws & Hu & Hs & -> & _ & _).
  apply M7_ZBuffer_Update_spec in Hu as (es & -> & Hlen & Hupd & Hrest); [ | exact Hwf].
  apply M7_ZBuffer_Sort_frame in Hs as (He & Hm & Hc). simpl in He, Hm, Hc. simpl.
  split; [reflexivity | ]. split; [exact Hc | ]. split; [exact Hm | ].
  rewrite He. split; [ | exact Hrest].
  intros j Hj. destruct (Hupd j Hj) as (e & e' & H0 & Hue & H1).
  exists e, e'. split; [exact H0 | ]. split; [exact H1 | ]. split; [exact Hue | ].
  apply M7_ZBuffer_Element_Update_Ok_inv in Hue as (v & _ & _ & _ & ->).
  simpl. auto.
Qed.

Lemma M7_Camera_End_count_0 (camera : M7_Camera) :
  count (buffer camera) = 0%Z ->
  M7_Camera_End camera = Ok (tt, (camera, [EndTextureMode])).
Proof.
  intros Hc. rewrite M7_Camera_End_stages.
  unfold M7_ZBuffer_Update. rewrite Hc. simpl.
  unfold M7_ZBuffer_Sort. rewrite Hc. simpl.
  pose proof (qsort_Permutation _ (fun a b : ptr * M7_ZBuffer_Element =>
                                     M7_ZBuffer_Compare (snd a) (snd b)) []) as Hq.
  apply Permutation_sym, Permutation_nil in Hq. rewrite Hq. simpl.
  unfold M7_ZBuffer_Draw. simpl.
  change (Z.to_nat 0) with 0%nat. rewrite drop_0. do 3 f_equal.
  destruct camera as [? ? [? ? ? ?] ? ? ? ? ? ? ?]. simpl in *. subst. reflexivity.
Qed.

(** A frame on a camera without elements (none added, a capacity of 0, or
    after [M7_Camera_Unload]): [M7_Camera_End] leaves the camera as it is
    and only unbinds the target. *)
Theorem M7_Camera_End_without_elements (camera : M7_Camera) :
  count (buffer camera) = 0%Z ->
  M7_Camera_End camera = Ok (tt, (camera, [EndTextureMode])).
Proof.
  exact (M7_Camera_End_count_0 camera).
Qed.
End FrameEffects.

(** ** After the camera is unloaded *)

Section Unloaded.
Context `{LibC}.

(** [M7_Camera_Unload] releases the shader and the target, zeroes their
    identifiers and leaves a buffer without arrays, of capacity and count
    0.  On the camera it leaves every add returns [NULL] and changes
    nothing, a frame draws no element, unloading again leaves the same
    camera, and a write through a pointer that an add returned earlier is
    an access to freed memory. *)
Theorem M7_Camera_Unload_leaves_nothing (camera : M7_Camera) :
  exists camera',
    M7_Camera_Unload camera
    = Ok (tt, (camera', [UnloadShader (shader (planeProgram camera));
                         UnloadRenderTexture (target camera)])) /\
    buffer camera' = {| ptrElems := []; elems := []; maxCount := 0; count := 0 |} /\
    Shader.id (shader (planeProgram camera')) = 0%Z /\
    RenderTexture.id (target camera') = 0%Z /\
    Texture2D.id (RenderTexture.texture (target camera')) = 0%Z /\
    (forall a : AddArgs, do_add a camera' = Ok (None, (camera', []))) /\
    (forall (p : ptr) (w : SpaceData.t), write_onWorld p w camera' = Err OutOfBounds) /\
    M7_Camera_End camera' = Ok (tt, (camera', [EndTextureMode])) /\
    exists calls, M7_Camera_Unload camera' = Ok (tt, (camera', calls)).
Proof.
  eexists. split; [reflexivity | ]. split; [reflexivity | ].
  split; [reflexivity | ]. split; [reflexivity | ]. split; [reflexivity | ].
  split; [ | split; [ | split]].
  - intros a. rewrite do_add_add. reflexivity.
  - intros p w. unfold write_onWorld, update, load. simpl. destruct p; reflexivity.
  - apply M7_Camera_End_count_0. reflexivity.
  - eexists. reflexivity.
Qed.
End Unloaded.

(** ** Faults *)



Section UpdateOutcome.
Context `{LibC}.

End UpdateOutcome.

Section Faults.
Context `{LibC}.

End Faults.

(** ** The shader follows the camera *)

Section Uniforms.
Context `{LibC}.

Lemma step_buffer_only (op : Op) camera r camera' calls :
  step op camera = Ok (r, (camera', calls)) ->
  (op = Op_End \/
   (exists tex pos scale wrap backgroundColor, op = Op_Update tex pos scale wrap backgroundColor) \/
   (exists a, op = Op_Add a) \/
   (exists p w, op = Op_write_onWorld p w)) ->
  camera' = set_buffer (buffer camera') camera.
Proof.
  intros Hs Hop.
  assert (forall u c t, M7_Camera_End camera = Ok (u, (c, t)) ->
                        c = set_buffer (buffer c) camera) as Hend.
  { intros u c t He.
    apply M7_Camera_End_inv in He as (c1 & b2 & draws & Hu & _ & -> & _).
    apply M7_ZBuffer_Update_frame in Hu as (es & -> & _). reflexivity. }
  destruct Hop as [-> | [(tex & pos & scale & wrap & bg & ->) | [(a & ->) | (p & w & ->)]]];
    simpl in Hs; unfold no_ptr in Hs.
  - apply andThen_Ok in Hs as (u & c1 & t1 & t2 & Hu & Hr & _).
    inversion Hr; subst. eapply Hend. exact Hu.
  - apply andThen_Ok in Hs as (u & c1 & t1 & t2 & Hu & Hr & _).
    inversion Hr; subst; clear Hr.
    unfold M7_Camera_Update in Hu.
    apply andThen_Ok in Hu as (u1 & c1 & t1' & t2' & Hb & Hu & _).
    cbv [andThen get call M7_Camera_Begin] in Hb. inversion Hb; subst; clear Hb.
    apply andThen_Ok in Hu as (u2 & c2 & t1'' & t2'' & Hd & Hu & _).
    cbv [andThen get call M7_Camera_DrawPlane] in Hd. inversion Hd; subst; clear Hd.
    eapply Hend. exact Hu.
  - rewrite do_add_add in Hs. apply add_inv in Hs as (b' & _ & -> & _). reflexivity.
  - apply andThen_Ok in Hs as (u & c1 & t1 & t2 & Hu & Hr & _).
    inversion Hr; subst; clear Hr.
    apply write_onWorld_inv in Hu as (elem & _ & -> & _). reflexivity.
Qed.

(** Whenever an operation changes the zoom, the field of view, the offset
    or the rotation matrix of the camera, its calls send the new value to
    the uniform of that name in the shader of the camera: the shader is
    never left with another value than the camera.  (The position is not
    sent by its setter: every plane sends it with its own placement.) *)
Theorem changes_are_sent_to_the_shader (op : Op) camera r camera' calls :
  step op camera = Ok (r, (camera', calls)) ->
  let p := planeProgram camera in
  (zoom camera' <> zoom camera ->
   In (SetShaderValue_FLOAT (shader p) (locZoom p) (zoom camera')) calls) /\
  (fov camera' <> fov camera ->
   In (SetShaderValue_FLOAT (shader p) (locFOV p) (fov camera')) calls) /\
  (offset camera' <> offset camera ->
   In (SetShaderValue_FLOAT (shader p) (locOffset p) (offset camera')) calls) /\
  (rotMat camera' <> rotMat camera ->
   In (glUniformMatrix2fv (locCamRot p) 1 false (rotMat camera')) calls).
Proof.
  intros Hs p.
  assert (camera' = set_buffer (buffer camera') camera ->
          zoom camera' = zoom camera /\ fov camera' = fov camera /\
          offset camera' = offset camera /\ rotMat camera' = rotMat camera) as Hsame.
  { intros ->. simpl. auto. }
  destruct op as [ | tex pos scale wrap backgroundColor | | | | | | | | | | | | input speed
                 | a | q w];
    try (simpl in Hs; unfold no_ptr in Hs;
         cbv [andThen ret get modify call M7_Camera_Unload M7_Camera_Begin
                M7_Camera_DrawPlane M7_Camera_Render M7_Camera_SetPosition
                M7_Camera_SetRotation M7_Camera_SetZoom M7_Camera_SetFOV
                M7_Camera_SetOffset M7_Camera_Translate M7_Camera_Rotate] in Hs;
         inversion Hs; subst; unfold p; simpl;
         repeat split; intros Hne; try (exfalso; apply Hne; reflexivity); tauto).
  - destruct Hsame as (Hz & Hf & Ho & Hm);
      [eapply step_buffer_only; [exact Hs | right; left; eauto 10] | ].
    repeat split; intros Hne; contradiction.
  - destruct Hsame as (Hz & Hf & Ho & Hm);
      [eapply step_buffer_only; [exact Hs | left; reflexivity] | ].
    repeat split; intros Hne; contradiction.
  - simpl in Hs. unfold no_ptr in Hs. unfold andThen at 1 in Hs.
    rewrite M7_Camera_Move_run in Hs. inversion Hs; subst; clear Hs. unfold p. simpl.
    repeat split; intros Hne; tauto.
  - destruct Hsame as (Hz & Hf & Ho & Hm);
      [eapply step_buffer_only; [exact Hs | right; right; left; eauto] | ].
    repeat split; intros Hne; contradiction.
  - destruct Hsame as (Hz & Hf & Ho & Hm);
      [eapply step_buffer_only; [exact Hs | right; right; right; eauto] | ].
    repeat split; intros Hne; contradiction.
Qed.
End Uniforms.

Lemma changes_are_sent_to_the_shader_witness :
  In (SetShaderValue_FLOAT (Shader.mk 3) 4 100)
     [SetShaderValue_FLOAT (Shader.mk 3) 4 100].
Proof.
  apply (proj1 (changes_are_sent_to_the_shader (H := insertion_sort_LibC)
                  (Op_SetZoom 100) small_camera None (set_zoom 100 small_camera)
                  [SetShaderValue_FLOAT (Shader.mk 3) 4 100] eq_refl)).
  simpl. lra.
Defined.

(** ** Frames on concrete cameras *)

Lemma two_elements_camera_reachable : reachable (H := insertion_sort_LibC) two_elements_camera.
Proof.
  apply (reachable_step (H := insertion_sort_LibC) one_element_camera (Op_Add demo_circle)
           (Some 1%nat) two_elements_camera []).
  - apply (reachable_step (H := insertion_sort_LibC) small_camera (Op_Add demo_rectangle)
             (Some 0%nat) one_element_camera [] small_camera_reachable).
    reflexivity.
  - reflexivity.
Defined.

Lemma two_elements_can_be_updated : divisors_not_zero two_elements_camera.
Proof.
  intros j elem Hj He.
  destruct j as [ | [ | j]]; simpl in He; [ | | simpl in Hj; lia];
    inversion He; subst elem; clear He;
    (split; [simpl; lra | ]); (split; [ | simpl; lra]);
    unfold ToScreen_distance, ToScreen_spaceY; simpl; rewrite sin_0, cos_0; lra.
Defined.


(** The frame of the camera with the rectangle and the circle. *)
Lemma two_elements_frame :
  exists camera' calls, M7_Camera_End (H := insertion_sort_LibC) two_elements_camera
                        = Ok (tt, (camera', calls)).
Proof.
  pose proof (reachable_inv (H := insertion_sort_LibC) _ two_elements_camera_reachable)
    as (_ & Hwf & _).
  pose proof (M7_Camera_End_outcome (H := insertion_sort_LibC) two_elements_camera Hwf) as Hout.
  destruct (M7_ZBuffer_Update_outcome two_elements_camera Hwf)
    as [(c1 & Hu & _) | (Hu & j & e & Hj & He & Hue)]; rewrite Hu in Hout.
  - destruct Hout as (b2 & cs & _ & _ & _ & Hend). eexists. eexists. exact Hend.
  - exfalso. pose proof (two_elements_can_be_updated j e Hj He) as Hall.
    apply (M7_ZBuffer_Element_Update_Ok_iff e two_elements_camera) in Hall as [e' He'].
    rewrite He' in Hue. discriminate.
Defined.

Lemma M7_Camera_End_draws_each_element_once_witness :
  exists camera' calls (cs : list (ptr * M7_ZBuffer_Element)),
    M7_Camera_End (H := insertion_sort_LibC) two_elements_camera = Ok (tt, (camera', calls)) /\
    Permutation (map fst cs) [0%nat; 1%nat] /\
    calls = concat (map (fun c => M7_ZBuffer_Element_Draw (snd c)) cs) ++ [EndTextureMode].
Proof.
  destruct two_elements_frame as (camera' & calls & Hend).
  destruct (M7_Camera_End_draws_each_element_once (H := insertion_sort_LibC)
              two_elements_camera camera' calls two_elements_camera_reachable Hend)
    as (cs & Hperm & _ & _ & Hcalls).
  exists camera', calls, cs. split; [exact Hend | ]. split; [exact Hperm | exact Hcalls].
Defined.

Lemma M7_Camera_End_keeps_what_was_registered_witness :
  exists camera' calls,
    M7_Camera_End (H := insertion_sort_LibC) two_elements_camera = Ok (tt, (camera', calls)) /\
    count (buffer camera') = 2%Z /\
    camera' = set_buffer (buffer camera') two_elements_camera.
Proof.
  destruct two_elements_frame as (camera' & calls & Hend).
  destruct (M7_Camera_End_keeps_what_was_registered (H := insertion_sort_LibC)
              two_elements_camera camera' calls two_elements_camera_reachable Hend)
    as (Hsame & Hcount & _).
  exists camera', calls. split; [exact Hend | ]. split; [exact Hcount | exact Hsame].
Defined.

Lemma M7_Camera_End_without_elements_witness :
  M7_Camera_End (H := insertion_sort_LibC) small_camera
  = Ok (tt, (small_camera, [EndTextureMode])).
Proof.
  apply (M7_Camera_End_without_elements (H := insertion_sort_LibC)). reflexivity.
Defined.



(** ** The plane *)

Section Plane.
Context `{LibC}.

(** The shader of the plane and [M7_ToWorld] agree.  On a reachable camera
    whose target has an even width, at least as large as its height, with a
    field of view that is not zero, [M7_Camera_DrawPlane] sends the map
    size, the camera position shifted by the position and the origin of the
    plane, and the wrap mode; with these uniforms the fragment at texture
    coordinate (x / width, y / height), y not zero, looks up the map at the
    world point that [M7_ToWorld] returns for the pixel (x, y), shifted by
    the position and the origin of the plane and divided by the map size,
    and writes no colour when wrapping is off and this lies outside the
    map. *)
Theorem plane_shows_the_world_of_M7_ToWorld (camera : M7_Camera) (texture : Texture2D.t)
    (pos origin scale : Vector2.t) (wrap : Z) (pixel : Vector2.t) :
  reachable camera ->
  let width := Texture2D.width (RenderTexture.texture (target camera)) in
  let height := Texture2D.height (RenderTexture.texture (target camera)) in
  let u := plane_uniforms camera texture pos origin scale wrap in
  (height <= width)%Z -> (0 < height)%Z -> Z.even width = true ->
  fov camera <> 0 -> Vector2.y pixel <> 0 ->
  Vector2.x (PlaneFragment.mapSize u) <> 0 -> Vector2.y (PlaneFragment.mapSize u) <> 0 ->
  exists (calls : list Call) (w : Vector2.t),
    M7_Camera_DrawPlane texture pos origin scale wrap camera = Ok (tt, (camera, calls)) /\
    In (SetShaderValue_VEC2 (shader (planeProgram camera)) (locMapSize (planeProgram camera))
          (Vector2.x (PlaneFragment.mapSize u)) (Vector2.y (PlaneFragment.mapSize u))) calls /\
    In (SetShaderValue_VEC2 (shader (planeProgram camera)) (locCamPos (planeProgram camera))
          (Vector2.x (PlaneFragment.camPos u)) (Vector2.y (PlaneFragment.camPos u))) calls /\
    In (SetShaderValue_INT (shader (planeProgram camera)) (locWrap (planeProgram camera))
          (PlaneFragment.wrap u)) calls /\
    M7_ToWorld camera pixel = Ok w /\
    let uv := Vector2.mk
                ((Vector2.x w + Vector2.x pos + Vector2.x origin)
                 / Vector2.x (PlaneFragment.mapSize u))
                ((Vector2.y w + Vector2.y pos + Vector2.y origin)
                 / Vector2.y (PlaneFragment.mapSize u)) in
    M7_PlaneFragment u (Vector2.mk (Vector2.x pixel / IZR width) (Vector2.y pixel / IZR height))
    = Ok (if (wrap =? 0)%Z && outside_map uv then vec4_zero else texture_map uv).
Proof.
  intros Hreach width height u Hle Hpos Heven Hf Hy Hm0 Hm1.
  apply reachable_inv in Hreach as (_ & _ & _ & Hasp).
  fold width height in Hasp. rewrite Z.max_l, Z.min_r in Hasp by lia.
  assert (IZR height <> 0) as HH by (apply not_0_IZR; lia).
  assert (IZR width <> 0) as HW by (apply not_0_IZR; lia).
  assert (IZR (width ÷ 2) = IZR width / 2) as Hhalf.
  { apply Zeven_bool_iff in Heven. destruct (Zeven_ex width Heven) as [k Hk].
    rewrite Hk. rewrite Z.mul_comm, Z.quot_mul by lia. rewrite mult_IZR. lra. }
  assert (aspect camera <> 0) as Ha.
  { rewrite Hasp. intros H0. apply HW.
    replace (IZR width) with (IZR width / IZR height * IZR height) by (field; exact HH).
    rewrite H0. lra. }
  eexists. eexists. split; [reflexivity | ].
  split; [simpl; auto | ]. split; [simpl; auto | ]. split; [simpl; auto | ].
  split; [apply M7_ToWorld_Ok; assumption | ].
  fold width height. rewrite Hhalf, Hasp.
  unfold M7_PlaneFragment.
  assert (Vector2.y pixel / IZR height <> 0) as Hfy.
  { intros H0. apply Hy.
    replace (Vector2.y pixel) with (Vector2.y pixel / IZR height * IZR height)
      by (field; exact HH).
    rewrite H0. lra. }
  rewrite (fdiv_Ok _ _ Hf). simpl bind.
  rewrite !(fdiv_Ok _ _ Hfy). simpl bind.
  rewrite (fdiv_Ok _ _ Hm0). simpl bind.
  rewrite (fdiv_Ok _ _ Hm1). simpl bind.
  unfold outside_map. cbv zeta. simpl Vector2.x. simpl Vector2.y.
  set (m := rotMat camera).
  match goal with
  | |- (if _ && (flt ?a 0 || fgt ?a 1 || flt ?b 0 || fgt ?b 1) then _ else _)
       = Ok (if _ && (flt ?a' 0 || fgt ?a' 1 || flt ?b' 0 || fgt ?b' 1) then _ else _) =>
      assert (a = a') as Ea; [ | assert (b = b') as Eb; [ | rewrite Ea, Eb ] ]
  end.
  - unfold u in *; simpl in *. replace 0.5 with (1 / 2) by lra.
    field. repeat split; try assumption; intros E0; apply Hm0; rewrite E0; lra.
  - unfold u in *; simpl in *. replace 0.5 with (1 / 2) by lra.
    field. repeat split; try assumption; intros E0; apply Hm1; rewrite E0; lra.
  - destruct ((wrap =? 0)%Z && _); reflexivity.
Qed.
End Plane.

Lemma plane_shows_the_world_of_M7_ToWorld_witness :
  let tex := Texture2D.mk 9 16 32 1 7 in
  let scale := Vector2.mk 8 8 in
  let u := plane_uniforms small_camera tex (Vector2.mk 0 0) (Vector2.mk 64 128) scale 0 in
  exists (calls : list Call) (w : Vector2.t),
    M7_Camera_DrawPlane tex (Vector2.mk 0 0) (Vector2.mk 64 128) scale 0 small_camera
    = Ok (tt, (small_camera, calls)) /\
    M7_ToWorld small_camera (Vector2.mk 640 720) = Ok w /\
    M7_PlaneFragment u (Vector2.mk (640 / IZR 1280) (720 / IZR 720))
    = Ok (if (0 =? 0)%Z
             && outside_map (Vector2.mk ((Vector2.x w + 0 + 64) / (IZR 16 * 8))
                                        ((Vector2.y w + 0 + 128) / (IZR 32 * 8)))
          then vec4_zero
          else texture_map (Vector2.mk ((Vector2.x w + 0 + 64) / (IZR 16 * 8))
                                       ((Vector2.y w + 0 + 128) / (IZR 32 * 8)))).
Proof.
  intros tex scale u.
  destruct (plane_shows_the_world_of_M7_ToWorld (H := insertion_sort_LibC) small_camera tex
              (Vector2.mk 0 0) (Vector2.mk 64 128) scale 0 (Vector2.mk 640 720)
              small_camera_reachable ltac:(simpl; lia) ltac:(simpl; lia) eq_refl
              ltac:(simpl; lra) ltac:(simpl; lra) ltac:(simpl; lra) ltac:(simpl; lra))
    as (calls & w & Hdraw & _ & _ & _ & Hw & Hfrag).
  exists calls, w. split; [exact Hdraw | ]. split; [exact Hw | exact Hfrag].
Defined.

(** ** The comparison of the sort *)

(** [M7_ZBuffer_Compare] is a three-way comparison of the distances: its
    result is -1, 0 or 1, it is 0 exactly for equal distances, swapping the
    arguments changes its sign, and it is transitive; so it is a comparison
    that [qsort] accepts. *)
Theorem M7_ZBuffer_Compare_three_way (e1 e2 e3 : M7_ZBuffer_Element) :
  (M7_ZBuffer_Compare e1 e2 = (-1)%Z \/ M7_ZBuffer_Compare e1 e2 = 0%Z
   \/ M7_ZBuffer_Compare e1 e2 = 1%Z) /\
  (M7_ZBuffer_Compare e1 e2 = 0%Z <-> distance e1 = distance e2) /\
  (M7_ZBuffer_Compare e1 e2 = (-1)%Z <-> distance e1 < distance e2) /\
  M7_ZBuffer_Compare e2 e1 = (- M7_ZBuffer_Compare e1 e2)%Z /\
  ((M7_ZBuffer_Compare e1 e2 <= 0)%Z -> (M7_ZBuffer_Compare e2 e3 <= 0)%Z ->
   (M7_ZBuffer_Compare e1 e3 <= 0)%Z) /\
  consistent (fun a b : ptr * M7_ZBuffer_Element => M7_ZBuffer_Compare (snd a) (snd b)).
Proof.
  split; [ | split; [ | split; [ | split; [ | split]]]].
  - unfold M7_ZBuffer_Compare, fgt, flt, int_of_bool.
    destruct (Rlt_dec (distance e2) (distance e1)), (Rlt_dec (distance e1) (distance e2));
      auto; lra.
  - unfold M7_ZBuffer_Compare, fgt, flt, int_of_bool.
    destruct (Rlt_dec (distance e2) (distance e1)), (Rlt_dec (distance e1) (distance e2));
      split; intros; try lia; lra.
  - unfold M7_ZBuffer_Compare, fgt, flt, int_of_bool.
    destruct (Rlt_dec (distance e2) (distance e1)), (Rlt_dec (distance e1) (distance e2));
      split; intros; try lia; lra.
  - unfold M7_ZBuffer_Compare, fgt, flt, int_of_bool.
    destruct (Rlt_dec (distance e2) (distance e1)), (Rlt_dec (distance e1) (distance e2));
      lia.
  - rewrite !M7_ZBuffer_Compare_le. lra.
  - exact M7_ZBuffer_Compare_consistent.
Qed.

(** ** Loading *)

(** On a screen whose smaller dimension is not zero, [M7_Camera_Load]
    returns a camera with the position, rotation, zoom, field of view and
    offset given, the rotation matrix of the rotation, the larger dimension
    over the smaller as aspect, and an empty buffer whose capacity is
    [maxSprites] modulo 2^32, with both arrays of that length; loading sends
    to the shader the rotation matrix, then the offset, the zoom and the
    field of view, and does not send the position. *)
Theorem M7_Camera_Load_result (g : Graphics) (screenWidth screenHeight : Z)
    (pos : Vector2.t) (rot z f o : float) (maxSprites : Z) :
  Z.min screenWidth screenHeight <> 0%Z ->
  exists camera,
    M7_Camera_Load g screenWidth screenHeight pos rot z f o maxSprites
    = Ok (camera,
          [ glUseProgram (Shader.id (shader (planeProgram camera)));
            glUniformMatrix2fv (locCamRot (planeProgram camera)) 1 false (rotMat camera);
            SetShaderValue_FLOAT (shader (planeProgram camera))
              (locOffset (planeProgram camera)) o;
            SetShaderValue_FLOAT (shader (planeProgram camera))
              (locZoom (planeProgram camera)) z;
            SetShaderValue_FLOAT (shader (planeProgram camera))
              (locFOV (planeProgram camera)) f ]) /\
    position camera = pos /\ rotation camera = rot /\ zoom camera = z /\ fov camera = f /\
    offset camera = o /\
    rotMat camera = {| m0 := cos rot; m1 := - sin rot; m2 := sin rot; m3 := cos rot |} /\
    aspect camera
    = IZR (Z.max screenWidth screenHeight) / IZR (Z.min screenWidth screenHeight) /\
    count (buffer camera) = 0%Z /\
    maxCount (buffer camera) = (maxSprites mod 2 ^ 32)%Z /\
    length (elems (buffer camera)) = Z.to_nat (maxSprites mod 2 ^ 32) /\
    length (ptrElems (buffer camera)) = Z.to_nat (maxSprites mod 2 ^ 32).
Proof.
  intros Hmin.
  exists (loaded_camera g screenWidth screenHeight pos rot z f o maxSprites).
  split; [exact (M7_Camera_Load_Ok g screenWidth screenHeight pos rot z f o maxSprites Hmin) | ].
  assert (0 <= maxSprites mod 2 ^ 32 < 2 ^ 32)%Z as Hb by (apply Z.mod_pos_bound; lia).
  pose proof (wf_Load _ Hb) as (_ & _ & Hle & Hlp & _).
  assert (count (M7_ZBuffer_Load (maxSprites mod 2 ^ 32)) = 0%Z /\
          maxCount (M7_ZBuffer_Load (maxSprites mod 2 ^ 32)) = (maxSprites mod 2 ^ 32)%Z)
    as [Hc Hm].
  { unfold M7_ZBuffer_Load. destruct (_ >? _)%Z; split; reflexivity. }
  rewrite Hm in Hle, Hlp.
  unfold loaded_camera, uint32_wrap; cbn [position rotation zoom fov offset
    rotMat aspect buffer planeProgram].
  do 7 (split; [reflexivity | ]).
  split; [exact Hc | ]. split; [exact Hm | ]. split; [exact Hle | exact Hlp].
Qed.

(** ** The update of one element *)

(** [M7_ZBuffer_Element_Update] derives the screen data and the distance of
    an element from its world data and the camera alone: the world data, the
    texture, the tint and the type are kept; any element with the same four
    gets the same update, whatever its screen data and distance were; and
    updating the updated element on the same camera changes nothing. *)
Theorem M7_ZBuffer_Element_Update_derives_screen_data (camera : M7_Camera)
    (elem elem' : M7_ZBuffer_Element) :
  M7_ZBuffer_Element_Update elem camera = Ok elem' ->
  onWorld elem' = onWorld elem /\ texture elem' = texture elem /\
  tint elem' = tint elem /\ type elem' = type elem /\
  (forall (s : SpaceData.t) (d : float),
     M7_ZBuffer_Element_Update
       {| onWorld := onWorld elem; onScreen := s; texture := texture elem;
          distance := d; tint := tint elem; type := type elem |} camera
     = Ok elem') /\
  M7_ZBuffer_Element_Update elem' camera = Ok elem'.
Proof.
  intros Hu.
  pose proof (M7_ZBuffer_Element_Update_idempotent _ _ _ Hu) as Hidem.
  pose proof Hu as Hinv.
  apply M7_ZBuffer_Element_Update_Ok_inv in Hinv as (v & _ & _ & _ & He).
  rewrite He at 1 2 3 4. simpl.
  repeat (split; [reflexivity | ]).
  split; [ | exact Hidem].
  intros s d. rewrite <- Hu. apply M7_ZBuffer_Element_Update_reads; reflexivity.
Qed.

Lemma M7_ZBuffer_Element_Update_derives_screen_data_witness :
  exists elem',
    M7_ZBuffer_Element_Update tall_sprite small_camera = Ok elem' /\
    onWorld elem' = onWorld tall_sprite /\
    M7_ZBuffer_Element_Update elem' small_camera = Ok elem'.
Proof.
  destruct (proj2 (M7_ZBuffer_Element_Update_Ok_iff tall_sprite small_camera)) as [elem' Hu].
  { split; [simpl; lra | ]. split; [ | split; simpl; lra].
    unfold ToScreen_distance, ToScreen_spaceY; simpl. rewrite sin_0, cos_0. lra. }
  exists elem'. split; [exact Hu | ].
  destruct (M7_ZBuffer_Element_Update_derives_screen_data small_camera tall_sprite elem' Hu)
    as (Hw & _ & _ & _ & _ & Hidem).
  split; [exact Hw | exact Hidem].
Defined.

Lemma M7_ZBuffer_Compare_three_way_witness :
  (M7_ZBuffer_Compare (at_distance 1) (at_distance 3) <= 0)%Z.
Proof.
  destruct (M7_ZBuffer_Compare_three_way (at_distance 1) (at_distance 2) (at_distance 3))
    as (_ & _ & Hlt & _ & Htrans & _).
  destruct (M7_ZBuffer_Compare_three_way (at_distance 2) (at_distance 3) (at_distance 3))
    as (_ & _ & Hlt' & _).
  apply Htrans.
  - rewrite (proj2 Hlt) by (simpl; lra). lia.
  - rewrite (proj2 Hlt') by (simpl; lra). lia.
Defined.

Lemma M7_Camera_Load_result_witness :
  exists camera t,
    M7_Camera_Load demo_graphics 1280 720 (Vector2.mk 0 0) 0 80 0.5 0.5 2 = Ok (camera, t) /\
    count (buffer camera) = 0%Z /\ maxCount (buffer camera) = 2%Z.
Proof.
  destruct (M7_Camera_Load_result demo_graphics 1280 720 (Vector2.mk 0 0) 0 80 0.5 0.5 2
              ltac:(vm_compute; discriminate))
    as (camera & HL & _ & _ & _ & _ & _ & _ & _ & Hc & Hm & _).
  exists camera. eexists. split; [exact HL | ]. split; [exact Hc | exact Hm].
Defined.
